(** * Beaglebone Blue UDP throttle/rudder servo control

    A model of [udp_servo_control.c].  The program has two threads that
    share the globals [throttle] and [rudder] under one mutex:

    - [commsThread] binds a UDP socket and, while [running], receives a
      datagram (or times out), parses it with [strtok]/[strtod] and
      publishes the demand pair;
    - [main] initialises the hardware, starts [commsThread] and, while
      [running], reads the pair, maps both axes to pulse widths and sends
      them to the two servo channels; after the loop it joins the thread,
      sends the neutral pulses and switches the power rail off.

    Numbers.  The two threads, the parsing and the order of the calls are
    modelled with a C [double] as an exact rational ([Q]); there equality
    of doubles is [Qeq] ([==]), and the infinities and NaN have no
    counterpart.  The arithmetic of the control loop is modelled on IEEE
    754 binary64 numbers ([Binary64]): every operation rounds to nearest,
    ties to even, comparisons with NaN fail, and the width computed as a
    [double] is converted to [int] where it is passed to
    [rc_servo_send_pulse_us].  The statements about the widths of the
    pulses (the throttle and rudder maps) are statements about that
    model.

    Library calls.  [recvfrom], [strtok], [strtod] and the robot control
    library are not part of the program text; they are modelled after their
    manual pages, each next to its use. *)

From Stdlib Require Import Ascii String.
From Stdlib Require Import ZArith QArith Qfield Lia Lqa.
From Stdlib Require Import List Bool.
From Stdlib Require PrimFloat Uint63 Floats.
Import ListNotations.

Local Open Scope Z_scope.

(** ** Configuration ([#define]s) *)

Definition UDP_PORT : Z := 2031.
Definition THROTTLE_SERVO : Z := 0.
Definition RUDDER_SERVO : Z := 1.
Definition THROTTLE_MIN_PULSE_LENGTH_USEC : Z := 900.
Definition THROTTLE_MAX_PULSE_LENGTH_USEC : Z := 2100.
Definition RUDDER_MIN_PULSE_LENGTH_USEC : Z := 900.
Definition RUDDER_MAX_PULSE_LENGTH_USEC : Z := 2100.
Definition SERVO_PULSE_RATE_HZ : Z := 50.
Definition COMMS_TIMEOUT_SEC : Z := 5.

(** [double]: see the header. *)
Definition double : Type := Q.
Bind Scope Q_scope with double.

(** Integer operands are converted to [double] where C's usual arithmetic
    conversions do so. *)
Definition of_int (z : Z) : double := inject_Z z.

Definition THROTTLE_RANGE_USEC : Z :=
  THROTTLE_MAX_PULSE_LENGTH_USEC - THROTTLE_MIN_PULSE_LENGTH_USEC.
Definition RUDDER_RANGE_USEC : Z :=
  RUDDER_MAX_PULSE_LENGTH_USEC - RUDDER_MIN_PULSE_LENGTH_USEC.
Definition RUDDER_CENTRE_PULSE_LENGTH_USEC : double :=
  (of_int (RUDDER_MAX_PULSE_LENGTH_USEC - RUDDER_MIN_PULSE_LENGTH_USEC) / 2
   + of_int RUDDER_MIN_PULSE_LENGTH_USEC)%Q.

(** ** Demands and pulse commands *)

(** The two globals [throttle] and [rudder], always read and written as a
    pair. *)
Record demand : Type := Demand { throttle : double; rudder : double }.

(** [double throttle, rudder = 0.0;] at file scope: both start at zero. *)
Definition zero_demand : demand := Demand 0 0.

Definition demand_eq (a b : demand) : Prop :=
  (throttle a == throttle b)%Q /\ (rudder a == rudder b)%Q.

(** What the program prints and what it asks of the hardware and of the
    system, in order.  Messages are given without their final newline, and
    the formatted lines of [commsThread] are left out.  [SendPulse ch us]
    stands for the call [rc_servo_send_pulse_us(ch, us)] with the value of
    its argument expression; the library behind it is not part of the
    program. *)
Inductive event : Type :=
| Stdout (msg : string)
| Stderr (msg : string)
| AdcCleanup
| PowerRail (en : Z)
| SendPulse (ch : Z) (us : double)
| Usleep (us : Z)
| ThreadCreate
| SetReceiveTimeout (tv_sec tv_usec : Z)
| Bind (port : Z)
| SocketClose
| ThreadJoin
| ServoCleanup.

(** ** The control loop body ([main], "Calculate outputs") *)

Definition throttle_in_range (tmpThrottle : double) : bool :=
  Qle_bool 0 tmpThrottle && Qle_bool tmpThrottle 100.

Definition rudder_in_range (tmpRudder : double) : bool :=
  Qle_bool (-(100)) tmpRudder && Qle_bool tmpRudder 100.

Definition throttle_usec (tmpThrottle : double) : double :=
  if throttle_in_range tmpThrottle
  then (tmpThrottle / 100 * of_int THROTTLE_RANGE_USEC
        + of_int THROTTLE_MIN_PULSE_LENGTH_USEC)%Q
  else of_int THROTTLE_MIN_PULSE_LENGTH_USEC.

Definition rudder_usec (tmpRudder : double) : double :=
  if rudder_in_range tmpRudder
  then (tmpRudder / 200 * of_int RUDDER_RANGE_USEC
        + RUDDER_CENTRE_PULSE_LENGTH_USEC)%Q
  else RUDDER_CENTRE_PULSE_LENGTH_USEC.

(** One pass of [while (running)] in [main], from the snapshot taken under
    the mutex to the sleep. *)
Definition control_cycle (d : demand) : list event :=
  let tmpThrottle := throttle d in
  let tmpRudder := rudder d in
  (if throttle_in_range tmpThrottle then []
   else [Stdout "Throttle demand out of range"])
  ++ (if rudder_in_range tmpRudder then []
      else [Stdout "Rudder demand out of range"])
  ++ [SendPulse THROTTLE_SERVO (throttle_usec tmpThrottle);
      SendPulse RUDDER_SERVO (rudder_usec tmpRudder);
      Usleep (1000000 / SERVO_PULSE_RATE_HZ)].

(** The pulses of a list of events, per channel, in order. *)
Fixpoint pulses_on (ch : Z) (tr : list event) : list double :=
  match tr with
  | [] => []
  | SendPulse c us :: tr' =>
      if Z.eqb c ch then us :: pulses_on ch tr' else pulses_on ch tr'
  | _ :: tr' => pulses_on ch tr'
  end.

(** The events that switch the servo power rail off. *)
Definition power_off (ev : event) : bool :=
  match ev with
  | PowerRail en => Z.eqb en 0
  | _ => false
  end.

(** The control loop: one pass per snapshot it takes of the shared pair
    while [running] stays set. *)
Definition control_loop (snapshots : list demand) : list event :=
  flat_map control_cycle snapshots.

(** ** Faults

    Two operations of [commsThread] have no defined result in C on some
    inputs: a store past the end of [buffer], and [strtod] on a null
    pointer.  They end the run of the model with a [Fault]. *)

Inductive fault : Type :=
| OutOfBounds (index : Z) (size : nat)
| NullPointer.

Inductive result (A : Type) : Type :=
| Ok (a : A)
| Fault (f : fault).
Arguments Ok {A} a.
Arguments Fault {A} f.

Definition bind {A B : Type} (r : result A) (k : A -> result B) : result B :=
  match r with
  | Ok a => k a
  | Fault f => Fault f
  end.

Notation "x <- r ;; k" := (bind r (fun x => k))
  (at level 61, r at next level, right associativity).

(** ** The receive buffer and the C library calls on it *)

Definition NUL : ascii := Ascii.zero.

(** [char buffer[20] = {0};] *)
Definition BUFFER_SIZE : nat := 20.
Definition buffer_init : list ascii := repeat NUL BUFFER_SIZE.

(** What one [recvfrom] on the socket finds: nothing within the receive
    timeout (or an error), or one datagram. *)
Inductive recv_result : Type :=
| RecvNone
| RecvDatagram (payload : list ascii).

(** [recvfrom(fd, buf, len, ...)] on a datagram socket: -1 when nothing was
    received; otherwise the first [len] bytes of the datagram are copied to
    [buf], the excess is discarded, and the number of bytes copied is
    returned. *)
Definition recvfrom (r : recv_result) (buf : list ascii) (len : nat)
  : Z * list ascii :=
  match r with
  | RecvNone => ((-1)%Z, buf)
  | RecvDatagram payload =>
      let got := firstn len payload in
      (Z.of_nat (length got), got ++ skipn (length got) buf)
  end.

(** [buf[i] = c] *)
Definition store (buf : list ascii) (i : Z) (c : ascii)
  : result (list ascii) :=
  if ((0 <=? i) && (i <? Z.of_nat (length buf)))%Z
  then Ok (firstn (Z.to_nat i) buf ++ c :: skipn (S (Z.to_nat i)) buf)
  else Fault (OutOfBounds i (length buf)).

(** A [char *] into the buffer is the list of bytes from the pointer to
    the end of the buffer; the string it points to stops at the first
    NUL. *)
Fixpoint cstring (mem : list ascii) : list ascii :=
  match mem with
  | [] => []
  | c :: mem' => if Ascii.eqb c NUL then [] else c :: cstring mem'
  end.

Definition is_delim (delim : list ascii) (c : ascii) : bool :=
  existsb (Ascii.eqb c) delim.

(** [s + strspn(s, delim)] *)
Fixpoint skip_delims (delim : list ascii) (s : list ascii) : list ascii :=
  match s with
  | [] => []
  | c :: s' => if is_delim delim c then skip_delims delim s' else s
  end.

(** From the start of a token: its characters, and the pointer [strtok]
    saves (one past the delimiter it overwrites with NUL, or the
    terminating NUL itself). *)
Fixpoint scan_token (delim : list ascii) (s : list ascii)
  : list ascii * list ascii :=
  match s with
  | [] => ([], [])
  | c :: s' =>
      if Ascii.eqb c NUL then ([], s)
      else if is_delim delim c then ([], s')
      else let (tok, olds) := scan_token delim s' in (c :: tok, olds)
  end.

(** [strtok(s, delim)], and [strtok(NULL, delim)] when [s] is the saved
    pointer: the token as a string ([None] for a null pointer) and the new
    saved pointer. *)
Definition strtok (s : list ascii) (delim : list ascii)
  : option (list ascii) * list ascii :=
  let s1 := skip_delims delim s in
  match cstring s1 with
  | [] => (None, s1)
  | _ :: _ => let (tok, olds) := scan_token delim s1 in (Some tok, olds)
  end.

(** *** [strtod]

    The decimal form of the subject sequence: white space, an optional
    sign, digits with an optional point, an optional exponent.  The value
    is exact.  When no conversion can be performed the result is zero.
    The forms [inf], [nan] and [0x...] are not modelled. *)

Definition isspace (c : ascii) : bool :=
  let n := nat_of_ascii c in
  Nat.eqb n 32 || (Nat.leb 9 n && Nat.leb n 13).

Definition isdigit (c : ascii) : bool :=
  let n := nat_of_ascii c in
  Nat.leb 48 n && Nat.leb n 57.

Definition digit_value (c : ascii) : Z := (Z.of_nat (nat_of_ascii c) - 48)%Z.

Fixpoint skip_space (s : list ascii) : list ascii :=
  match s with
  | [] => []
  | c :: s' => if isspace c then skip_space s' else s
  end.

Definition read_sign (s : list ascii) : bool * list ascii :=
  match s with
  | [] => (false, [])
  | c :: s' =>
      if Ascii.eqb c "-" then (true, s')
      else if Ascii.eqb c "+" then (false, s')
      else (false, s)
  end.

(** Digits read onto [acc]: the number so far, how many digits were read,
    and what follows them. *)
Fixpoint read_digits (s : list ascii) (acc : Z) (count : nat)
  : Z * nat * list ascii :=
  match s with
  | [] => (acc, count, [])
  | c :: s' =>
      if isdigit c
      then read_digits s' (10 * acc + digit_value c)%Z (S count)
      else (acc, count, s)
  end.

(** An exponent part counts only when it has a digit. *)
Definition read_exponent (s : list ascii) : Z :=
  match s with
  | [] => 0%Z
  | c :: s' =>
      if Ascii.eqb c "e" || Ascii.eqb c "E" then
        let (neg, s'') := read_sign s' in
        let '(e, count, _) := read_digits s'' 0%Z 0%nat in
        if Nat.eqb count 0 then 0%Z else if neg then (- e)%Z else e
      else 0%Z
  end.

(** The digits after the point go onto the same number; [nf] counts
    them. *)
Definition read_fraction (s : list ascii) (ip : Z) : Z * nat * list ascii :=
  match s with
  | [] => (ip, 0%nat, [])
  | c :: s' =>
      if Ascii.eqb c "." then read_digits s' ip 0%nat else (ip, 0%nat, s)
  end.

Definition strtod_string (nptr : list ascii) : double :=
  let s := skip_space nptr in
  let (neg, s) := read_sign s in
  let '(ip, ni, s) := read_digits s 0%Z 0%nat in
  let '(m, nf, s) := read_fraction s ip in
  if Nat.eqb (ni + nf) 0 then 0%Q
  else
    let v := (inject_Z m * 10 ^ (read_exponent s - Z.of_nat nf))%Q in
    if neg then (- v)%Q else v.

(** [strtod(ptr, &eptr)]; [eptr] is never read by the program. *)
Definition strtod (ptr : option (list ascii)) : result double :=
  match ptr with
  | None => Fault NullPointer
  | Some str => Ok (strtod_string str)
  end.

(** ** [commsThread] *)

(** One pass of [while (running)]: the pair written to [throttle] and
    [rudder] under the mutex.  The thread's [printf] lines are left out. *)
Definition commsThread_iteration (r : recv_result) : result demand :=
  let buffer := buffer_init in
  let '(nbytes, buffer) := recvfrom r buffer (length buffer) in
  if (0 <? nbytes)%Z then
    buffer <- store buffer nbytes NUL ;;
    let delim := [","%char] in
    let '(ptr, olds) := strtok buffer delim in
    tmpThrottle <- strtod ptr ;;
    let '(ptr, olds) := strtok olds delim in
    tmpRudder <- strtod ptr ;;
    Ok (Demand tmpThrottle tmpRudder)
  else
    Ok (Demand 0 0).

(** The passes of the loop over what successive [recvfrom] calls find;
    [shared] is the pair in the globals before the first pass. *)
Fixpoint commsThread_loop (rs : list recv_result) (shared : demand)
  : result demand :=
  match rs with
  | [] => Ok shared
  | r :: rs' =>
      published <- commsThread_iteration r ;;
      commsThread_loop rs' published
  end.

Definition datagram (s : string) : recv_result :=
  RecvDatagram (list_ascii_of_string s).

(** ** Payload shapes

    The words the statements below use for what a datagram holds: a field
    is a non-empty run of bytes other than the comma and NUL; what follows
    the second field is nothing, or starts with a comma or a NUL. *)

Definition field_char (c : ascii) : bool :=
  negb (Ascii.eqb c ",") && negb (Ascii.eqb c NUL).

Definition is_field (tok : list ascii) : bool :=
  match tok with
  | [] => false
  | _ :: _ => forallb field_char tok
  end.

Definition ends_field (extra : list ascii) : bool :=
  match extra with
  | [] => true
  | c :: _ => negb (field_char c)
  end.

Definition two_fields (tok1 tok2 extra : list ascii) : list ascii :=
  tok1 ++ ","%char :: tok2 ++ extra.

(** Letters without regard to case, for [inf] and [nan]. *)
Definition to_lower (c : ascii) : ascii :=
  let n := nat_of_ascii c in
  if Nat.leb 65 n && Nat.leb n 90 then ascii_of_nat (n + 32) else c.

Fixpoint starts_with (word s : list ascii) : bool :=
  match word, s with
  | [], _ => true
  | _ :: _, [] => false
  | w :: word', c :: s' => Ascii.eqb (to_lower c) w && starts_with word' s'
  end.

(** Where [strtod] finds a number to convert: at a digit, at a point
    followed by a digit, and at [inf] and [nan] in either case. *)
Definition starts_number (s : list ascii) : bool :=
  match s with
  | [] => false
  | c :: s' =>
      isdigit c
      || (Ascii.eqb c "."
          && match s' with
             | [] => false
             | c' :: _ => isdigit c'
             end)
      || starts_with ["i"; "n"; "f"]%char s
      || starts_with ["n"; "a"; "n"]%char s
  end.

(** A field in which [strtod] finds no number: after white space and an
    optional sign there is nothing it can convert. *)
Definition unparsable (tok : list ascii) : bool :=
  negb (starts_number (snd (read_sign (skip_space tok)))).

(** ** One run of the program

    The environment fixes what the library and system calls return and in
    which order the two loops take their turns while [running] is set.  A
    turn of [commsThread] is one pass of its loop on what [recvfrom]
    finds; a turn of [main] is one pass of the control loop.  Each pass
    touches the shared pair once, under the mutex (see [Sync] below for
    the single loads and stores).  The schedule ends when the signal
    handler has cleared [running] and both loops have seen it. *)

Inductive turn : Type :=
| CommsTurn (r : recv_result)
| MainTurn.

Record env : Type := Env {
  adc_init_rc : Z;            (* rc_adc_init() *)
  batt_reads : list double;   (* successive values of rc_adc_batt() *)
  servo_init_rc : Z;          (* rc_servo_init() *)
  socket_rc : Z;              (* socket(...) *)
  sockopt_reuse_rc : Z;       (* setsockopt(..., SO_REUSEADDR, ...) *)
  sockopt_timeo_rc : Z;       (* setsockopt(..., SO_RCVTIMEO, ...) *)
  bind_rc : Z;                (* bind(...) *)
  schedule : list turn
}.

(** How a run ends: [main] returns, the process is killed by a fault in
    [commsThread], or [main] is still waiting for the battery when the
    readings run out. *)
Inductive ending : Type :=
| Exited (code : Z)
| Killed (f : fault)
| WaitingForBattery.

(** The head of [commsThread], up to the loop: [true] when the socket is
    bound and the loop is entered, [false] on each [return NULL]. *)
Definition commsThread_setup (e : env) : bool * list event :=
  if (socket_rc e <? 0)%Z then (false, [Stderr "create socket failed"])
  else if (sockopt_reuse_rc e <? 0)%Z
  then (false, [Stderr "configure socket failed 1"])
  else if (sockopt_timeo_rc e <? 0)%Z
  then (false, [SetReceiveTimeout COMMS_TIMEOUT_SEC 0;
                Stderr "configure socket failed 2"])
  else if (bind_rc e <? 0)%Z
  then (false, [SetReceiveTimeout COMMS_TIMEOUT_SEC 0; Bind UDP_PORT;
                Stderr "bind socket failed"])
  else (true, [SetReceiveTimeout COMMS_TIMEOUT_SEC 0; Bind UDP_PORT]).

(** The two loops, turn by turn, from the pair in the globals.  When
    [commsThread] has returned early its turns do nothing. *)
Fixpoint run_threads (listening : bool) (sched : list turn) (shared : demand)
  : list event * result demand :=
  match sched with
  | [] => ([], Ok shared)
  | MainTurn :: rest =>
      let (tr, r) := run_threads listening rest shared in
      (control_cycle shared ++ tr, r)
  | CommsTurn r :: rest =>
      if listening then
        match commsThread_iteration r with
        | Ok published => run_threads listening rest published
        | Fault f => ([], Fault f)
        end
      else run_threads listening rest shared
  end.

(** [while (rc_adc_batt()<6.0) { printf(...); rc_usleep(5000000); }] *)
Fixpoint wait_battery (reads : list double) : list event * bool :=
  match reads with
  | [] => ([], false)
  | v :: rest =>
      if Qle_bool 6 v then ([], true)
      else
        let (tr, ok) := wait_battery rest in
        (Stdout "Battery disconnected or insufficiently charged to drive servos, waiting until connected..."
           :: Usleep 5000000 :: tr, ok)
  end.

(** [main], before the thread is created. *)
Definition zero_outputs : list event :=
  [SendPulse THROTTLE_SERVO (of_int THROTTLE_MIN_PULSE_LENGTH_USEC);
   SendPulse RUDDER_SERVO RUDDER_CENTRE_PULSE_LENGTH_USEC].

Definition power_up : list event :=
  [Stdout "Turning On 6V Servo Power Rail"; PowerRail 1; Stdout "Zero output"]
  ++ zero_outputs ++ [Usleep 2000000; ThreadCreate].

(** [main], after the control loop. *)
Definition shut_down : list event :=
  [ThreadJoin] ++ zero_outputs ++ [Usleep 50000; PowerRail 0; ServoCleanup].

Definition main (e : env) : list event * ending :=
  if negb (adc_init_rc e =? 0)%Z
  then ([Stderr "ERROR: failed to run rc_adc_init()"], Exited (-1))
  else
    let (waits, charged) := wait_battery (batt_reads e) in
    if negb charged then (waits, WaitingForBattery)
    else if negb (servo_init_rc e =? 0)%Z
    then (waits ++ [AdcCleanup], Exited (-1))
    else
      let (listening, setup) := commsThread_setup e in
      let started := waits ++ [AdcCleanup] ++ power_up ++ setup in
      match run_threads listening (schedule e) zero_demand with
      | (tr, Ok _) =>
          (started ++ tr
             ++ (if listening then [SocketClose] else [])
             ++ shut_down,
           Exited 0)
      | (tr, Fault f) => (started ++ tr, Killed f)
      end.

(** A stretch of the schedule in which nothing arrives: [recvfrom] only
    times out, and [main] takes its turns. *)
Definition silent (sched : list turn) : bool :=
  forallb (fun t => match t with
                    | MainTurn => true
                    | CommsTurn RecvNone => true
                    | CommsTurn (RecvDatagram _) => false
                    end) sched.

Fixpoint main_turns (sched : list turn) : nat :=
  match sched with
  | [] => 0
  | MainTurn :: rest => S (main_turns rest)
  | CommsTurn _ :: rest => main_turns rest
  end.

(** A run in which everything succeeds except [bind] (the port is taken),
    with a charged battery, a datagram on the wire and two passes of the
    control loop before the interrupt. *)
Definition env_bind_fails : env :=
  {| adc_init_rc := 0;
     batt_reads := [7.4%Q];
     servo_init_rc := 0;
     socket_rc := 3;
     sockopt_reuse_rc := 0;
     sockopt_timeo_rc := 0;
     bind_rc := -1;
     schedule := [MainTurn; CommsTurn (datagram "100,100"); MainTurn] |}.

(** ** The shared pair under the mutex

    The two critical sections as single loads and stores, interleaved in
    any order the mutex allows.  Each value in a global or in a local of
    [main] carries the number of the publication that stored it (0 for
    the initial zeros); the numbers are bookkeeping only and no step
    depends on them. *)

Module Sync.

Record cell : Type := Cell { value : double; writer : nat }.

Inductive thread : Type := Comms | Main.

(** Where [commsThread] stands: outside the critical section (receiving
    and parsing), waiting for the mutex with the pair to publish, or
    before one of the three statements inside. *)
Inductive comms_pc : Type :=
| CReceive
| CLock (tmp : demand)
| CStoreThrottle (tmp : demand)
| CStoreRudder (tmp : demand)
| CUnlock (tmp : demand).

(** Where [main] stands: before the lock, before one of the three
    statements inside, or past the unlock with its snapshot. *)
Inductive main_pc : Type :=
| MLock
| MLoadThrottle
| MLoadRudder
| MUnlock
| MCompute.

Record state : Type := State {
  mutex : option thread;
  g_throttle : cell;            (* the global throttle *)
  g_rudder : cell;              (* the global rudder *)
  comms_at : comms_pc;
  main_at : main_pc;
  tmpThrottle : cell;           (* main's local copy *)
  tmpRudder : cell;             (* main's local copy *)
  published : list demand       (* the pairs published so far, oldest first *)
}.

Definition init : state :=
  State None (Cell 0 0) (Cell 0 0) CReceive MLock (Cell 0 0) (Cell 0 0)
        [zero_demand].

Inductive action : Type :=
| CommsReceive (r : recv_result)
| CommsLock
| CommsStoreThrottle
| CommsStoreRudder
| CommsUnlock
| MainLock
| MainLoadThrottle
| MainLoadRudder
| MainUnlock
| MainSend.

(** One atomic step; [None] when the thread is not at that statement, or
    the mutex is held by the other thread, or the receive pass faults. *)
Definition exec (a : action) (s : state) : option state :=
  match a, comms_at s, main_at s, mutex s with
  | CommsReceive r, CReceive, _, _ =>
      match commsThread_iteration r with
      | Ok tmp =>
          Some (State (mutex s) (g_throttle s) (g_rudder s) (CLock tmp)
                      (main_at s) (tmpThrottle s) (tmpRudder s) (published s))
      | Fault _ => None
      end
  | CommsLock, CLock tmp, _, None =>
      Some (State (Some Comms) (g_throttle s) (g_rudder s)
                  (CStoreThrottle tmp)
                  (main_at s) (tmpThrottle s) (tmpRudder s) (published s))
  | CommsStoreThrottle, CStoreThrottle tmp, _, _ =>
      Some (State (mutex s)
                  (Cell (throttle tmp) (length (published s))) (g_rudder s)
                  (CStoreRudder tmp)
                  (main_at s) (tmpThrottle s) (tmpRudder s) (published s))
  | CommsStoreRudder, CStoreRudder tmp, _, _ =>
      Some (State (mutex s)
                  (g_throttle s) (Cell (rudder tmp) (length (published s)))
                  (CUnlock tmp)
                  (main_at s) (tmpThrottle s) (tmpRudder s) (published s))
  | CommsUnlock, CUnlock tmp, _, _ =>
      Some (State None (g_throttle s) (g_rudder s) CReceive
                  (main_at s) (tmpThrottle s) (tmpRudder s)
                  (published s ++ [tmp]))
  | MainLock, _, MLock, None =>
      Some (State (Some Main) (g_throttle s) (g_rudder s) (comms_at s)
                  MLoadThrottle (tmpThrottle s) (tmpRudder s) (published s))
  | MainLoadThrottle, _, MLoadThrottle, _ =>
      Some (State (mutex s) (g_throttle s) (g_rudder s) (comms_at s)
                  MLoadRudder (g_throttle s) (tmpRudder s) (published s))
  | MainLoadRudder, _, MLoadRudder, _ =>
      Some (State (mutex s) (g_throttle s) (g_rudder s) (comms_at s)
                  MUnlock (tmpThrottle s) (g_rudder s) (published s))
  | MainUnlock, _, MUnlock, _ =>
      Some (State None (g_throttle s) (g_rudder s) (comms_at s)
                  MCompute (tmpThrottle s) (tmpRudder s) (published s))
  | MainSend, _, MCompute, _ =>
      Some (State (mutex s) (g_throttle s) (g_rudder s) (comms_at s)
                  MLock (tmpThrottle s) (tmpRudder s) (published s))
  | _, _, _, _ => None
  end.

Fixpoint run (acts : list action) (s : state) : option state :=
  match acts with
  | [] => Some s
  | a :: acts' =>
      match exec a s with
      | Some s' => run acts' s'
      | None => None
      end
  end.

(** The pair [main] holds once it has left its critical section. *)
Definition snapshot (s : state) : demand :=
  Demand (value (tmpThrottle s)) (value (tmpRudder s)).

(** Two cells hold the two halves of one publication. *)
Definition consistent (ct cr : cell) (pubs : list demand) : Prop :=
  writer ct = writer cr
  /\ nth_error pubs (writer ct) = Some (Demand (value ct) (value cr)).

(** What holds in every state the two threads can reach: who holds the
    mutex follows from where the threads stand, the globals are consistent
    except between the two stores of [commsThread], and the locals of
    [main] are consistent once both are loaded. *)
Definition inv (s : state) : Prop :=
  match comms_at s with
  | CReceive | CLock _ =>
      mutex s <> Some Comms
      /\ consistent (g_throttle s) (g_rudder s) (published s)
  | CStoreThrottle _ =>
      mutex s = Some Comms
      /\ consistent (g_throttle s) (g_rudder s) (published s)
  | CStoreRudder tmp =>
      mutex s = Some Comms
      /\ g_throttle s = Cell (throttle tmp) (length (published s))
  | CUnlock tmp =>
      mutex s = Some Comms
      /\ g_throttle s = Cell (throttle tmp) (length (published s))
      /\ g_rudder s = Cell (rudder tmp) (length (published s))
  end
  /\ match main_at s with
     | MLock => mutex s <> Some Main
     | MLoadThrottle => mutex s = Some Main
     | MLoadRudder => mutex s = Some Main /\ tmpThrottle s = g_throttle s
     | MUnlock =>
         mutex s = Some Main
         /\ consistent (tmpThrottle s) (tmpRudder s) (published s)
     | MCompute =>
         mutex s <> Some Main
         /\ consistent (tmpThrottle s) (tmpRudder s) (published s)
     end.

End Sync.

(** An interleaving in which [main] takes its snapshot of the first
    publication while the second is on its way: the second datagram is
    received between the two loads of [main], and its throttle is stored
    before [main] sends its pulses. *)
Definition overlapping_publication : list Sync.action :=
  [Sync.CommsReceive (datagram "10,20"); Sync.CommsLock;
   Sync.CommsStoreThrottle; Sync.CommsStoreRudder; Sync.CommsUnlock;
   Sync.MainLock; Sync.MainLoadThrottle;
   Sync.CommsReceive (datagram "30,40");
   Sync.MainLoadRudder; Sync.MainUnlock;
   Sync.CommsLock; Sync.CommsStoreThrottle].

(** The state it leads to: the global throttle is already 30, the global
    rudder still 20, and [main] holds the pair 10, 20. *)
Definition after_overlapping_publication : Sync.state :=
  {| Sync.mutex := Some Sync.Comms;
     Sync.g_throttle := Sync.Cell 30 2;
     Sync.g_rudder := Sync.Cell 20 1;
     Sync.comms_at := Sync.CStoreRudder (Demand 30 40);
     Sync.main_at := Sync.MCompute;
     Sync.tmpThrottle := Sync.Cell 10 1;
     Sync.tmpRudder := Sync.Cell 20 1;
     Sync.published := [zero_demand; Demand 10 20] |}.


(** ** The control loop in binary64

    The two expressions of the control loop on IEEE 754 binary64 numbers,
    one rounding after each operation (no fused multiply-add and no
    wider intermediate format are assumed), and the pass of the loop that
    sends their values to the servos.  Integer operands are converted to
    [double] as C does. *)

Module Binary64.
Import PrimFloat SpecFloat FloatOps.
Local Open Scope float_scope.

Definition of_int (z : Z) : float := of_uint63 (Uint63.of_Z z).

Definition RUDDER_CENTRE_PULSE_LENGTH_USEC : float :=
  of_int (RUDDER_MAX_PULSE_LENGTH_USEC - RUDDER_MIN_PULSE_LENGTH_USEC) / 2
  + of_int RUDDER_MIN_PULSE_LENGTH_USEC.

Definition throttle_usec (tmpThrottle : float) : float :=
  if (0 <=? tmpThrottle) && (tmpThrottle <=? 100)
  then tmpThrottle / 100 * of_int THROTTLE_RANGE_USEC
       + of_int THROTTLE_MIN_PULSE_LENGTH_USEC
  else of_int THROTTLE_MIN_PULSE_LENGTH_USEC.

Definition rudder_usec (tmpRudder : float) : float :=
  if (-100 <=? tmpRudder) && (tmpRudder <=? 100)
  then tmpRudder / 200 * of_int RUDDER_RANGE_USEC
       + RUDDER_CENTRE_PULSE_LENGTH_USEC
  else RUDDER_CENTRE_PULSE_LENGTH_USEC.

(** [int rc_servo_send_pulse_us(int ch, int us)] of the robot control
    library ([rc/servo.h], not part of the program text) takes the width
    of the pulse as an [int]: the [double] computed by the loop is
    converted at the call.  The conversion drops the fraction; it is
    defined for a finite value whose whole part fits an [int] (32 bits on
    the board), and undefined ([None]) otherwise. *)
Definition INT_MIN : Z := -2147483648.
Definition INT_MAX : Z := 2147483647.

(** The whole part of a finite number, towards zero. *)
Definition truncate (x : spec_float) : option Z :=
  match x with
  | S754_zero _ => Some 0%Z
  | S754_finite s m e =>
      Some (cond_Zopp s (if (e <? 0)%Z then (Z.pos m / 2 ^ (- e))%Z
                         else (Z.pos m * 2 ^ e)%Z))
  | _ => None
  end.

Definition to_int (x : float) : option Z :=
  match truncate (Prim2SF x) with
  | Some z => if ((INT_MIN <=? z) && (z <=? INT_MAX))%Z then Some z else None
  | None => None
  end.

(** The snapshot [tmpThrottle], [tmpRudder] of one pass. *)
Record demand : Type := Demand { throttle : float; rudder : float }.

(** What one pass prints and asks of the servo driver: [SendPulse ch us]
    is the call [rc_servo_send_pulse_us(ch, us)] with the [int] it
    receives. *)
Inductive event : Type :=
| Stdout (msg : string)
| SendPulse (ch us : Z)
| Usleep (us : Z).

Definition throttle_in_range (tmpThrottle : float) : bool :=
  (0 <=? tmpThrottle) && (tmpThrottle <=? 100).

Definition rudder_in_range (tmpRudder : float) : bool :=
  (-100 <=? tmpRudder) && (tmpRudder <=? 100).

(** The widths as the servo driver receives them. *)
Definition throttle_pulse (tmpThrottle : float) : option Z :=
  to_int (throttle_usec tmpThrottle).

Definition rudder_pulse (tmpRudder : float) : option Z :=
  to_int (rudder_usec tmpRudder).

(** One pass of [while (running)] in [main], from the snapshot to the
    sleep; [None] when a conversion to [int] is undefined. *)
Definition control_cycle (d : demand) : option (list event) :=
  let tmpThrottle := throttle d in
  let tmpRudder := rudder d in
  match throttle_pulse tmpThrottle, rudder_pulse tmpRudder with
  | Some t_us, Some r_us =>
      Some ((if throttle_in_range tmpThrottle then []
             else [Stdout "Throttle demand out of range"])
            ++ (if rudder_in_range tmpRudder then []
                else [Stdout "Rudder demand out of range"])
            ++ [SendPulse THROTTLE_SERVO t_us;
                SendPulse RUDDER_SERVO r_us;
                Usleep (1000000 / SERVO_PULSE_RATE_HZ)%Z])
  | _, _ => None
  end.

(** The control loop: one pass per snapshot it takes while [running]
    stays set. *)
Fixpoint control_loop (snapshots : list demand) : option (list event) :=
  match snapshots with
  | [] => Some []
  | d :: rest =>
      match control_cycle d, control_loop rest with
      | Some tr, Some tr' => Some (tr ++ tr')
      | _, _ => None
      end
  end.

(** The widths sent on a channel, in order. *)
Fixpoint pulses_on (ch : Z) (tr : list event) : list Z :=
  match tr with
  | [] => []
  | SendPulse c us :: tr' =>
      if Z.eqb c ch then us :: pulses_on ch tr' else pulses_on ch tr'
  | _ :: tr' => pulses_on ch tr'
  end.

(** A pulse event is within range when its width lies between the
    configured ends, which are the same on both channels; other events
    pass. *)
Definition pulse_within (ev : event) : Prop :=
  match ev with
  | SendPulse _ us =>
      (THROTTLE_MIN_PULSE_LENGTH_USEC <= us <= THROTTLE_MAX_PULSE_LENGTH_USEC)%Z
  | _ => True
  end.

End Binary64.

(** ** Binary64 numbers as whole numbers of units

    Every finite binary64 number is a whole multiple of [2^-1074], its
    value in units in the last place of the format.  In these units
    rounding to nearest, ties to even, is a function on fractions of
    integers, and the three roundings of each map of the control loop can
    be written out on integers. *)

Module Rounding.
Import SpecFloat FloatOps.

(** Round to nearest, ties to even, of the fraction [N/D] to an
    integer. *)
Definition rne (N D : Z) : Z :=
  match 2 * (N mod D) ?= D with
  | Lt => N / D
  | Eq => if Z.even (N / D) then N / D else N / D + 1
  | Gt => N / D + 1
  end.

(** The binary64 number nearest to [N/D] units, in units: 53 significant
    bits are kept, and all of them below [2^53] units (the subnormal
    numbers). *)
Definition Rnd (N D : Z) : Z :=
  let k := Z.max (Zdigits2 (N / D) - prec) 0 in
  rne N (D * 2 ^ k) * 2 ^ k.

(** The shift record of [SpecFloat] that stands for the fraction [N/D]:
    its whole part, whether the rest is at least one half, and whether
    anything is left beside that half. *)
Definition rec_of (N D : Z) : shr_record :=
  Build_shr_record (N / D) (D <=? 2 * (N mod D))
                   (negb (N mod D =? 0) && negb (2 * (N mod D) =? D)).

Definition finite_or_zero (x : spec_float) : Prop :=
  match x with
  | S754_zero _ | S754_finite _ _ _ => True
  | _ => False
  end.

Definition fin_nonneg (x : spec_float) : Prop :=
  match x with
  | S754_zero _ | S754_finite false _ _ => True
  | _ => False
  end.

(** The value of a finite number in units of [2^-1074]. *)
Definition ulps (x : spec_float) : Z :=
  match x with
  | S754_finite s m e => cond_Zopp s (Z.pos m * 2 ^ (e - emin))
  | _ => 0
  end.

(** The units of 1.0. *)
Definition whole : Z := 2 ^ 1074.

(** [tmpThrottle / 100.0 * THROTTLE_RANGE_USEC + THROTTLE_MIN_PULSE_LENGTH_USEC]
    in units, for a demand of [X] units in range. *)
Definition throttle_units (X : Z) : Z :=
  Rnd (Rnd (1200 * Rnd X 100) 1 + 900 * whole) 1.

(** [tmpRudder / 200.0 * RUDDER_RANGE_USEC] in units, for a demand of
    [X] units between 0 and 100. *)
Definition rudder_offset (X : Z) : Z := Rnd (1200 * Rnd X 200) 1.

(** [tmpRudder / 200.0 * RUDDER_RANGE_USEC + RUDDER_CENTRE_PULSE_LENGTH_USEC]
    in units, for a demand of [X] units in range. *)
Definition rudder_units (X : Z) : Z :=
  Rnd (Z.sgn X * rudder_offset (Z.abs X) + 1500 * whole) 1.

(** [tmpRudder / 200.0 * RUDDER_RANGE_USEC] on the specification's
    floats, with the two constants written as the valid floats they
    are. *)
Definition rudder_offset_SF (x : spec_float) : spec_float :=
  SFmul prec emax
    (SFdiv prec emax x (S754_finite false 7036874417766400 (-45)))
    (S754_finite false 5277655813324800 (-42)).

End Rounding.

(** ** The fields of a payload

    A reference reading of what the two [strtok] calls find: the string
    in the payload (up to its first NUL, if any) cut at the commas, with
    the empty pieces dropped. *)

Definition close_field (cur : list ascii) : list (list ascii) :=
  match cur with
  | [] => []
  | _ :: _ => [cur]
  end.

(** [cur] holds the bytes of the field being read. *)
Fixpoint fields_from (cur : list ascii) (s : list ascii)
  : list (list ascii) :=
  match s with
  | [] => close_field cur
  | c :: s' =>
      if Ascii.eqb c NUL then close_field cur
      else if Ascii.eqb c "," then close_field cur ++ fields_from [] s'
      else fields_from (cur ++ [c]) s'
  end.

Definition comma_fields (payload : list ascii) : list (list ascii) :=
  fields_from [] payload.

(** What the pass does with the fields: the first two go through
    [strtod]; with fewer than two, [strtod] gets a null pointer. *)
Definition demand_of_fields (fs : list (list ascii)) : result demand :=
  match fs with
  | tok1 :: tok2 :: _ => Ok (Demand (strtod_string tok1) (strtod_string tok2))
  | _ => Fault NullPointer
  end.

(** ** Start-up of [main] *)

(** The events that act on the servos or start the thread. *)
Definition actuates (ev : event) : bool :=
  match ev with
  | PowerRail _ | SendPulse _ _ | ThreadCreate => true
  | _ => false
  end.

(** The readings below 6.0 V that come before the first sufficient one. *)
Fixpoint low_readings (reads : list double) : nat :=
  match reads with
  | [] => 0
  | v :: rest => if Qle_bool 6 v then 0 else S (low_readings rest)
  end.

(** One round of the battery loop. *)
Definition battery_round : list event :=
  [Stdout "Battery disconnected or insufficiently charged to drive servos, waiting until connected...";
   Usleep 5000000].

(** ** More on the shared pair *)

(** Inside the critical sections: between lock and unlock. *)
Definition comms_in_section (s : Sync.state) : bool :=
  match Sync.comms_at s with
  | Sync.CStoreThrottle _ | Sync.CStoreRudder _ | Sync.CUnlock _ => true
  | Sync.CReceive | Sync.CLock _ => false
  end.

Definition main_in_section (s : Sync.state) : bool :=
  match Sync.main_at s with
  | Sync.MLoadThrottle | Sync.MLoadRudder | Sync.MUnlock => true
  | Sync.MLock | Sync.MCompute => false
  end.

(** Two cells hold the two halves of the newest publication. *)
Definition newest (ct cr : Sync.cell) (pubs : list demand) : Prop :=
  S (Sync.writer ct) = length pubs /\ Sync.consistent ct cr pubs.

(** While [commsThread] is not between its two stores the globals hold
    the newest publication, and inside its critical section [main] holds
    what it has loaded from the globals as they are. *)
Definition fresh (s : Sync.state) : Prop :=
  match Sync.comms_at s with
  | Sync.CReceive | Sync.CLock _ | Sync.CStoreThrottle _ =>
      newest (Sync.g_throttle s) (Sync.g_rudder s) (Sync.published s)
  | Sync.CStoreRudder _ | Sync.CUnlock _ => True
  end
  /\ match Sync.main_at s with
     | Sync.MLoadRudder => Sync.tmpThrottle s = Sync.g_throttle s
     | Sync.MUnlock =>
         Sync.tmpThrottle s = Sync.g_throttle s
         /\ Sync.tmpRudder s = Sync.g_rudder s
     | _ => True
     end.

(** An interleaving in which [main] locks after the second publication
    and has loaded both globals, and the state it leads to. *)
Definition late_lock : list Sync.action :=
  [Sync.CommsReceive (datagram "10,20"); Sync.CommsLock;
   Sync.CommsStoreThrottle; Sync.CommsStoreRudder; Sync.CommsUnlock;
   Sync.CommsReceive (datagram "30,40"); Sync.CommsLock;
   Sync.CommsStoreThrottle; Sync.CommsStoreRudder; Sync.CommsUnlock;
   Sync.MainLock; Sync.MainLoadThrottle; Sync.MainLoadRudder].

Definition after_late_lock : Sync.state :=
  {| Sync.mutex := Some Sync.Main;
     Sync.g_throttle := Sync.Cell 30 2;
     Sync.g_rudder := Sync.Cell 40 2;
     Sync.comms_at := Sync.CReceive;
     Sync.main_at := Sync.MUnlock;
     Sync.tmpThrottle := Sync.Cell 30 2;
     Sync.tmpRudder := Sync.Cell 40 2;
     Sync.published := [zero_demand; Demand 10 20; Demand 30 40] |}.

(** ** The [running] flag

    [static int running]: set by [main] before anything else, cleared by
    the handler of SIGINT, and read by each loop at the top of every pass
    and nowhere else.  A loop that found the flag set is inside its pass,
    [commsThread] blocked in [recvfrom] and [main] about to take its
    snapshot, and finishes that pass whatever becomes of the flag
    meanwhile. *)

Definition __signal_handler (running : bool) : bool := false.

Inductive loop : Type := CommsLoop | MainLoop.

Definition loop_of (t : turn) : loop :=
  match t with
  | CommsTurn _ => CommsLoop
  | MainTurn => MainLoop
  end.

(** Where a loop is: about to test [running], inside a pass, or past its
    [while]. *)
Inductive place : Type := AtTop | InPass | Left.

(** What happens while the loops are live: a loop evaluates
    [while (running)]; a loop finishes the pass it is in ([recvfrom]
    returns and the pair is parsed and published; [main] takes its
    snapshot, sends the two pulses and sleeps); a SIGINT is delivered. *)
Inductive occurrence : Type :=
| Test (l : loop)
| Pass (t : turn)
| SigInt.

Definition test (running : bool) (p : place) : place :=
  match p with
  | AtTop => if running then InPass else Left
  | _ => p
  end.

(** The two loops under the flag.  An occurrence that does not fit the
    place of its loop (a pass of a loop that is not inside one, a test by
    a loop that is not at the top) does nothing. *)
Fixpoint run_flagged (occs : list occurrence) (running : bool)
                     (comms main_ : place) (shared : demand)
  : list event * result demand :=
  match occs with
  | [] => ([], Ok shared)
  | SigInt :: rest =>
      run_flagged rest (__signal_handler running) comms main_ shared
  | Test CommsLoop :: rest =>
      run_flagged rest running (test running comms) main_ shared
  | Test MainLoop :: rest =>
      run_flagged rest running comms (test running main_) shared
  | Pass MainTurn :: rest =>
      match main_ with
      | InPass =>
          let (tr, r) := run_flagged rest running comms AtTop shared in
          (control_cycle shared ++ tr, r)
      | _ => run_flagged rest running comms main_ shared
      end
  | Pass (CommsTurn r) :: rest =>
      match comms with
      | InPass =>
          match commsThread_iteration r with
          | Ok published => run_flagged rest running AtTop main_ published
          | Fault f => ([], Fault f)
          end
      | _ => run_flagged rest running comms main_ shared
      end
  end.

(** Each turn of a schedule as a test of the flag followed by the
    pass. *)
Definition rounds (sched : list turn) : list occurrence :=
  flat_map (fun t => [Test (loop_of t); Pass t]) sched.

Definition in_pass (p : place) : nat :=
  match p with
  | InPass => 1
  | _ => 0
  end.

Definition turns_of (l : loop) (sched : list turn) : list turn :=
  filter (fun t => match loop_of t, l with
                   | CommsLoop, CommsLoop | MainLoop, MainLoop => true
                   | _, _ => false
                   end) sched.

(** ** The earlier, single-threaded version of the program

    [main] of the earlier version does everything in one thread: the
    socket is set up in [main] itself, the loop receives and parses, and
    the servo outputs are still to be written ([zero_output] only prints
    and sleeps, the power rail is not switched on). *)

Module Earlier.

Inductive event : Type :=
| Stdout (msg : string)
| Stderr (msg : string)
| Printed (label : string) (v : double)   (* printf("...: %f\n", v) *)
| AdcCleanup
| Usleep (us : Z)
| PowerRail (en : Z)
| ServoCleanup
| SocketClose.

Record env : Type := Env {
  adc_init_rc : Z;
  batt : double;               (* the one value of rc_adc_batt() *)
  servo_init_rc : Z;
  socket_rc : Z;
  sockopt_reuse_rc : Z;
  sockopt_timeo_rc : Z;
  bind_rc : Z;
  receptions : list recv_result   (* one per pass, until the interrupt *)
}.

Definition zero_output : list event :=
  [Stdout "zero output"; Usleep 2000000].

(** The parse of one pass: nothing on a timeout, otherwise the pair that
    is printed. *)
Definition parse (r : recv_result) : result (option demand) :=
  let buffer := buffer_init in
  let '(nbytes, buffer) := recvfrom r buffer (length buffer) in
  if (nbytes <? 0)%Z then Ok None
  else
    buffer <- store buffer nbytes NUL ;;
    let delim := [","%char] in
    let '(ptr, olds) := strtok buffer delim in
    throttle <- strtod ptr ;;
    let '(ptr, olds) := strtok olds delim in
    rudder <- strtod ptr ;;
    Ok (Some (Demand throttle rudder)).

(** What one pass prints after ["Waiting for packet..."]. *)
Definition report (parsed : option demand) : list event :=
  match parsed with
  | None => Stdout "No bytes received" :: zero_output
  | Some d => [Printed "Throttle" (throttle d); Printed "Rudder" (rudder d)]
  end.

Fixpoint run_loop (rs : list recv_result) : list event * option fault :=
  match rs with
  | [] => ([], None)
  | r :: rs' =>
      match parse r with
      | Ok parsed =>
          let (tr, f) := run_loop rs' in
          (Stdout "Waiting for packet..." :: report parsed ++ tr, f)
      | Fault f => ([Stdout "Waiting for packet..."], Some f)
      end
  end.

(** The socket set-up inside [main]: the diagnostic of the first call that
    fails, if any. *)
Definition socket_setup (e : env) : option string :=
  if (socket_rc e <? 0)%Z then Some "create socket failed"%string
  else if (sockopt_reuse_rc e <? 0)%Z
  then Some "configure socket failed 1"%string
  else if (sockopt_timeo_rc e <? 0)%Z
  then Some "configure socket failed 2"%string
  else if (bind_rc e <? 0)%Z then Some "bind socket failed"%string
  else None.

Definition main (e : env) : list event * ending :=
  if negb (adc_init_rc e =? 0)%Z
  then ([Stderr "ERROR: failed to run rc_adc_init()"], Exited (-1))
  else
    let battery :=
      if Qle_bool 6 (batt e) then []
      else [Stderr "ERROR: battery disconnected or insufficiently charged to drive servos"] in
    if negb (servo_init_rc e =? 0)%Z
    then (battery ++ [AdcCleanup], Exited (-1))
    else
      let started :=
        battery ++ [AdcCleanup; Stdout "Turning On 6V Servo Power Rail"]
        ++ zero_output in
      match socket_setup e with
      | Some msg => (started ++ [Stderr msg], Exited (-1))
      | None =>
          match run_loop (receptions e) with
          | (tr, None) =>
              (started ++ tr
                 ++ [Usleep 50000; PowerRail 0; ServoCleanup; SocketClose],
               Exited 0)
          | (tr, Some f) => (started ++ tr, Killed f)
          end
      end.

End Earlier.

(** The event of [close(udpsocket)]. *)
Definition closes_socket (ev : event) : bool :=
  match ev with
  | SocketClose => true
  | _ => false
  end.

(** * Properties *)

Local Open Scope Q_scope.

(** ** The receive buffer *)

Lemma buffer_init_length : length buffer_init = BUFFER_SIZE.
Proof. apply repeat_length. Qed.

(** A datagram shorter than the buffer is copied whole, and the
    terminator lands right after it. *)
Lemma recvfrom_short (payload : list ascii) :
  (length payload < BUFFER_SIZE)%nat ->
  recvfrom (RecvDatagram payload) buffer_init (length buffer_init)
  = (Z.of_nat (length payload),
     payload ++ skipn (length payload) buffer_init).
Proof.
  intros Hlen. unfold recvfrom. rewrite buffer_init_length.
  rewrite firstn_all2 by lia. reflexivity.
Qed.

Lemma store_after_payload (payload : list ascii) :
  (length payload < BUFFER_SIZE)%nat ->
  exists rest,
    store (payload ++ skipn (length payload) buffer_init)
          (Z.of_nat (length payload)) NUL
    = Ok (payload ++ NUL :: rest).
Proof.
  intros Hlen. unfold store.
  rewrite length_app, length_skipn, buffer_init_length.
  replace (_ && _)%bool with true
    by (symmetry; apply andb_true_iff; split;
        [apply Z.leb_le | apply Z.ltb_lt]; lia).
  rewrite Nat2Z.id.
  exists (skipn 1 (skipn (length payload) buffer_init)).
  f_equal.
  rewrite firstn_app, firstn_all, Nat.sub_diag, firstn_O, app_nil_r.
  rewrite skipn_app, skipn_all2 by lia.
  replace (S (length payload) - length payload)%nat with 1%nat by lia.
  reflexivity.
Qed.

(** A datagram that fills the buffer puts the terminator one past its
    end. *)
Lemma store_after_full_payload (payload : list ascii) :
  (BUFFER_SIZE <= length payload)%nat ->
  commsThread_iteration (RecvDatagram payload)
  = Fault (OutOfBounds (Z.of_nat BUFFER_SIZE) BUFFER_SIZE).
Proof.
  intros Hlen. unfold commsThread_iteration, recvfrom.
  rewrite buffer_init_length.
  assert (Hgot : length (firstn BUFFER_SIZE payload) = BUFFER_SIZE)
    by (rewrite length_firstn; lia).
  rewrite Hgot.
  rewrite skipn_all2 by (rewrite buffer_init_length; lia).
  rewrite app_nil_r.
  change (0 <? Z.of_nat BUFFER_SIZE)%Z with true. cbv iota.
  unfold store. rewrite Hgot, Z.ltb_irrefl, andb_false_r.
  reflexivity.
Qed.

(** ** [strtok] on fields *)

Lemma field_char_not_delim (c : ascii) :
  field_char c = true -> is_delim [","%char] c = false.
Proof.
  unfold field_char, is_delim. simpl.
  destruct (Ascii.eqb c ","); [discriminate | reflexivity].
Qed.

Lemma field_char_not_nul (c : ascii) :
  field_char c = true -> Ascii.eqb c NUL = false.
Proof.
  unfold field_char.
  destruct (Ascii.eqb c NUL); [rewrite andb_false_r; discriminate | reflexivity].
Qed.

Lemma not_field_char (c : ascii) :
  field_char c = false -> Ascii.eqb c NUL = true \/ is_delim [","%char] c = true.
Proof.
  unfold field_char, is_delim. simpl.
  destruct (Ascii.eqb c ","), (Ascii.eqb c NUL); simpl; auto; discriminate.
Qed.

Lemma scan_token_app (tok mem : list ascii) :
  forallb field_char tok = true ->
  scan_token [","%char] (tok ++ mem)
  = (tok ++ fst (scan_token [","%char] mem),
     snd (scan_token [","%char] mem)).
Proof.
  intros Htok. induction tok as [|c tok IH].
  - cbn [app]. destruct (scan_token _ mem); reflexivity.
  - cbn [forallb] in Htok. apply andb_true_iff in Htok as [Hc Htok].
    cbn [app scan_token].
    rewrite (field_char_not_nul c Hc), (field_char_not_delim c Hc).
    rewrite (IH Htok). reflexivity.
Qed.

(** The first call: a field at the start of the buffer, ended by a comma
    or by the terminator. *)
Lemma strtok_field (tok mem : list ascii) :
  is_field tok = true ->
  strtok (tok ++ ","%char :: mem) [","%char] = (Some tok, mem)
  /\ strtok (tok ++ NUL :: mem) [","%char] = (Some tok, NUL :: mem).
Proof.
  intros Hfield.
  destruct tok as [|c tok]; [discriminate|].
  cbn [is_field] in Hfield.
  assert (Hc : field_char c = true)
    by (cbn [forallb] in Hfield; apply andb_true_iff in Hfield; tauto).
  unfold strtok.
  cbn [app skip_delims cstring].
  rewrite (field_char_not_delim c Hc).
  cbn [cstring].
  rewrite (field_char_not_nul c Hc).
  change (c :: tok ++ ","%char :: mem) with ((c :: tok) ++ ","%char :: mem).
  change (c :: tok ++ NUL :: mem) with ((c :: tok) ++ NUL :: mem).
  rewrite !(scan_token_app (c :: tok)) by exact Hfield.
  cbn. rewrite !app_nil_r. split; reflexivity.
Qed.

(** The pass on a datagram that is shorter than the buffer and holds two
    fields: each field goes through [strtod] on its own, and what follows
    the second field is never looked at. *)
Lemma commsThread_iteration_two_fields (tok1 tok2 extra : list ascii) :
  is_field tok1 = true ->
  is_field tok2 = true ->
  ends_field extra = true ->
  (length (two_fields tok1 tok2 extra) < BUFFER_SIZE)%nat ->
  commsThread_iteration (RecvDatagram (two_fields tok1 tok2 extra))
  = Ok (Demand (strtod_string tok1) (strtod_string tok2)).
Proof.
  intros H1 H2 Hextra Hlen.
  unfold commsThread_iteration.
  rewrite (recvfrom_short _ Hlen).
  destruct (store_after_payload _ Hlen) as [rest Hstore].
  assert (Hpos : (0 <? Z.of_nat (length (two_fields tok1 tok2 extra)))%Z = true).
  { apply Z.ltb_lt. unfold two_fields. rewrite length_app. cbn [length]. lia. }
  rewrite Hpos, Hstore. cbn [bind].
  unfold two_fields. rewrite <- app_assoc. cbn [app]. rewrite <- app_assoc.
  rewrite (proj1 (strtok_field tok1 _ H1)). cbn [strtod bind].
  destruct extra as [|c extra].
  - cbn [app]. rewrite (proj2 (strtok_field tok2 _ H2)). reflexivity.
  - cbn [ends_field] in Hextra. apply negb_true_iff in Hextra.
    cbn [app].
    destruct (not_field_char c Hextra) as [Hnul | Hcomma].
    + apply Ascii.eqb_eq in Hnul. subst c.
      rewrite (proj2 (strtok_field tok2 _ H2)). reflexivity.
    + unfold is_delim in Hcomma. cbn [existsb] in Hcomma.
      rewrite orb_false_r in Hcomma. apply Ascii.eqb_eq in Hcomma. subst c.
      rewrite (proj1 (strtok_field tok2 _ H2)). reflexivity.
Qed.

Example two_fields_75_20 :
  commsThread_iteration (datagram "75,-20") = Ok (Demand 75 (-20)).
Proof. reflexivity. Qed.

(** ** [strtod] on a field without a number *)

Lemma unparsable_is_zero (tok : list ascii) :
  unparsable tok = true -> strtod_string tok = 0.
Proof.
  unfold unparsable, strtod_string.
  destruct (read_sign (skip_space tok)) as [neg s]. cbn [snd].
  destruct s as [|c s]; [reflexivity|].
  intros H. apply negb_true_iff in H. cbn [starts_number] in H.
  apply orb_false_iff in H as [H _].
  apply orb_false_iff in H as [H _].
  apply orb_false_iff in H as [Hdigit Hpoint].
  cbn [read_digits]. rewrite Hdigit. cbn [read_fraction].
  destruct (Ascii.eqb c ".") eqn:Hc; [|reflexivity].
  cbn [andb] in Hpoint.
  destruct s as [|c' s]; [reflexivity|].
  cbn [read_digits]. rewrite Hpoint. reflexivity.
Qed.

(** ** C1 *)

(** C1, counterexample.  The datagram [50,abc] has a second field that is
    not a number, yet the pair published for it is not the zero demand:
    the throttle keeps its 50. *)
Lemma bad_second_field_keeps_throttle :
  unparsable (list_ascii_of_string "abc") = true
  /\ commsThread_iteration (datagram "50,abc") = Ok (Demand 50 0)
  /\ ~ demand_eq (Demand 50 0) zero_demand.
Proof.
  split; [reflexivity|]. split; [reflexivity|].
  intros [H _]. cbn in H. discriminate H.
Qed.

(** The datagram [50] has no second field: the second [strtok] returns a
    null pointer and [strtod] is called on it. *)
Example missing_second_field_faults :
  commsThread_iteration (datagram "50") = Fault NullPointer.
Proof. reflexivity. Qed.

(** C1, as amended.  On a zero-length datagram the pass publishes the
    zero demand.  On a datagram shorter than the buffer that holds two
    fields the pass publishes, on each axis, what [strtod] makes of that
    axis's own field: a field without a number gives 0.0 on its axis and
    leaves the other axis with the value of the other field.  In both
    cases the loop goes on to the next receive with that pair in the
    globals. *)
Theorem comms_unparsable_field_is_zero :
  (commsThread_iteration (RecvDatagram []) = Ok zero_demand
   /\ forall rs shared,
        commsThread_loop (RecvDatagram [] :: rs) shared
        = commsThread_loop rs zero_demand)
  /\ forall tok1 tok2 extra : list ascii,
       is_field tok1 = true ->
       is_field tok2 = true ->
       ends_field extra = true ->
       (length (two_fields tok1 tok2 extra) < BUFFER_SIZE)%nat ->
       commsThread_iteration (RecvDatagram (two_fields tok1 tok2 extra))
       = Ok (Demand (strtod_string tok1) (strtod_string tok2))
       /\ (unparsable tok1 = true ->
           commsThread_iteration (RecvDatagram (two_fields tok1 tok2 extra))
           = Ok (Demand 0 (strtod_string tok2)))
       /\ (unparsable tok2 = true ->
           commsThread_iteration (RecvDatagram (two_fields tok1 tok2 extra))
           = Ok (Demand (strtod_string tok1) 0))
       /\ forall rs shared,
            commsThread_loop (RecvDatagram (two_fields tok1 tok2 extra) :: rs)
                             shared
            = commsThread_loop rs (Demand (strtod_string tok1)
                                          (strtod_string tok2)).
Proof.
  split; [split; [reflexivity | intros; reflexivity]|].
  intros tok1 tok2 extra H1 H2 Hextra Hlen.
  pose proof (commsThread_iteration_two_fields tok1 tok2 extra
                H1 H2 Hextra Hlen) as Hiter.
  split; [exact Hiter|].
  split; [intros Hu; rewrite Hiter, (unparsable_is_zero tok1 Hu); reflexivity|].
  split; [intros Hu; rewrite Hiter, (unparsable_is_zero tok2 Hu); reflexivity|].
  intros rs shared. cbn [commsThread_loop]. rewrite Hiter. reflexivity.
Qed.

(** The amended C1 at [50,north]: the second field holds no number, the
    rudder is 0.0 and the throttle keeps its 50. *)
Lemma comms_unparsable_field_is_zero_witness :
  unparsable (list_ascii_of_string "north") = true
  /\ commsThread_iteration (datagram "50,north") = Ok (Demand 50 0).
Proof.
  split; [reflexivity|].
  destruct comms_unparsable_field_is_zero as [_ H].
  destruct (H (list_ascii_of_string "50") (list_ascii_of_string "north") [])
    as [_ [_ [Hr _]]].
  - reflexivity.
  - reflexivity.
  - reflexivity.
  - apply Nat.ltb_lt. reflexivity.
  - apply Hr. reflexivity.
Defined.

(** Both fields without a number: the zero demand. *)
Example two_bad_fields_publish_zero :
  unparsable (list_ascii_of_string "abc") = true
  /\ unparsable (list_ascii_of_string ".x") = true
  /\ commsThread_iteration (datagram "abc,.x") = Ok zero_demand.
Proof. repeat split. Qed.

(** ** C9 *)

(** C9, counterexample.  The 22 bytes [75,0000000000000000020] read as the
    numbers 75 and 20, but the pass on them publishes nothing: [recvfrom]
    keeps the first 20 bytes and the terminator is stored at index 20 of
    the 20-byte buffer. *)
Lemma long_payload_not_published :
  strtod_string (list_ascii_of_string "75") == 75
  /\ strtod_string (list_ascii_of_string "0000000000000000020") == 20
  /\ String.length "75,0000000000000000020" = 22%nat
  /\ commsThread_iteration (datagram "75,0000000000000000020")
     = Fault (OutOfBounds 20 20)
  /\ forall d : demand,
       commsThread_iteration (datagram "75,0000000000000000020") <> Ok d.
Proof.
  split; [reflexivity|]. split; [reflexivity|]. split; [reflexivity|].
  split; [reflexivity|]. intros d H. discriminate H.
Qed.

(** C9, as amended.  On a datagram of at most 19 bytes that holds two
    fields, the pass publishes exactly what [strtod] makes of the first
    field and of the second, whatever their size or sign, and the bytes
    after the second field have no effect on the pair. *)
Theorem comms_publishes_parsed_pair (tok1 tok2 extra : list ascii) :
  is_field tok1 = true ->
  is_field tok2 = true ->
  ends_field extra = true ->
  (length (two_fields tok1 tok2 extra) <= 19)%nat ->
  commsThread_iteration (RecvDatagram (two_fields tok1 tok2 extra))
  = Ok (Demand (strtod_string tok1) (strtod_string tok2))
  /\ commsThread_iteration (RecvDatagram (two_fields tok1 tok2 extra))
     = commsThread_iteration (RecvDatagram (two_fields tok1 tok2 [])).
Proof.
  intros H1 H2 Hextra Hlen.
  assert (Hlen' : (length (two_fields tok1 tok2 extra) < BUFFER_SIZE)%nat)
    by (unfold BUFFER_SIZE; lia).
  assert (Hlen0 : (length (two_fields tok1 tok2 []) < BUFFER_SIZE)%nat).
  { revert Hlen'. unfold two_fields.
    rewrite !length_app. cbn [length]. rewrite !length_app. cbn [length]. lia. }
  rewrite (commsThread_iteration_two_fields tok1 tok2 extra H1 H2 Hextra Hlen').
  rewrite (commsThread_iteration_two_fields tok1 tok2 [] H1 H2 eq_refl Hlen0).
  split; reflexivity.
Qed.

(** The amended C9 at [150,-300,7]: both values are out of range and are
    published as they are; the third field is ignored. *)
Lemma comms_publishes_parsed_pair_witness :
  commsThread_iteration (datagram "150,-300,7") = Ok (Demand 150 (-300))
  /\ commsThread_iteration (datagram "150,-300,7")
     = commsThread_iteration (datagram "150,-300").
Proof.
  apply (comms_publishes_parsed_pair
           (list_ascii_of_string "150") (list_ascii_of_string "-300")
           (list_ascii_of_string ",7")).
  - reflexivity.
  - reflexivity.
  - reflexivity.
  - apply Nat.leb_le. reflexivity.
Defined.

(** ** C2 *)

Lemma run_threads_silent (sched : list turn) :
  silent sched = true ->
  run_threads true sched zero_demand
  = (control_loop (repeat zero_demand (main_turns sched)), Ok zero_demand).
Proof.
  induction sched as [|t sched IH]; intros Hs; [reflexivity|].
  cbn [silent forallb] in Hs. apply andb_true_iff in Hs as [Ht Hs].
  specialize (IH Hs).
  destruct t as [[|payload]|]; try discriminate Ht.
  - cbn [run_threads main_turns]. exact IH.
  - cbn [run_threads main_turns repeat]. rewrite IH. reflexivity.
Qed.

(** C2.  A pass in which [recvfrom] times out publishes the zero demand;
    so does every further such pass, so that after one or more timeouts
    in a row the globals hold the zero demand; while nothing arrives every
    pass of the control loop works on the zero demand; and the receive
    timeout asked for at set-up is [COMMS_TIMEOUT_SEC], 5 seconds. *)
Theorem comms_timeout_publishes_zero :
  commsThread_iteration RecvNone = Ok zero_demand
  /\ (forall (n : nat) (shared : demand),
        commsThread_loop (repeat RecvNone (S n)) shared = Ok zero_demand)
  /\ (forall (sched : list turn) (shared : demand),
        silent sched = true ->
        run_threads true (CommsTurn RecvNone :: sched) shared
        = (control_loop (repeat zero_demand (main_turns sched)),
           Ok zero_demand))
  /\ (forall e : env,
        fst (commsThread_setup e) = true ->
        In (SetReceiveTimeout 5 0) (snd (commsThread_setup e))).
Proof.
  split; [reflexivity|]. split; [|split].
  - intros n. induction n as [|n IH]; intros shared; [reflexivity|].
    change (repeat RecvNone (S (S n))) with (RecvNone :: repeat RecvNone (S n)).
    cbn [commsThread_loop]. change (commsThread_iteration RecvNone)
      with (Ok zero_demand). cbn [bind]. apply IH.
  - intros sched shared Hs. cbn [run_threads].
    change (commsThread_iteration RecvNone) with (Ok zero_demand).
    cbv iota. apply run_threads_silent; exact Hs.
  - intros e. unfold commsThread_setup.
    destruct (socket_rc e <? 0)%Z; [discriminate|].
    destruct (sockopt_reuse_rc e <? 0)%Z; [discriminate|].
    destruct (sockopt_timeo_rc e <? 0)%Z; [discriminate|].
    destruct (bind_rc e <? 0)%Z; [discriminate|].
    intros _. left. reflexivity.
Qed.

(** C2 at a schedule with three timeouts and two passes of the control
    loop after a demand of full throttle: both passes work on the zero
    demand. *)
Lemma comms_timeout_publishes_zero_witness :
  run_threads true
    [CommsTurn RecvNone; MainTurn; CommsTurn RecvNone; CommsTurn RecvNone;
     MainTurn]
    (Demand 100 100)
  = (control_cycle zero_demand ++ control_cycle zero_demand, Ok zero_demand).
Proof.
  destruct comms_timeout_publishes_zero as [_ [_ [H _]]].
  apply (H [MainTurn; CommsTurn RecvNone; CommsTurn RecvNone; MainTurn]).
  reflexivity.
Defined.

(** The scenario of a demand of zero, one of full throttle and full
    rudder, then silence: the pulses go from (min, centre) to
    (max, centre plus half the range) and back to (min, centre). *)
Example zero_full_silence :
  let tr := fst (run_threads true
                   [CommsTurn (datagram "0,0"); MainTurn;
                    CommsTurn (datagram "100,100"); MainTurn;
                    CommsTurn RecvNone; MainTurn] zero_demand) in
  Forall2 Qeq (pulses_on THROTTLE_SERVO tr) [900; 2100; 900]
  /\ Forall2 Qeq (pulses_on RUDDER_SERVO tr) [1500; 2100; 1500].
Proof.
  cbv zeta. split; repeat constructor.
Qed.

(** ** C3 *)

Lemma run_threads_not_listening (sched : list turn) :
  forall shared : demand,
    run_threads false sched shared
    = (control_loop (repeat shared (main_turns sched)), Ok shared).
Proof.
  induction sched as [|[r|] sched IH]; intros shared.
  - reflexivity.
  - cbn [run_threads main_turns]. apply IH.
  - cbn [run_threads main_turns repeat]. rewrite IH. reflexivity.
Qed.

Lemma commsThread_setup_failure_diagnostic (e : env) :
  fst (commsThread_setup e) = false ->
  exists msg : string, In (Stderr msg) (snd (commsThread_setup e)).
Proof.
  unfold commsThread_setup.
  destruct (socket_rc e <? 0)%Z;
    [intros _; eexists; left; reflexivity|].
  destruct (sockopt_reuse_rc e <? 0)%Z;
    [intros _; eexists; left; reflexivity|].
  destruct (sockopt_timeo_rc e <? 0)%Z;
    [intros _; eexists; right; left; reflexivity|].
  destruct (bind_rc e <? 0)%Z;
    [intros _; eexists; right; right; left; reflexivity | discriminate].
Qed.

(** C3, what the program does instead.  When the start-up of [main]
    succeeds and [commsThread] takes one of its four early returns (for
    [socket], either [setsockopt], or [bind]), a diagnostic is printed, but
    [main] runs every pass of its control loop on the initial zero demand,
    shuts down in the usual way and returns 0. *)
Theorem setup_failure_exits_zero (e : env) :
  adc_init_rc e = 0%Z ->
  snd (wait_battery (batt_reads e)) = true ->
  servo_init_rc e = 0%Z ->
  fst (commsThread_setup e) = false ->
  exists (started : list event) (msg : string),
    main e
    = (started
         ++ control_loop (repeat zero_demand (main_turns (schedule e)))
         ++ shut_down,
       Exited 0)
    /\ In (Stderr msg) started.
Proof.
  intros Hadc Hbatt Hservo Hsetup. unfold main.
  rewrite Hadc, Hservo. cbn [Z.eqb negb].
  destruct (wait_battery (batt_reads e)) as [waits charged].
  cbn [snd] in Hbatt. subst charged. cbn [negb].
  destruct (commsThread_setup_failure_diagnostic e Hsetup) as [msg Hmsg].
  destruct (commsThread_setup e) as [listening setup].
  cbn [fst] in Hsetup. cbn [snd] in Hmsg. subst listening.
  rewrite run_threads_not_listening.
  exists (waits ++ [AdcCleanup] ++ power_up ++ setup), msg.
  split; [rewrite app_nil_l; reflexivity|].
  apply in_or_app. right. apply in_or_app. right.
  apply in_or_app. right. exact Hmsg.
Qed.

(** C3 at [env_bind_fails]. *)
Lemma setup_failure_exits_zero_witness :
  exists (started : list event) (msg : string),
    main env_bind_fails
    = (started ++ control_loop [zero_demand; zero_demand] ++ shut_down,
       Exited 0)
    /\ In (Stderr msg) started.
Proof.
  apply (setup_failure_exits_zero env_bind_fails); reflexivity.
Defined.

(** The whole run at [env_bind_fails]. *)
Example bind_failure_run :
  main env_bind_fails
  = ([AdcCleanup] ++ power_up
       ++ [SetReceiveTimeout 5 0; Bind 2031; Stderr "bind socket failed"]
       ++ control_cycle zero_demand ++ control_cycle zero_demand
       ++ shut_down,
     Exited 0).
Proof. reflexivity. Qed.

(** ** C4 *)

(** What [recvfrom] returns is never above the size of the buffer. *)
Lemma recvfrom_count_bounds (r : recv_result) :
  (-1 <= fst (recvfrom r buffer_init (length buffer_init))
   <= Z.of_nat BUFFER_SIZE)%Z.
Proof.
  destruct r as [|payload]; cbn [recvfrom fst].
  - unfold BUFFER_SIZE. lia.
  - rewrite length_firstn, buffer_init_length. lia.
Qed.

(** C4, what the program does instead.  On every datagram of 20 bytes or
    more [recvfrom] returns 20 and leaves a buffer of 20 bytes, and the
    store of the terminator at index 20 is outside it. *)
Theorem full_buffer_store_out_of_bounds (payload : list ascii) :
  (BUFFER_SIZE <= length payload)%nat ->
  let received :=
    recvfrom (RecvDatagram payload) buffer_init (length buffer_init) in
  fst received = 20%Z
  /\ length (snd received) = 20%nat
  /\ store (snd received) (fst received) NUL = Fault (OutOfBounds 20 20)
  /\ commsThread_iteration (RecvDatagram payload)
     = Fault (OutOfBounds 20 20).
Proof.
  intros Hlen received.
  assert (Hgot : length (firstn BUFFER_SIZE payload) = BUFFER_SIZE)
    by (rewrite length_firstn; lia).
  assert (Hrecv : received = (20%Z, firstn BUFFER_SIZE payload)).
  { unfold received, recvfrom. rewrite buffer_init_length, Hgot.
    rewrite skipn_all2 by (rewrite buffer_init_length; lia).
    rewrite app_nil_r. reflexivity. }
  rewrite Hrecv. cbn [fst snd].
  split; [reflexivity|]. split; [exact Hgot|].
  split; [unfold store; rewrite Hgot; reflexivity|].
  exact (store_after_full_payload payload Hlen).
Qed.

(** C4 at a datagram of exactly 20 bytes. *)
Lemma full_buffer_store_out_of_bounds_witness :
  fst (recvfrom (datagram "1234567890,123456789") buffer_init 20) = 20%Z
  /\ commsThread_iteration (datagram "1234567890,123456789")
     = Fault (OutOfBounds 20 20).
Proof.
  destruct (full_buffer_store_out_of_bounds
              (list_ascii_of_string "1234567890,123456789"))
    as [Hn [_ [_ Hiter]]].
  - apply Nat.leb_le. reflexivity.
  - split; [exact Hn | exact Hiter].
Defined.

(** ** Pulses of a pass *)


Lemma control_cycle_pulses (d : demand) :
  pulses_on THROTTLE_SERVO (control_cycle d) = [throttle_usec (throttle d)]
  /\ pulses_on RUDDER_SERVO (control_cycle d) = [rudder_usec (rudder d)].
Proof.
  unfold control_cycle.
  destruct (throttle_in_range (throttle d)), (rudder_in_range (rudder d));
    split; reflexivity.
Qed.

Lemma pulses_on_app (ch : Z) (tr1 tr2 : list event) :
  pulses_on ch (tr1 ++ tr2) = pulses_on ch tr1 ++ pulses_on ch tr2.
Proof.
  induction tr1 as [|ev tr1 IH]; [reflexivity|].
  destruct ev; cbn [app pulses_on]; try exact IH.
  destruct (Z.eqb ch0 ch); cbn [app]; rewrite IH; reflexivity.
Qed.

(** ** Rounding in binary64

    [SpecFloat] gives every operation of binary64 as an algorithm on
    mantissas and exponents.  Here each of them is shown to compute the
    correctly rounded value of the exact result, in units of the last
    place of the format; the order of floats is the order of their
    units, and rounding is monotone.  The two maps of the control loop
    follow. *)

Section Binary64Maps.
Import PrimFloat SpecFloat FloatOps FloatAxioms Rounding.
Local Open Scope Z_scope.

Lemma rne_floor (N D : Z) : 0 < D -> N / D <= rne N D <= N / D + 1.
Proof.
  intros HD. unfold rne.
  destruct (2 * (N mod D) ?= D); [destruct (Z.even (N / D))| |]; lia.
Qed.

Lemma rne_scale (N D c : Z) : 0 < D -> 0 < c -> rne (N * c) (D * c) = rne N D.
Proof.
  intros HD Hc. unfold rne.
  rewrite Z.div_mul_cancel_r by lia.
  rewrite Z.mul_mod_distr_r by lia.
  replace (2 * (N mod D * c)) with (2 * (N mod D) * c) by ring.
  destruct (Z.compare_spec (2 * (N mod D) * c) (D * c));
    destruct (Z.compare_spec (2 * (N mod D)) D); try reflexivity; nia.
Qed.

Lemma rne_mono_same (N1 N2 D : Z) :
  0 < D -> N1 <= N2 -> rne N1 D <= rne N2 D.
Proof.
  intros HD HN.
  pose proof (Z.div_le_mono N1 N2 D HD HN) as Hq.
  pose proof (Z.div_mod N1 D ltac:(lia)) as E1.
  pose proof (Z.div_mod N2 D ltac:(lia)) as E2.
  pose proof (Z.mod_pos_bound N1 D HD) as B1.
  pose proof (Z.mod_pos_bound N2 D HD) as B2.
  destruct (Z.eq_dec (N1 / D) (N2 / D)) as [Heq|Hne].
  - assert (Hr : N1 mod D <= N2 mod D) by (rewrite Heq in E1; lia).
    unfold rne. rewrite Heq.
    destruct (Z.compare_spec (2 * (N1 mod D)) D);
      destruct (Z.compare_spec (2 * (N2 mod D)) D);
      destruct (Z.even (N2 / D)); lia.
  - pose proof (rne_floor N1 D HD). pose proof (rne_floor N2 D HD). lia.
Qed.

Lemma rne_mono (N1 D1 N2 D2 : Z) :
  0 < D1 -> 0 < D2 -> N1 * D2 <= N2 * D1 -> rne N1 D1 <= rne N2 D2.
Proof.
  intros H1 H2 H.
  rewrite <- (rne_scale N1 D1 D2 H1 H2), <- (rne_scale N2 D2 D1 H2 H1).
  rewrite (Z.mul_comm D2 D1). apply rne_mono_same; lia.
Qed.

Lemma rne_exact (q D : Z) : 0 < D -> rne (q * D) D = q.
Proof.
  intros HD. unfold rne.
  rewrite Z.mod_mul, Z.div_mul by lia.
  destruct (Z.compare_spec (2 * 0) D); lia.
Qed.

Lemma rne_error (N D : Z) : 0 < D -> 2 * Z.abs (rne N D * D - N) <= D.
Proof.
  intros HD.
  pose proof (Z.div_mod N D ltac:(lia)) as E.
  pose proof (Z.mod_pos_bound N D HD) as B.
  unfold rne.
  destruct (Z.compare_spec (2 * (N mod D)) D);
    [destruct (Z.even (N / D))| |]; nia.
Qed.

Lemma rne_small (E D : Z) : 2 * Z.abs E <= D -> 0 < D -> rne E D = 0.
Proof.
  intros HE HD.
  pose proof (Z.div_mod E D ltac:(lia)) as Eq.
  pose proof (Z.mod_pos_bound E D HD) as B.
  assert (Hq : E / D = 0 \/ E / D = -1) by nia.
  unfold rne.
  destruct Hq as [Hq|Hq]; rewrite Hq in *;
    destruct (Z.compare_spec (2 * (E mod D)) D); cbn; lia.
Qed.

Lemma rne_add_even (N D c : Z) :
  0 < D -> Z.even c = true -> rne (N + c * D) D = rne N D + c.
Proof.
  intros HD Hc. unfold rne.
  rewrite Z.mod_add, Z.div_add by lia.
  rewrite Z.even_add, Hc.
  destruct (2 * (N mod D) ?= D); try lia.
  destruct (Z.even (N / D)); cbn; lia.
Qed.

(** *** Digits *)

Lemma digits2_pos_size (p : positive) : digits2_pos p = Pos.size p.
Proof. induction p; cbn; congruence. Qed.

Lemma Zdigits2_log2 (m : Z) : 0 < m -> Zdigits2 m = Z.log2 m + 1.
Proof.
  destruct m as [|p|p]; try lia. intros _.
  cbn [Zdigits2]. rewrite digits2_pos_size.
  destruct p; cbn; lia.
Qed.

Lemma Zdigits2_spec (m : Z) :
  0 < m -> 2 ^ (Zdigits2 m - 1) <= m < 2 ^ Zdigits2 m.
Proof.
  intros Hm. rewrite (Zdigits2_log2 m Hm).
  pose proof (Z.log2_spec m Hm) as H.
  replace (Z.log2 m + 1 - 1) with (Z.log2 m) by lia.
  replace (Z.log2 m + 1) with (Z.succ (Z.log2 m)) by lia. exact H.
Qed.

Lemma Zdigits2_unique (m d : Z) :
  0 < d -> 2 ^ (d - 1) <= m < 2 ^ d -> Zdigits2 m = d.
Proof.
  intros Hd H.
  assert (Hm : 0 < m).
  { pose proof (Z.pow_pos_nonneg 2 (d - 1) ltac:(lia) ltac:(lia)). lia. }
  rewrite (Zdigits2_log2 m Hm).
  rewrite (Z.log2_unique m (d - 1)); try lia.
  replace (Z.succ (d - 1)) with d by lia. exact H.
Qed.

Lemma Zdigits2_nonneg (m : Z) : 0 <= Zdigits2 m.
Proof. destruct m; cbn; lia. Qed.

Lemma Zdigits2_pos (m : Z) : 0 < m -> 0 < Zdigits2 m.
Proof. destruct m; cbn; lia. Qed.

Lemma Zdigits2_mono (m1 m2 : Z) :
  0 <= m1 <= m2 -> Zdigits2 m1 <= Zdigits2 m2.
Proof.
  intros [H1 H2].
  destruct (Z.eq_dec m1 0) as [->|Hne]; [apply Zdigits2_nonneg|].
  rewrite !Zdigits2_log2 by lia.
  pose proof (Z.log2_le_mono m1 m2 H2). lia.
Qed.

Lemma Zdigits2_lt_pow (m d : Z) : 0 <= m -> 0 <= d -> m < 2 ^ d -> Zdigits2 m <= d.
Proof.
  intros Hm Hd H.
  destruct (Z.eq_dec m 0) as [->|Hne]; [cbn; lia|].
  destruct (Z_le_gt_dec (Zdigits2 m) d) as [Hle|Hgt]; [exact Hle|].
  pose proof (Zdigits2_spec m ltac:(lia)) as [Hlo _].
  pose proof (Z.pow_le_mono_r 2 d (Zdigits2 m - 1) ltac:(lia) ltac:(lia)). lia.
Qed.

Lemma Zdigits2_ge_pow (m d : Z) : 0 <= d -> 2 ^ d <= m -> d < Zdigits2 m.
Proof.
  intros Hd H.
  assert (Hm : 0 < m).
  { pose proof (Z.pow_pos_nonneg 2 d ltac:(lia) Hd). lia. }
  pose proof (Zdigits2_spec m Hm) as [_ Hhi].
  destruct (Z_lt_le_dec d (Zdigits2 m)) as [Hlt|Hge]; [exact Hlt|].
  pose proof (Z.pow_le_mono_r 2 (Zdigits2 m) d ltac:(lia) Hge). lia.
Qed.

(** The digits of the floor of a fraction scaled by a power of two. *)
Lemma Zdigits2_scale_up (N D a : Z) :
  0 < D -> 0 < N / D -> 0 <= a ->
  Zdigits2 (N * 2 ^ a / D) = Zdigits2 (N / D) + a.
Proof.
  intros HD Hq Ha.
  pose proof (Zdigits2_spec (N / D) Hq) as [Hlo Hhi].
  pose proof (Zdigits2_pos (N / D) Hq) as Hd.
  pose proof (Z.pow_pos_nonneg 2 a ltac:(lia) Ha) as Hpa.
  apply Zdigits2_unique; [lia|].
  replace (Zdigits2 (N / D) + a - 1) with (Zdigits2 (N / D) - 1 + a) by lia.
  rewrite !Z.pow_add_r by lia.
  split.
  - apply Z.div_le_lower_bound; [lia|].
    assert (D * 2 ^ (Zdigits2 (N / D) - 1) <= N).
    { pose proof (Z.mul_div_le N D HD). nia. }
    nia.
  - apply Z.div_lt_upper_bound; [lia|].
    assert (N < D * 2 ^ Zdigits2 (N / D)).
    { pose proof (Z.div_mod N D ltac:(lia)). pose proof (Z.mod_pos_bound N D HD). nia. }
    nia.
Qed.

Lemma Zdigits2_scale_down (m b : Z) :
  0 <= m -> 0 <= b -> Zdigits2 (m / 2 ^ b) = Z.max (Zdigits2 m - b) 0.
Proof.
  intros Hm Hb.
  pose proof (Z.pow_pos_nonneg 2 b ltac:(lia) Hb) as Hpb.
  destruct (Z.eq_dec m 0) as [->|Hne].
  { rewrite Z.div_0_l by lia. cbn. lia. }
  pose proof (Zdigits2_spec m ltac:(lia)) as [Hlo Hhi].
  pose proof (Zdigits2_pos m ltac:(lia)) as Hd.
  destruct (Z_lt_le_dec b (Zdigits2 m)) as [Hlt|Hge].
  - rewrite Z.max_l by lia.
    apply Zdigits2_unique; [lia|].
    split.
    + apply Z.div_le_lower_bound; [lia|].
      rewrite <- Z.pow_add_r by lia.
      replace (b + (Zdigits2 m - b - 1)) with (Zdigits2 m - 1) by lia. exact Hlo.
    + apply Z.div_lt_upper_bound; [lia|].
      rewrite <- Z.pow_add_r by lia.
      replace (b + (Zdigits2 m - b)) with (Zdigits2 m) by lia. exact Hhi.
  - rewrite Z.max_r by lia.
    rewrite Z.div_small; [reflexivity|].
    pose proof (Z.pow_le_mono_r 2 (Zdigits2 m) b ltac:(lia) Hge). lia.
Qed.

(** *** The shift records *)

Lemma shr_1_rec_of (N D : Z) :
  0 <= N -> 0 < D -> shr_1 (rec_of N D) = rec_of N (D * 2).
Proof.
  intros HN HD. unfold rec_of.
  rewrite <- (Z.div_div N D 2) by lia.
  rewrite (Z.rem_mul_r N D 2) by lia.
  pose proof (Z.div_pos N D HN HD) as Hq.
  pose proof (Z.mod_pos_bound N D HD) as Hr.
  set (q := N / D) in *. set (r := N mod D) in *.
  assert (Hq2 : q = 2 * (q / 2) + q mod 2) by (apply Z.div_mod; lia).
  pose proof (Z.mod_pos_bound q 2 ltac:(lia)) as Hb.
  destruct q as [|p|p]; [| |lia].
  - cbn [shr_1]. rewrite Z.mod_0_l, Z.div_0_l by lia.
    f_equal.
    + symmetry. apply Z.leb_gt. lia.
    + destruct (Z.leb_spec D (2 * r)); destruct (Z.eqb_spec r 0);
        destruct (Z.eqb_spec (2 * r) D);
        destruct (Z.eqb_spec (r + D * 0) 0);
        destruct (Z.eqb_spec (2 * (r + D * 0)) (D * 2)); cbn; try reflexivity; lia.
  - destruct p as [p|p|].
    + assert (Hd : Z.pos p~1 / 2 = Z.pos p /\ Z.pos p~1 mod 2 = 1).
      { rewrite Pos2Z.inj_xI in *. lia. }
      destruct Hd as [Hd Hm]. rewrite Hd, Hm. cbn [shr_1].
      f_equal.
      * symmetry. apply Z.leb_le. lia.
      * destruct (Z.leb_spec D (2 * r)); destruct (Z.eqb_spec r 0);
          destruct (Z.eqb_spec (2 * r) D);
          destruct (Z.eqb_spec (r + D * 1) 0);
          destruct (Z.eqb_spec (2 * (r + D * 1)) (D * 2)); cbn; try reflexivity; lia.
    + assert (Hd : Z.pos p~0 / 2 = Z.pos p /\ Z.pos p~0 mod 2 = 0).
      { rewrite Pos2Z.inj_xO in *. lia. }
      destruct Hd as [Hd Hm]. rewrite Hd, Hm. cbn [shr_1].
      f_equal.
      * symmetry. apply Z.leb_gt. lia.
      * destruct (Z.leb_spec D (2 * r)); destruct (Z.eqb_spec r 0);
          destruct (Z.eqb_spec (2 * r) D);
          destruct (Z.eqb_spec (r + D * 0) 0);
          destruct (Z.eqb_spec (2 * (r + D * 0)) (D * 2)); cbn; try reflexivity; lia.
    + change (1 / 2) with 0. change (1 mod 2) with 1. cbn [shr_1].
      f_equal.
      * symmetry. apply Z.leb_le. lia.
      * destruct (Z.leb_spec D (2 * r)); destruct (Z.eqb_spec r 0);
          destruct (Z.eqb_spec (2 * r) D);
          destruct (Z.eqb_spec (r + D * 1) 0);
          destruct (Z.eqb_spec (2 * (r + D * 1)) (D * 2)); cbn; try reflexivity; lia.
Qed.

Lemma iter_pos_shr_1 (N : Z) (p : positive) :
  0 <= N ->
  forall D : Z, 0 < D ->
    iter_pos shr_1 p (rec_of N D) = rec_of N (D * 2 ^ Z.pos p).
Proof.
  intros HN. induction p as [p IH|p IH|]; intros D HD.
  - cbn [iter_pos]. rewrite (shr_1_rec_of N D HN HD).
    assert (H2 : 0 < 2 ^ Z.pos p) by (apply Z.pow_pos_nonneg; lia).
    rewrite IH by lia. rewrite IH by nia.
    f_equal. replace (Z.pos p~1) with (1 + Z.pos p + Z.pos p) by lia.
    rewrite !Z.pow_add_r by lia. change (2 ^ 1) with 2. ring.
  - cbn [iter_pos].
    assert (H2 : 0 < 2 ^ Z.pos p) by (apply Z.pow_pos_nonneg; lia).
    rewrite IH by lia. rewrite IH by nia.
    f_equal. replace (Z.pos p~0) with (Z.pos p + Z.pos p) by lia.
    rewrite !Z.pow_add_r by lia. ring.
  - cbn [iter_pos]. rewrite (shr_1_rec_of N D HN HD). reflexivity.
Qed.

Lemma shr_rec_of (N D e n : Z) :
  0 <= N -> 0 < D ->
  shr (rec_of N D) e n = (rec_of N (D * 2 ^ Z.max n 0), e + Z.max n 0).
Proof.
  intros HN HD. destruct n as [|p|p]; cbn [shr].
  - cbn [Z.max Z.compare]. change (2 ^ 0) with 1. rewrite Z.mul_1_r, Z.add_0_r. reflexivity.
  - rewrite (iter_pos_shr_1 N p HN D HD). rewrite Z.max_l by lia. reflexivity.
  - rewrite Z.max_r by lia. change (2 ^ 0) with 1. rewrite Z.mul_1_r, Z.add_0_r. reflexivity.
Qed.

Lemma round_rec_of (N D : Z) :
  0 < D ->
  round_nearest_even (shr_m (rec_of N D)) (loc_of_shr_record (rec_of N D))
  = rne N D.
Proof.
  intros HD. unfold rec_of, rne. cbn [shr_m loc_of_shr_record].
  pose proof (Z.mod_pos_bound N D HD) as Hr.
  destruct (Z.leb_spec D (2 * (N mod D))); destruct (Z.eqb_spec (N mod D) 0);
    destruct (Z.eqb_spec (2 * (N mod D)) D);
    destruct (Z.compare_spec (2 * (N mod D)) D);
    cbn; try reflexivity; lia.
Qed.

Lemma rec_of_exact (m : Z) : shr_record_of_loc m loc_Exact = rec_of m 1.
Proof.
  unfold rec_of. rewrite Z.mod_1_r, Z.div_1_r. reflexivity.
Qed.

(** The quotient and the location of [SFdiv_core_binary]. *)
Lemma rec_of_new_location (N D : Z) :
  0 < D ->
  shr_record_of_loc (N / D) (new_location D (N mod D)) = rec_of N D.
Proof.
  intros HD. unfold rec_of, new_location, new_location_even, new_location_odd.
  pose proof (Z.mod_pos_bound N D HD) as Hr.
  destruct (Z.even D) eqn:Hev.
  - destruct (Z.eqb_spec (N mod D) 0) as [H0|H0].
    + rewrite H0. cbn. replace (D <=? 0) with false by (symmetry; apply Z.leb_gt; lia).
      reflexivity.
    + destruct (Z.compare_spec (2 * (N mod D)) D);
        destruct (Z.leb_spec D (2 * (N mod D)));
        destruct (Z.eqb_spec (2 * (N mod D)) D); cbn; try reflexivity; lia.
  - assert (Hodd : 2 * (N mod D) <> D).
    { intros E. rewrite <- E in Hev. rewrite Z.even_mul in Hev. discriminate. }
    destruct (Z.eqb_spec (N mod D) 0) as [H0|H0].
    + rewrite H0. cbn. replace (D <=? 0) with false by (symmetry; apply Z.leb_gt; lia).
      reflexivity.
    + destruct (Z.compare_spec (2 * (N mod D) + 1) D);
        destruct (Z.leb_spec D (2 * (N mod D)));
        destruct (Z.eqb_spec (2 * (N mod D)) D); cbn; try reflexivity; lia.
Qed.

(** *** Floats as whole numbers of units in the last place of the format *)

Lemma fexp_eq (e : Z) : fexp prec emax e = Z.max (e - 53) (-1074).
Proof. reflexivity. Qed.

Lemma pow2_pos (a : Z) : 0 <= a -> 0 < 2 ^ a.
Proof. intros. apply Z.pow_pos_nonneg; lia. Qed.

Lemma pow2_split (a b : Z) : 0 <= a -> 0 <= b -> 2 ^ (a + b) = 2 ^ a * 2 ^ b.
Proof. intros. apply Z.pow_add_r; assumption. Qed.

Lemma pow2_le (a b : Z) : 0 <= a <= b -> 2 ^ a <= 2 ^ b.
Proof. intros. apply Z.pow_le_mono_r; lia. Qed.

Lemma shr_m_of_loc (m : Z) (l : location) : shr_m (shr_record_of_loc m l) = m.
Proof. destruct l as [|[]]; reflexivity. Qed.

Lemma frac_lt_pow_digits (N D : Z) :
  0 <= N -> 0 < D -> N < D * 2 ^ Zdigits2 (N / D).
Proof.
  intros HN HD.
  pose proof (Z.div_mod N D ltac:(lia)) as E.
  pose proof (Z.mod_pos_bound N D HD) as B.
  pose proof (Z.div_pos N D HN HD) as Hq.
  destruct (Z.eq_dec (N / D) 0) as [H0|H0].
  - rewrite H0 in *. cbn. lia.
  - pose proof (Zdigits2_spec (N / D) ltac:(lia)) as [_ Hhi]. nia.
Qed.

Lemma frac_ge_pow_digits (N D : Z) :
  0 < D -> 0 < N / D -> D * 2 ^ (Zdigits2 (N / D) - 1) <= N.
Proof.
  intros HD Hq.
  pose proof (Z.mul_div_le N D HD).
  pose proof (Zdigits2_spec (N / D) Hq) as [Hlo _]. nia.
Qed.

Lemma rne_nonneg (N D : Z) : 0 <= N -> 0 < D -> 0 <= rne N D.
Proof.
  intros HN HD. pose proof (rne_floor N D HD). pose proof (Z.div_pos N D HN HD). lia.
Qed.

Lemma rne_le (N D M : Z) : 0 < D -> N <= M * D -> rne N D <= M.
Proof.
  intros HD H. rewrite <- (rne_exact M D HD). apply rne_mono_same; assumption.
Qed.

Lemma rne_ge (N D M : Z) : 0 < D -> M * D <= N -> M <= rne N D.
Proof.
  intros HD H. rewrite <- (rne_exact M D HD). apply rne_mono_same; assumption.
Qed.

(** The scale of the rounding of N/D units is the target exponent of
    [shr_fexp], whatever the exponent of the fraction given to it. *)
Lemma Rnd_as_rne (N D e : Z) :
  0 <= N -> 0 < D ->
  let t := fexp prec emax (Zdigits2 (N / D) + e) in
  e <= t ->
  Rnd (N * 2 ^ Z.max (e + 1074) 0) (D * 2 ^ Z.max (- 1074 - e) 0)
  = rne N (D * 2 ^ (t - e)) * 2 ^ (t + 1074).
Proof.
  intros HN HD t Ht. unfold t in *. clear t. rewrite fexp_eq in *.
  set (d := Zdigits2 (N / D)) in *.
  pose proof (Zdigits2_nonneg (N / D)) as Hd. fold d in Hd.
  pose proof (Z.div_pos N D HN HD) as Hq.
  unfold Rnd.
  destruct (Z_le_gt_dec e (-1074)) as [He|He].
  - (* the fraction is given below the least exponent *)
    rewrite (Z.max_r (e + 1074) 0) by lia.
    rewrite (Z.max_l (-1074 - e) 0) by lia.
    change (2 ^ 0) with 1. rewrite Z.mul_1_r.
    rewrite <- (Z.div_div N D (2 ^ (-1074 - e)))
      by (try apply Z.lt_le_incl; try apply pow2_pos; lia).
    rewrite (Zdigits2_scale_down (N / D) (-1074 - e)) by lia. fold d.
    assert (Hk : Z.max (Z.max (d - (-1074 - e)) 0 - prec) 0
                 = Z.max (d + e - 53) (-1074) + 1074) by (unfold prec; lia).
    rewrite Hk. f_equal. f_equal.
    rewrite <- Z.mul_assoc. f_equal.
    rewrite <- pow2_split by lia. f_equal. lia.
  - (* the fraction is given above the least exponent *)
    rewrite (Z.max_l (e + 1074) 0) by lia.
    rewrite (Z.max_r (-1074 - e) 0) by lia.
    change (2 ^ 0) with 1. rewrite Z.mul_1_r.
    assert (Hq0 : 0 < N / D).
    { destruct (Z.eq_dec (N / D) 0) as [H0|H0]; [|lia].
      unfold d in Ht. rewrite H0 in Ht. cbn in Ht. lia. }
    rewrite (Zdigits2_scale_up N D (e + 1074)) by lia. fold d.
    assert (Hk : Z.max (d + (e + 1074) - prec) 0
                 = Z.max (d + e - 53) (-1074) + 1074) by (unfold prec; lia).
    rewrite Hk.
    set (t := Z.max (d + e - 53) (-1074)) in *.
    f_equal.
    replace (t + 1074) with ((t - e) + (e + 1074)) by lia.
    rewrite (pow2_split (t - e) (e + 1074)) by lia.
    rewrite Z.mul_assoc.
    apply rne_scale; [|apply pow2_pos; lia].
    pose proof (pow2_pos (t - e) ltac:(lia)). nia.
Qed.

Lemma binary_round_aux_spec (N D e m : Z) (l : location) :
  0 <= N -> 0 < D ->
  shr_record_of_loc m l = rec_of N D ->
  e <= fexp prec emax (Zdigits2 (N / D) + e) ->
  Zdigits2 (N / D) + e <= 1023 ->
  valid_binary (binary_round_aux prec emax false m e l) = true
  /\ fin_nonneg (binary_round_aux prec emax false m e l)
  /\ ulps (binary_round_aux prec emax false m e l)
     = Rnd (N * 2 ^ Z.max (e + 1074) 0) (D * 2 ^ Z.max (- 1074 - e) 0).
Proof.
  intros HN HD Hrec Ht Hov.
  rewrite (Rnd_as_rne N D e HN HD Ht).
  assert (Hm : m = N / D).
  { rewrite <- (shr_m_of_loc m l), Hrec. reflexivity. }
  unfold binary_round_aux, shr_fexp. rewrite Hrec, Hm.
  rewrite (shr_rec_of N D e _ HN HD).
  rewrite fexp_eq in *.
  set (d := Zdigits2 (N / D)) in *.
  pose proof (Zdigits2_nonneg (N / D)) as Hd. fold d in Hd.
  set (t := Z.max (d + e - 53) (-1074)) in *.
  rewrite (Z.max_l (t - e) 0) by lia.
  replace (e + (t - e)) with t by lia.
  assert (HD' : 0 < D * 2 ^ (t - e)).
  { pose proof (pow2_pos (t - e) ltac:(lia)). nia. }
  rewrite (round_rec_of N _ HD').
  set (M1 := rne N (D * 2 ^ (t - e))).
  assert (HM0 : 0 <= M1) by (apply rne_nonneg; lia).
  assert (HMhi : M1 <= 2 ^ 53).
  { apply rne_le; [exact HD'|].
    pose proof (frac_lt_pow_digits N D HN HD) as Hlt. fold d in Hlt.
    assert (2 ^ d <= 2 ^ (t - e) * 2 ^ 53).
    { rewrite <- pow2_split by lia. apply pow2_le. lia. }
    nia. }
  assert (HMlo : -1074 < t -> 2 ^ 52 <= M1).
  { intros Hgt. apply rne_ge; [exact HD'|].
    assert (Hd53 : t - e = d - 53) by lia.
    assert (Hq0 : 0 < N / D).
    { destruct (Z.eq_dec (N / D) 0) as [H0|H0].
      - unfold d in Hd53. rewrite H0 in Hd53. cbn in Hd53. lia.
      - pose proof (Z.div_pos N D HN HD). lia. }
    pose proof (frac_ge_pow_digits N D HD Hq0) as Hge. fold d in Hge.
    assert (2 ^ 52 * 2 ^ (t - e) = 2 ^ (d - 1)).
    { rewrite <- pow2_split by lia. f_equal. lia. }
    nia. }
  rewrite rec_of_exact.
  rewrite (shr_rec_of M1 1 t _ HM0 ltac:(lia)).
  rewrite fexp_eq. unfold rec_of. cbn [shr_m]. rewrite Z.mul_1_l.
  destruct (Z.eq_dec M1 (2 ^ 53)) as [Hcarry|Hnocarry].
  - (* the mantissa is rounded up to the next power of two *)
    rewrite Hcarry.
    replace (Zdigits2 (2 ^ 53)) with 54 by reflexivity.
    replace (Z.max (Z.max (54 + t - 53) (-1074) - t) 0) with 1 by lia.
    change (2 ^ 53 / 2 ^ 1) with (Z.pos (Z.to_pos (2 ^ 52))).
    cbv beta iota.
    replace (t + 1 <=? emax - prec) with true
      by (symmetry; apply Z.leb_le; unfold emax, prec; lia).
    split; [|split].
    + cbn [valid_binary]. unfold bounded, canonical_mantissa.
      rewrite fexp_eq.
      replace (Z.pos (digits2_pos (Z.to_pos (2 ^ 52)))) with 53 by reflexivity.
      apply andb_true_iff. split.
      * apply Z.eqb_eq. lia.
      * apply Z.leb_le. unfold emax, prec. lia.
    + exact I.
    + cbn [ulps cond_Zopp].
      change (Z.pos (Z.to_pos (2 ^ 52))) with (2 ^ 52).
      change emin with (-1074).
      replace (t + 1 - -1074) with (1 + (t + 1074)) by lia.
      rewrite pow2_split by lia.
      change (2 ^ 53) with (2 ^ 52 * 2 ^ 1). ring.
  - assert (Hdig : Zdigits2 M1 <= 53).
    { apply Zdigits2_lt_pow; lia. }
    replace (Z.max (Z.max (Zdigits2 M1 + t - 53) (-1074) - t) 0) with 0 by lia.
    change (2 ^ 0) with 1. rewrite Z.div_1_r, Z.add_0_r.
    destruct M1 as [|p|p] eqn:EM; [| |lia].
    + split; [reflexivity|]. split; [exact I|]. reflexivity.
    + replace (t <=? emax - prec) with true
        by (symmetry; apply Z.leb_le; unfold emax, prec; lia).
      split; [|split].
      * cbn [valid_binary]. unfold bounded, canonical_mantissa.
        rewrite fexp_eq.
        change (Z.pos (digits2_pos p)) with (Zdigits2 (Z.pos p)).
        apply andb_true_iff. split.
        -- apply Z.eqb_eq.
           destruct (Z.eq_dec t (-1074)) as [Hmin|Hmin]; [lia|].
           assert (53 <= Zdigits2 (Z.pos p)).
           { pose proof (Zdigits2_ge_pow (Z.pos p) 52 ltac:(lia)
                           (HMlo ltac:(lia))). lia. }
           lia.
        -- apply Z.leb_le. unfold emax, prec. lia.
      * exact I.
      * cbn [ulps cond_Zopp]. change emin with (-1074).
        replace (t - -1074) with (t + 1074) by lia. reflexivity.
Qed.

(** *** The rounding of a fraction of units *)

Lemma Rnd_0 (D : Z) : 0 < D -> Rnd 0 D = 0.
Proof.
  intros HD. unfold Rnd. rewrite Z.div_0_l by lia. cbn [Zdigits2].
  rewrite Z.max_r by (unfold prec; lia). change (2 ^ 0) with 1.
  rewrite !Z.mul_1_r. unfold rne. rewrite Z.mod_0_l, Z.div_0_l by lia.
  destruct (Z.compare_spec (2 * 0) D); cbn; lia.
Qed.

Lemma Rnd_scale (N D c : Z) : 0 < D -> 0 < c -> Rnd (N * c) (D * c) = Rnd N D.
Proof.
  intros HD Hc. unfold Rnd. rewrite Z.div_mul_cancel_r by lia.
  set (k := Z.max (Zdigits2 (N / D) - prec) 0).
  pose proof (pow2_pos k ltac:(lia)) as Hk.
  replace (D * c * 2 ^ k) with (D * 2 ^ k * c) by ring.
  rewrite rne_scale by nia. reflexivity.
Qed.

Lemma Rnd_same_fraction (N1 D1 N2 D2 : Z) :
  0 < D1 -> 0 < D2 -> N1 * D2 = N2 * D1 -> Rnd N1 D1 = Rnd N2 D2.
Proof.
  intros H1 H2 H.
  rewrite <- (Rnd_scale N1 D1 D2 H1 H2), <- (Rnd_scale N2 D2 D1 H2 H1).
  rewrite H, (Z.mul_comm D1 D2). reflexivity.
Qed.

Lemma Rnd_nonneg (N D : Z) : 0 <= N -> 0 < D -> 0 <= Rnd N D.
Proof.
  intros HN HD. unfold Rnd.
  set (k := Z.max (Zdigits2 (N / D) - prec) 0).
  pose proof (pow2_pos k ltac:(lia)) as Hk.
  pose proof (rne_nonneg N (D * 2 ^ k) HN ltac:(nia)). nia.
Qed.

Lemma Rnd_mono_same (N1 N2 D : Z) :
  0 <= N1 <= N2 -> 0 < D -> Rnd N1 D <= Rnd N2 D.
Proof.
  intros [H1 H12] HD. unfold Rnd.
  pose proof (Z.div_pos N1 D H1 HD) as Hq1.
  pose proof (Z.div_le_mono N1 N2 D HD H12) as Hq.
  pose proof (Zdigits2_mono (N1 / D) (N2 / D) ltac:(lia)) as Hd.
  pose proof (Zdigits2_nonneg (N1 / D)) as Hd1.
  set (d1 := Zdigits2 (N1 / D)) in *. set (d2 := Zdigits2 (N2 / D)) in *.
  set (k1 := Z.max (d1 - prec) 0). set (k2 := Z.max (d2 - prec) 0).
  assert (Hk1 : 0 <= k1) by lia. assert (Hk2 : 0 <= k2) by lia.
  assert (Hk : k1 <= k2) by lia.
  pose proof (pow2_pos k1 Hk1) as Hp1. pose proof (pow2_pos k2 Hk2) as Hp2.
  destruct (Z.eq_dec k1 k2) as [Heq|Hne].
  - rewrite <- Heq.
    pose proof (rne_mono_same N1 N2 (D * 2 ^ k1) ltac:(nia) H12). nia.
  - (* the larger fraction is in a higher binade *)
    assert (Hhi : rne N1 (D * 2 ^ k1) <= 2 ^ 53).
    { apply rne_le; [nia|].
      pose proof (frac_lt_pow_digits N1 D H1 HD) as Hlt. fold d1 in Hlt.
      assert (2 ^ d1 <= 2 ^ 53 * 2 ^ k1).
      { rewrite <- pow2_split by lia. apply pow2_le. unfold k1, prec. lia. }
      nia. }
    assert (Hlo : 2 ^ 52 <= rne N2 (D * 2 ^ k2)).
    { apply rne_ge; [nia|].
      assert (Hq2 : 0 < N2 / D).
      { destruct (Z.eq_dec (N2 / D) 0) as [H0|H0]; [|lia].
        unfold k2, d2 in Hne, Hk. rewrite H0 in Hne, Hk. cbn in Hne, Hk.
        unfold prec in *. lia. }
      pose proof (frac_ge_pow_digits N2 D HD Hq2) as Hge. fold d2 in Hge.
      assert (2 ^ 52 * 2 ^ k2 = 2 ^ (d2 - 1)).
      { rewrite <- pow2_split by lia. f_equal. unfold k2, prec. unfold k1, k2, prec in Hne. lia. }
      nia. }
    assert (Hpow : 2 ^ 53 * 2 ^ k1 <= 2 ^ 52 * 2 ^ k2).
    { rewrite <- !pow2_split by lia. apply pow2_le. lia. }
    pose proof (rne_nonneg N1 (D * 2 ^ k1) H1 ltac:(nia)).
    nia.
Qed.

Lemma Rnd_mono (N1 D1 N2 D2 : Z) :
  0 <= N1 -> 0 < D1 -> 0 < D2 -> N1 * D2 <= N2 * D1 ->
  Rnd N1 D1 <= Rnd N2 D2.
Proof.
  intros HN H1 H2 H.
  rewrite <- (Rnd_scale N1 D1 D2 H1 H2), <- (Rnd_scale N2 D2 D1 H2 H1).
  rewrite (Z.mul_comm D2 D1). apply Rnd_mono_same; nia.
Qed.

(** A whole number of units with at most 53 significant bits is not
    changed. *)
Lemma Rnd_exact (c j : Z) :
  0 <= c -> 0 <= j -> Zdigits2 (c * 2 ^ j) - 53 <= j ->
  Rnd (c * 2 ^ j) 1 = c * 2 ^ j.
Proof.
  intros Hc Hj Hd. unfold Rnd. rewrite Z.div_1_r, Z.mul_1_l.
  set (k := Z.max (Zdigits2 (c * 2 ^ j) - prec) 0).
  assert (Hk : 0 <= k <= j) by (unfold k, prec; lia).
  clearbody k.
  assert (E : c * 2 ^ j = c * 2 ^ (j - k) * 2 ^ k).
  { rewrite <- Z.mul_assoc, <- pow2_split by lia. do 2 f_equal. lia. }
  rewrite E. rewrite rne_exact by (apply pow2_pos; lia). reflexivity.
Qed.

Lemma Rnd_error (N K : Z) :
  0 <= N -> 0 <= K -> N < 2 ^ (53 + K) ->
  2 * Z.abs (Rnd N 1 - N) <= 2 ^ K.
Proof.
  intros HN HK Hlt. unfold Rnd. rewrite Z.div_1_r, Z.mul_1_l.
  pose proof (Zdigits2_lt_pow N (53 + K) HN ltac:(lia) Hlt) as Hd.
  pose proof (Zdigits2_nonneg N) as Hd0.
  set (k := Z.max (Zdigits2 N - prec) 0).
  assert (Hk : 0 <= k <= K) by (unfold k, prec; lia).
  pose proof (rne_error N (2 ^ k) (pow2_pos k ltac:(lia))).
  pose proof (pow2_le k K Hk). lia.
Qed.

(** *** Valid floats and their order *)

Lemma valid_finite (s : bool) (m : positive) (e : Z) :
  valid_binary (S754_finite s m e) = true ->
  -1074 <= e <= 971
  /\ Zdigits2 (Z.pos m) <= 53
  /\ (-1074 < e -> Zdigits2 (Z.pos m) = 53).
Proof.
  cbn [valid_binary]. unfold bounded, canonical_mantissa.
  rewrite fexp_eq. intros H. apply andb_true_iff in H as [H1 H2].
  apply Z.eqb_eq in H1. apply Z.leb_le in H2. unfold emax, prec in H2.
  cbn [Zdigits2]. lia.
Qed.

Lemma ulps_finite_digits (s : bool) (m : positive) (e : Z) :
  valid_binary (S754_finite s m e) = true ->
  Zdigits2 (Z.pos m * 2 ^ (e + 1074)) = Zdigits2 (Z.pos m) + (e + 1074).
Proof.
  intros H. apply valid_finite in H as [He _].
  pose proof (Zdigits2_scale_up (Z.pos m) 1 (e + 1074) ltac:(lia)) as Hs.
  rewrite !Z.div_1_r in Hs. apply Hs; lia.
Qed.

Lemma ulps_eq (s : bool) (m : positive) (e : Z) :
  ulps (S754_finite s m e) = cond_Zopp s (Z.pos m * 2 ^ (e + 1074)).
Proof.
  cbn [ulps]. change emin with (-1074).
  replace (e - -1074) with (e + 1074) by lia. reflexivity.
Qed.

Lemma finite_compare (m1 m2 : positive) (e1 e2 : Z) :
  valid_binary (S754_finite false m1 e1) = true ->
  valid_binary (S754_finite false m2 e2) = true ->
  match e1 ?= e2 with
  | Lt => Lt
  | Gt => Gt
  | Eq => Pos.compare_cont Eq m1 m2
  end = (Z.pos m1 * 2 ^ (e1 + 1074) ?= Z.pos m2 * 2 ^ (e2 + 1074)).
Proof.
  intros V1 V2.
  apply valid_finite in V1 as [He1 [Hd1 Hn1]].
  apply valid_finite in V2 as [He2 [Hd2 Hn2]].
  pose proof (Zdigits2_spec (Z.pos m1) ltac:(lia)) as [Hlo1 Hhi1].
  pose proof (Zdigits2_spec (Z.pos m2) ltac:(lia)) as [Hlo2 Hhi2].
  pose proof (pow2_pos (e1 + 1074) ltac:(lia)) as Hp1.
  pose proof (pow2_pos (e2 + 1074) ltac:(lia)) as Hp2.
  assert (Hhi : forall m, Zdigits2 m <= 53 -> m < 2 ^ Zdigits2 m -> m < 2 ^ 53).
  { intros m Hd Hlt. pose proof (Zdigits2_nonneg m).
    pose proof (pow2_le (Zdigits2 m) 53 ltac:(lia)). lia. }
  destruct (Z.compare_spec e1 e2) as [Heq|Hlt|Hgt].
  - subst e2. symmetry.
    change (Pos.compare_cont Eq m1 m2) with (Z.pos m1 ?= Z.pos m2).
    destruct (Z.compare_spec (Z.pos m1) (Z.pos m2));
      [apply Z.compare_eq_iff | apply Z.compare_lt_iff | apply Z.compare_gt_iff];
      nia.
  - symmetry. apply Z.compare_lt_iff.
    rewrite (Hn2 ltac:(lia)) in Hlo2. change (2 ^ (53 - 1)) with (2 ^ 52) in Hlo2.
    pose proof (Hhi _ Hd1 Hhi1) as Hm1.
    replace (e2 + 1074) with ((e2 - e1 - 1) + 1 + (e1 + 1074)) by lia.
    rewrite (pow2_split (e2 - e1 - 1 + 1) (e1 + 1074)) by lia.
    rewrite (pow2_split (e2 - e1 - 1) 1) by lia.
    pose proof (pow2_pos (e2 - e1 - 1) ltac:(lia)).
    change (2 ^ 1) with 2. change (2 ^ 53) with (2 ^ 52 * 2) in Hm1.
    assert (Z.pos m1 < Z.pos m2 * 2 ^ (e2 - e1 - 1) * 2) by nia.
    nia.
  - symmetry. apply Z.compare_gt_iff.
    rewrite (Hn1 ltac:(lia)) in Hlo1. change (2 ^ (53 - 1)) with (2 ^ 52) in Hlo1.
    pose proof (Hhi _ Hd2 Hhi2) as Hm2.
    replace (e1 + 1074) with ((e1 - e2 - 1) + 1 + (e2 + 1074)) by lia.
    rewrite (pow2_split (e1 - e2 - 1 + 1) (e2 + 1074)) by lia.
    rewrite (pow2_split (e1 - e2 - 1) 1) by lia.
    pose proof (pow2_pos (e1 - e2 - 1) ltac:(lia)).
    change (2 ^ 1) with 2. change (2 ^ 53) with (2 ^ 52 * 2) in Hm2.
    assert (Z.pos m2 < Z.pos m1 * 2 ^ (e1 - e2 - 1) * 2) by nia.
    nia.
Qed.

Lemma valid_sign (s s' : bool) (m : positive) (e : Z) :
  valid_binary (S754_finite s m e) = valid_binary (S754_finite s' m e).
Proof. reflexivity. Qed.

Lemma SFcompare_ulps (x y : spec_float) :
  valid_binary x = true -> valid_binary y = true ->
  finite_or_zero x -> finite_or_zero y ->
  SFcompare x y = Some (ulps x ?= ulps y).
Proof.
  intros Vx Vy Fx Fy.
  destruct x as [sx|sx| |sx mx ex]; try contradiction;
    destruct y as [sy|sy| |sy my ey]; try contradiction.
  - reflexivity.
  - rewrite ulps_eq. cbn [SFcompare ulps].
    pose proof (pow2_pos (ey + 1074)
                  ltac:(apply valid_finite in Vy; lia)) as Hp.
    destruct sy; cbn [cond_Zopp]; f_equal; symmetry;
      [apply Z.compare_gt_iff | apply Z.compare_lt_iff]; nia.
  - rewrite ulps_eq. cbn [SFcompare ulps].
    pose proof (pow2_pos (ex + 1074)
                  ltac:(apply valid_finite in Vx; lia)) as Hp.
    destruct sx; cbn [cond_Zopp]; f_equal; symmetry;
      [apply Z.compare_lt_iff | apply Z.compare_gt_iff]; nia.
  - rewrite !ulps_eq. cbn [SFcompare].
    pose proof (pow2_pos (ex + 1074)
                  ltac:(apply valid_finite in Vx; lia)) as Hpx.
    pose proof (pow2_pos (ey + 1074)
                  ltac:(apply valid_finite in Vy; lia)) as Hpy.
    pose proof (finite_compare mx my ex ey Vx Vy) as Hc.
    destruct sx, sy; cbn [cond_Zopp]; f_equal.
    + rewrite Z.compare_opp, (Z.compare_antisym _ (Z.pos my * _)), <- Hc.
      destruct (ex ?= ey); reflexivity.
    + symmetry. apply Z.compare_lt_iff. nia.
    + symmetry. apply Z.compare_gt_iff. nia.
    + exact Hc.
Qed.

Lemma SFleb_ulps (x y : spec_float) :
  valid_binary x = true -> valid_binary y = true ->
  finite_or_zero x -> finite_or_zero y ->
  SFleb x y = (ulps x <=? ulps y).
Proof.
  intros Vx Vy Fx Fy. unfold SFleb.
  rewrite (SFcompare_ulps x y Vx Vy Fx Fy). unfold Z.leb.
  destruct (ulps x ?= ulps y); reflexivity.
Qed.

(** A valid float is determined by its sign and its units. *)
Lemma ulps_inj (m1 m2 : positive) (e1 e2 : Z) :
  valid_binary (S754_finite false m1 e1) = true ->
  valid_binary (S754_finite false m2 e2) = true ->
  ulps (S754_finite false m1 e1) = ulps (S754_finite false m2 e2) ->
  S754_finite false m1 e1 = S754_finite false m2 e2.
Proof.
  intros V1 V2 H. rewrite !ulps_eq in H. cbn [cond_Zopp] in H.
  pose proof (finite_compare m1 m2 e1 e2 V1 V2) as Hc.
  rewrite H, Z.compare_refl in Hc.
  destruct (Z.compare_spec e1 e2) as [He|He|He]; try discriminate.
  subst e2. apply Pos.compare_eq in Hc. subst m2. reflexivity.
Qed.

(** *** The operations on valid floats *)

Lemma binary_round_aux_sign (m e : Z) (l : location) :
  binary_round_aux prec emax true m e l
  = SFopp (binary_round_aux prec emax false m e l).
Proof.
  unfold binary_round_aux.
  destruct (shr_fexp prec emax m e l) as [mrs' e'].
  destruct (shr_fexp prec emax _ e' loc_Exact) as [mrs'' e''].
  destruct (shr_m mrs''); [reflexivity| |reflexivity].
  destruct (e'' <=? emax - prec); reflexivity.
Qed.

Lemma SFopp_involutive (x : spec_float) : SFopp (SFopp x) = x.
Proof. destruct x as [[]|[]| |[] m e]; reflexivity. Qed.

Lemma valid_opp (x : spec_float) : valid_binary (SFopp x) = valid_binary x.
Proof. destruct x; reflexivity. Qed.

Lemma ulps_opp (x : spec_float) : ulps (SFopp x) = - ulps x.
Proof.
  destruct x as [s|s| |s m e]; try reflexivity.
  cbn [SFopp ulps]. destruct s; cbn [negb cond_Zopp]; lia.
Qed.

Lemma finite_or_zero_opp (x : spec_float) :
  finite_or_zero (SFopp x) <-> finite_or_zero x.
Proof. destruct x; cbn; tauto. Qed.

Lemma fin_nonneg_finite_or_zero (x : spec_float) :
  fin_nonneg x -> finite_or_zero x.
Proof. destruct x as [s|s| |[] m e]; cbn; tauto. Qed.

Lemma fin_nonneg_ulps (x : spec_float) : fin_nonneg x -> 0 <= ulps x.
Proof.
  destruct x as [s|s| |[] m e]; cbn [fin_nonneg ulps cond_Zopp];
    try tauto; try lia.
Qed.

Lemma SFmul_opp_l (x y : spec_float) :
  SFmul prec emax (SFopp x) y = SFopp (SFmul prec emax x y).
Proof.
  destruct x as [sx|sx| |sx mx ex], y as [sy|sy| |sy my ey];
    cbn [SFmul SFopp]; try reflexivity;
    try (destruct sx, sy; reflexivity).
  destruct sx, sy; cbn [xorb negb];
    rewrite ?binary_round_aux_sign, ?SFopp_involutive; reflexivity.
Qed.

Lemma SFdiv_opp_l (x y : spec_float) :
  SFdiv prec emax (SFopp x) y = SFopp (SFdiv prec emax x y).
Proof.
  destruct x as [sx|sx| |sx mx ex], y as [sy|sy| |sy my ey];
    cbn [SFdiv SFopp]; try reflexivity;
    try (destruct sx, sy; reflexivity).
  destruct (SFdiv_core_binary prec emax (Z.pos mx) ex (Z.pos my) ey)
    as [[mz ez] lz].
  destruct sx, sy; cbn [xorb negb];
    rewrite ?binary_round_aux_sign, ?SFopp_involutive; reflexivity.
Qed.

Lemma ulps_exact (x : spec_float) :
  valid_binary x = true -> fin_nonneg x -> Rnd (ulps x) 1 = ulps x.
Proof.
  intros V F. destruct x as [s|s| |[] m e]; try contradiction.
  - apply Rnd_0. lia.
  - rewrite ulps_eq. cbn [cond_Zopp].
    pose proof (ulps_finite_digits false m e V) as Hd.
    apply valid_finite in V as [He [Hd53 _]].
    apply Rnd_exact; lia.
Qed.

(** **** Multiplication *)

Lemma SFmul_spec (x y : spec_float) :
  valid_binary x = true -> valid_binary y = true ->
  fin_nonneg x -> fin_nonneg y ->
  ulps x * ulps y < 2 ^ 3171 ->
  valid_binary (SFmul prec emax x y) = true
  /\ fin_nonneg (SFmul prec emax x y)
  /\ ulps (SFmul prec emax x y) = Rnd (ulps x * ulps y) (2 ^ 1074).
Proof.
  intros Vx Vy Fx Fy Hov.
  assert (H0 : Rnd 0 (2 ^ 1074) = 0) by (apply Rnd_0; apply pow2_pos; lia).
  destruct x as [sx|sx| |[] mx ex]; try contradiction;
    destruct y as [sy|sy| |[] my ey]; try contradiction;
    try (cbn [SFmul ulps]; rewrite ?Z.mul_0_l, ?Z.mul_0_r, H0;
         split; [reflexivity|split; [exact I|reflexivity]]).
  clear H0. cbn [SFmul xorb].
  rewrite !ulps_eq in *. cbn [cond_Zopp] in *.
  pose proof (valid_finite _ _ _ Vx) as [Hex [Hdx Hnx]].
  pose proof (valid_finite _ _ _ Vy) as [Hey [Hdy Hny]].
  rewrite Pos2Z.inj_mul.
  set (N := Z.pos mx * Z.pos my).
  set (e := ex + ey).
  assert (HN : 0 < N) by (unfold N; lia).
  assert (E : Z.pos mx * 2 ^ (ex + 1074) * (Z.pos my * 2 ^ (ey + 1074))
              = N * 2 ^ (e + 2148)).
  { unfold N, e. replace (ex + ey + 2148) with ((ex + 1074) + (ey + 1074)) by lia.
    rewrite (pow2_split (ex + 1074) (ey + 1074)) by lia. ring. }
  assert (Hdhi : Zdigits2 N + e <= 1023).
  { rewrite E in Hov.
    pose proof (pow2_pos (e + 2148) ltac:(unfold e; lia)) as Hp.
    pose proof (Zdigits2_lt_pow (N * 2 ^ (e + 2148)) 3171
                  ltac:(clear Hov; nia) ltac:(lia) Hov) as Hd.
    clear Hov.
    pose proof (Zdigits2_scale_up N 1 (e + 2148) ltac:(lia)) as Hs.
    rewrite !Z.div_1_r in Hs. rewrite Hs in Hd by (unfold e; lia). lia. }
  clear Hov.
  pose proof (Zdigits2_spec (Z.pos mx) ltac:(lia)) as [Hlox Hhix].
  pose proof (Zdigits2_spec (Z.pos my) ltac:(lia)) as [Hloy Hhiy].
  pose proof (Zdigits2_pos (Z.pos mx) ltac:(lia)) as Hpx.
  pose proof (Zdigits2_pos (Z.pos my) ltac:(lia)) as Hpy.
  set (dx := Zdigits2 (Z.pos mx)) in *. set (dy := Zdigits2 (Z.pos my)) in *.
  (* the product has at least  dx + dy - 1  digits *)
  assert (Hdlo : dx + dy - 1 <= Zdigits2 N).
  { assert (2 ^ (dx + dy - 2) <= N).
    { replace (dx + dy - 2) with ((dx - 1) + (dy - 1)) by lia.
      rewrite pow2_split by lia. unfold N.
      pose proof (pow2_pos (dx - 1) ltac:(lia)).
      pose proof (pow2_pos (dy - 1) ltac:(lia)). nia. }
    pose proof (Zdigits2_ge_pow N (dx + dy - 2) ltac:(lia) ltac:(lia)). lia. }
  destruct (binary_round_aux_spec N 1 e N loc_Exact) as [V [F U]];
    try rewrite Z.div_1_r; try lia.
  - apply rec_of_exact.
  - rewrite fexp_eq. unfold e.
    destruct (Z.eq_dec ex (-1074)); destruct (Z.eq_dec ey (-1074));
      try (rewrite (Hnx ltac:(lia)) in * ); try (rewrite (Hny ltac:(lia)) in * );
      lia.
  - split; [exact V|]. split; [exact F|]. rewrite U, E.
    apply Rnd_same_fraction.
    + pose proof (pow2_pos (Z.max (-1074 - e) 0) ltac:(lia)). lia.
    + apply pow2_pos. lia.
    + rewrite <- !Z.mul_assoc. f_equal.
      rewrite Z.mul_1_l. rewrite <- !pow2_split by (unfold e; lia).
      f_equal. lia.
Qed.

(** **** Division *)

Lemma mul_lt_r (a b c : Z) : 0 < c -> a < b -> a * c < b * c.
Proof. intros. nia. Qed.

Lemma mul_le_r (a b c : Z) : 0 <= c -> a <= b -> a * c <= b * c.
Proof. intros. nia. Qed.

Lemma SFdiv_core_binary_eq (mx my : positive) (ex ey : Z) :
  let e' := Z.min (fexp prec emax (Zdigits2 (Z.pos mx) + ex
                                   - (Zdigits2 (Z.pos my) + ey)))
                  (ex - ey) in
  let s := ex - ey - e' in
  SFdiv_core_binary prec emax (Z.pos mx) ex (Z.pos my) ey
  = (Z.pos mx * 2 ^ s / Z.pos my, e',
     new_location (Z.pos my) ((Z.pos mx * 2 ^ s) mod Z.pos my)).
Proof.
  intros e' s. unfold SFdiv_core_binary. fold e'. fold s.
  assert (Hs : 0 <= s) by (unfold s, e'; lia).
  assert (Hm : match s with
               | Z.pos _ => Z.shiftl (Z.pos mx) s
               | 0 => Z.pos mx
               | Z.neg _ => 0
               end = Z.pos mx * 2 ^ s).
  { destruct s as [|p|p]; [cbn; lia | apply Z.shiftl_mul_pow2; lia | lia]. }
  rewrite Hm.
  unfold Z.div, Z.modulo.
  destruct (Z.div_eucl (Z.pos mx * 2 ^ s) (Z.pos my)) as [q r]. reflexivity.
Qed.

Lemma SFdiv_spec (x y : spec_float) :
  valid_binary x = true -> valid_binary y = true ->
  fin_nonneg x -> fin_nonneg y -> 0 < ulps y ->
  ulps x < ulps y * 2 ^ 1022 ->
  valid_binary (SFdiv prec emax x y) = true
  /\ fin_nonneg (SFdiv prec emax x y)
  /\ ulps (SFdiv prec emax x y) = Rnd (ulps x * 2 ^ 1074) (ulps y).
Proof.
  intros Vx Vy Fx Fy Hy Hov.
  destruct y as [sy|sy| |[] my ey]; try contradiction; [cbn in Hy; lia|].
  destruct x as [sx|sx| |[] mx ex]; try contradiction.
  { clear Hov. cbn [SFdiv ulps]. rewrite Z.mul_0_l, Rnd_0 by exact Hy.
    split; [reflexivity|split; [exact I|reflexivity]]. }
  clear Hy. cbn [SFdiv xorb].
  rewrite !ulps_eq in *. cbn [cond_Zopp] in *.
  pose proof (valid_finite _ _ _ Vx) as [Hex [Hdx Hnx]].
  pose proof (valid_finite _ _ _ Vy) as [Hey [Hdy Hny]].
  pose proof (Zdigits2_spec (Z.pos mx) ltac:(lia)) as [Hlox Hhix].
  pose proof (Zdigits2_spec (Z.pos my) ltac:(lia)) as [Hloy Hhiy].
  pose proof (Zdigits2_pos (Z.pos mx) ltac:(lia)) as Hpx.
  pose proof (Zdigits2_pos (Z.pos my) ltac:(lia)) as Hpy.
  set (dx := Zdigits2 (Z.pos mx)) in *. set (dy := Zdigits2 (Z.pos my)) in *.
  (* the quotient is below 2^1022 *)
  assert (Hmag : dx + ex - (dy + ey) <= 1022).
  { destruct (Z_le_gt_dec (dx + ex - (dy + ey)) 1022) as [Hle|Hgt]; [exact Hle|].
    exfalso.
    assert (H1 : Z.pos my * 2 ^ (ey + 1074) * 2 ^ 1022
                 < 2 ^ (dy + (ey + 1074) + 1022)).
    { rewrite (pow2_split (dy + (ey + 1074)) 1022) by lia.
      rewrite (pow2_split dy (ey + 1074)) by lia.
      pose proof (pow2_pos (ey + 1074) ltac:(lia)).
      pose proof (pow2_pos 1022 ltac:(lia)).
      apply mul_lt_r; [assumption|].
      apply mul_lt_r; assumption. }
    assert (H2 : 2 ^ (dx - 1 + (ex + 1074)) <= Z.pos mx * 2 ^ (ex + 1074)).
    { rewrite (pow2_split (dx - 1) (ex + 1074)) by lia.
      apply mul_le_r; [apply Z.lt_le_incl, pow2_pos; lia|assumption]. }
    pose proof (pow2_le (dy + (ey + 1074) + 1022) (dx - 1 + (ex + 1074))
                  ltac:(lia)) as H3.
    apply (Z.lt_irrefl (Z.pos mx * 2 ^ (ex + 1074))).
    eapply Z.lt_le_trans; [exact Hov|].
    eapply Z.le_trans; [apply Z.lt_le_incl; exact H1|].
    eapply Z.le_trans; [exact H3|exact H2]. }
  clear Hov.
  rewrite SFdiv_core_binary_eq. fold dx dy.
  rewrite fexp_eq.
  set (e' := Z.min (Z.max (dx + ex - (dy + ey) - 53) (-1074)) (ex - ey)).
  set (s := ex - ey - e').
  assert (Hs : 0 <= s) by (unfold s, e'; lia).
  pose proof (pow2_pos s Hs) as Hps.
  set (N := Z.pos mx * 2 ^ s).
  assert (HN : 0 < N) by (unfold N; nia).
  (* the digits of the quotient *)
  assert (Hqlo : dx + s - dy <= Zdigits2 (N / Z.pos my)).
  { destruct (Z_le_gt_dec (dx + s - dy) 0) as [Hle|Hgt].
    - pose proof (Zdigits2_nonneg (N / Z.pos my)). lia.
    - assert (2 ^ (dx + s - dy - 1) <= N / Z.pos my).
      { apply Z.div_le_lower_bound; [lia|].
        assert (Z.pos my * 2 ^ (dx + s - dy - 1) <= 2 ^ dy * 2 ^ (dx + s - dy - 1)).
        { apply mul_le_r; [apply Z.lt_le_incl, pow2_pos|]; lia. }
        rewrite <- pow2_split in H by lia.
        replace (dy + (dx + s - dy - 1)) with ((dx - 1) + s) in H by lia.
        rewrite pow2_split in H by lia.
        assert (2 ^ (dx - 1) * 2 ^ s <= N).
        { unfold N. apply mul_le_r; lia. }
        lia. }
      pose proof (Zdigits2_ge_pow (N / Z.pos my) (dx + s - dy - 1) ltac:(lia) H). lia. }
  assert (Hqhi : Zdigits2 (N / Z.pos my) <= Z.max (dx + s - dy + 1) 0).
  { destruct (Z_le_gt_dec 0 (dx + s - dy + 1)) as [Hle|Hgt].
    - rewrite Z.max_l by lia. apply Zdigits2_lt_pow; [apply Z.div_pos; lia|lia|].
      apply Z.div_lt_upper_bound; [lia|].
      assert (2 ^ (dy - 1) * 2 ^ (dx + s - dy + 1) <= Z.pos my * 2 ^ (dx + s - dy + 1)).
      { apply mul_le_r; [apply Z.lt_le_incl, pow2_pos|]; lia. }
      rewrite <- pow2_split in H by lia.
      replace (dy - 1 + (dx + s - dy + 1)) with (dx + s) in H by lia.
      rewrite pow2_split in H by lia.
      assert (N < 2 ^ dx * 2 ^ s).
      { unfold N. apply mul_lt_r; lia. }
      lia.
    - (* the quotient is zero *)
      rewrite Z.div_small; [cbn; lia|].
      split; [lia|].
      assert (N < 2 ^ dx * 2 ^ s).
      { unfold N. apply mul_lt_r; lia. }
      rewrite <- pow2_split in H by lia.
      pose proof (pow2_le (dx + s) (dy - 1) ltac:(lia)). lia. }
  destruct (binary_round_aux_spec N (Z.pos my) e' (N / Z.pos my)
              (new_location (Z.pos my) (N mod Z.pos my))) as [V [F U]];
    try lia.
  - apply rec_of_new_location. lia.
  - rewrite fexp_eq. unfold e', s in *. lia.
  - split; [exact V|]. split; [exact F|]. rewrite U.
    apply Rnd_same_fraction.
    + apply Z.mul_pos_pos; [lia|apply pow2_pos; lia].
    + apply Z.mul_pos_pos; [lia|apply pow2_pos; lia].
    + unfold N.
      assert (E : 2 ^ s * 2 ^ Z.max (e' + 1074) 0 * 2 ^ (ey + 1074)
                  = 2 ^ (ex + 1074) * 2 ^ 1074 * 2 ^ Z.max (-1074 - e') 0).
      { clear - Hs Hex Hey. rewrite <- !pow2_split by lia. f_equal. unfold s. lia. }
      set (A := 2 ^ s) in *. set (B := 2 ^ Z.max (e' + 1074) 0) in *.
      set (C := 2 ^ (ey + 1074)) in *. set (D := 2 ^ (ex + 1074)) in *.
      set (U1 := 2 ^ 1074) in *. set (G := 2 ^ Z.max (-1074 - e') 0) in *.
      clearbody A B C D U1 G.
      transitivity (Z.pos mx * Z.pos my * (A * B * C)); [ring|].
      rewrite E. ring.
Qed.

(** **** Addition *)

Lemma iter_xO (m d : positive) :
  Z.pos (Pos.iter xO m d) = Z.pos m * 2 ^ Z.pos d.
Proof.
  induction d as [|d IH] using Pos.peano_ind.
  - cbn. lia.
  - rewrite Pos.iter_succ, Pos2Z.inj_xO, IH, Pos2Z.inj_succ, Z.pow_succ_r by lia.
    ring.
Qed.

Lemma shl_align_spec (m : positive) (e e' : Z) :
  Z.pos (fst (shl_align m e e')) = Z.pos m * 2 ^ Z.max (e - e') 0
  /\ snd (shl_align m e e') = Z.min e e'.
Proof.
  unfold shl_align. destruct (e' - e) as [|d|d] eqn:E; cbn [fst snd].
  - rewrite Z.max_r by lia. change (2 ^ 0) with 1. lia.
  - rewrite Z.max_r by lia. change (2 ^ 0) with 1. lia.
  - rewrite iter_xO. rewrite Z.max_l by lia.
    replace (e - e') with (Z.pos d) by lia. lia.
Qed.

Lemma binary_round_spec (m : positive) (e : Z) :
  -1074 <= e -> Zdigits2 (Z.pos m) + e <= 1023 ->
  valid_binary (binary_round prec emax false m e) = true
  /\ fin_nonneg (binary_round prec emax false m e)
  /\ ulps (binary_round prec emax false m e) = Rnd (Z.pos m * 2 ^ (e + 1074)) 1.
Proof.
  intros He Hov. unfold binary_round.
  change (Z.pos (digits2_pos m)) with (Zdigits2 (Z.pos m)).
  rewrite fexp_eq.
  set (d := Zdigits2 (Z.pos m)) in *.
  pose proof (Zdigits2_pos (Z.pos m) ltac:(lia)) as Hd. fold d in Hd.
  set (f := Z.max (d + e - 53) (-1074)).
  pose proof (shl_align_spec m e f) as [Hm He'].
  destruct (shl_align m e f) as [mz ez]. cbn [fst snd] in Hm, He'.
  assert (Hdz : Zdigits2 (Z.pos mz) = d + Z.max (e - f) 0).
  { rewrite Hm.
    pose proof (Zdigits2_scale_up (Z.pos m) 1 (Z.max (e - f) 0) ltac:(lia)) as Hs.
    rewrite !Z.div_1_r in Hs. apply Hs; lia. }
  destruct (binary_round_aux_spec (Z.pos mz) 1 ez (Z.pos mz) loc_Exact)
    as [V [F U]]; try rewrite Z.div_1_r; try lia.
  - apply rec_of_exact.
  - rewrite fexp_eq, Hdz. unfold f in *. lia.
  - split; [exact V|]. split; [exact F|]. rewrite U.
    rewrite (Z.max_r (-1074 - ez) 0) by (unfold f in *; lia).
    rewrite (Z.max_l (ez + 1074) 0) by (unfold f in *; lia).
    change (2 ^ 0) with 1. rewrite Z.mul_1_l. f_equal.
    rewrite Hm, <- Z.mul_assoc, <- pow2_split by (unfold f in *; lia).
    do 2 f_equal. lia.
Qed.

Lemma SFadd_spec (x y : spec_float) :
  valid_binary x = true -> valid_binary y = true ->
  finite_or_zero x -> finite_or_zero y ->
  0 < ulps x + ulps y ->
  Zdigits2 (ulps x + ulps y) <= 2097 ->
  valid_binary (SFadd prec emax x y) = true
  /\ fin_nonneg (SFadd prec emax x y)
  /\ ulps (SFadd prec emax x y) = Rnd (ulps x + ulps y) 1.
Proof.
  intros Vx Vy Fx Fy Hpos Hov.
  destruct x as [sx|sx| |sx mx ex]; try contradiction;
    destruct y as [sy|sy| |sy my ey]; try contradiction.
  - cbn in Hpos. lia.
  - cbn [SFadd]. assert (Hs : sy = false).
    { destruct sy; [|reflexivity]. rewrite ulps_eq in Hpos.
      cbn [ulps cond_Zopp] in Hpos.
      pose proof (pow2_pos (ey + 1074) ltac:(apply valid_finite in Vy; lia)).
      nia. }
    subst sy. split; [exact Vy|]. split; [exact I|].
    change (ulps (S754_zero sx)) with 0. rewrite Z.add_0_l. symmetry. apply ulps_exact; [exact Vy|exact I].
  - cbn [SFadd]. assert (Hs : sx = false).
    { destruct sx; [|reflexivity]. rewrite ulps_eq in Hpos.
      cbn [ulps cond_Zopp] in Hpos.
      pose proof (pow2_pos (ex + 1074) ltac:(apply valid_finite in Vx; lia)).
      nia. }
    subst sx. split; [exact Vx|]. split; [exact I|].
    change (ulps (S754_zero sy)) with 0. rewrite Z.add_0_r. symmetry. apply ulps_exact; [exact Vx|exact I].
  - cbn [SFadd].
    pose proof (valid_finite _ _ _ Vx) as [Hex _].
    pose proof (valid_finite _ _ _ Vy) as [Hey _].
    pose proof (shl_align_spec mx ex (Z.min ex ey)) as [Hmx _].
    pose proof (shl_align_spec my ey (Z.min ex ey)) as [Hmy _].
    rewrite Hmx, Hmy.
    set (ez := Z.min ex ey) in *.
    set (m := cond_Zopp sx (Z.pos mx * 2 ^ Z.max (ex - ez) 0)
              + cond_Zopp sy (Z.pos my * 2 ^ Z.max (ey - ez) 0)).
    assert (E : ulps (S754_finite sx mx ex) + ulps (S754_finite sy my ey)
                = m * 2 ^ (ez + 1074)).
    { assert (Ex : 2 ^ (ex + 1074) = 2 ^ Z.max (ex - ez) 0 * 2 ^ (ez + 1074)).
      { rewrite <- pow2_split by lia. f_equal. lia. }
      assert (Ey : 2 ^ (ey + 1074) = 2 ^ Z.max (ey - ez) 0 * 2 ^ (ez + 1074)).
      { rewrite <- pow2_split by lia. f_equal. lia. }
      rewrite !ulps_eq, Ex, Ey. unfold m.
      destruct sx, sy; cbn [cond_Zopp]; ring. }
    rewrite E in *.
    pose proof (pow2_pos (ez + 1074) ltac:(lia)) as Hp.
    assert (Hm : 0 < m) by nia.
    destruct m as [|p|p]; try lia.
    cbn [binary_normalize].
    apply binary_round_spec; [lia|].
    pose proof (Zdigits2_scale_up (Z.pos p) 1 (ez + 1074) ltac:(lia)) as Hs.
    rewrite !Z.div_1_r in Hs. rewrite Hs in Hov by lia. lia.
Qed.


Lemma whole_pos : 0 < whole.
Proof. reflexivity. Qed.

Lemma Rnd_whole (z : Z) : 0 <= z < 2 ^ 53 -> Rnd (z * whole) 1 = z * whole.
Proof.
  intros Hz. unfold whole. apply Rnd_exact; [lia|lia|].
  destruct (Z.eq_dec z 0) as [->|Hne]; [cbn; lia|].
  pose proof (Zdigits2_scale_up z 1 1074 ltac:(lia)) as Hs.
  rewrite !Z.div_1_r in Hs. rewrite Hs by lia.
  pose proof (Zdigits2_lt_pow z 53 ltac:(lia) ltac:(lia) ltac:(lia)). lia.
Qed.

Lemma leb_between (lo hi : spec_float) (v : float) :
  valid_binary lo = true -> valid_binary hi = true ->
  finite_or_zero lo -> finite_or_zero hi ->
  SFleb lo (Prim2SF v) = true -> SFleb (Prim2SF v) hi = true ->
  finite_or_zero (Prim2SF v)
  /\ ulps lo <= ulps (Prim2SF v) <= ulps hi.
Proof.
  intros Vlo Vhi Flo Fhi H1 H2.
  pose proof (Prim2SF_valid v) as V.
  assert (F : finite_or_zero (Prim2SF v)).
  { destruct (Prim2SF v) as [s|s| |s m e]; try exact I.
    - destruct s.
      + destruct lo as [sl|sl| |sl ml el]; try contradiction; discriminate H1.
      + destruct hi as [sh|sh| |sh mh eh]; try contradiction; discriminate H2.
    - destruct lo as [sl|sl| |sl ml el]; try contradiction; discriminate H1. }
  split; [exact F|].
  rewrite (SFleb_ulps _ _ Vlo V Flo F) in H1.
  rewrite (SFleb_ulps _ _ V Vhi F Fhi) in H2.
  apply Z.leb_le in H1, H2. lia.
Qed.

Lemma nonneg_of_ulps (x : spec_float) :
  valid_binary x = true -> finite_or_zero x -> 0 <= ulps x -> fin_nonneg x.
Proof.
  intros V F H. destruct x as [s|s| |[] m e]; try contradiction; try exact I.
  rewrite ulps_eq in H. cbn [cond_Zopp] in H.
  pose proof (pow2_pos (e + 1074) ltac:(apply valid_finite in V; lia)). nia.
Qed.

Lemma Prim2SF_100 : Prim2SF 100 = S754_finite false 7036874417766400 (-46).
Proof. vm_compute. reflexivity. Qed.

Lemma Prim2SF_0 : Prim2SF 0 = S754_zero false.
Proof. vm_compute. reflexivity. Qed.

Lemma Prim2SF_1200 :
  Prim2SF (Binary64.of_int THROTTLE_RANGE_USEC)
  = S754_finite false 5277655813324800 (-42).
Proof. vm_compute. reflexivity. Qed.

Lemma Prim2SF_900 :
  Prim2SF (Binary64.of_int THROTTLE_MIN_PULSE_LENGTH_USEC)
  = S754_finite false 7916483719987200 (-43).
Proof. vm_compute. reflexivity. Qed.

Lemma ulps_100 : ulps (S754_finite false 7036874417766400 (-46)) = 100 * whole.
Proof. vm_compute. reflexivity. Qed.

Lemma ulps_1200 : ulps (S754_finite false 5277655813324800 (-42)) = 1200 * whole.
Proof. vm_compute. reflexivity. Qed.

Lemma ulps_900 : ulps (S754_finite false 7916483719987200 (-43)) = 900 * whole.
Proof. vm_compute. reflexivity. Qed.

Lemma throttle_in_range_units (v : float) :
  ((0 <=? v) && (v <=? 100))%float = true ->
  fin_nonneg (Prim2SF v) /\ 0 <= ulps (Prim2SF v) <= 100 * whole.
Proof.
  intros H. apply andb_true_iff in H as [H1 H2].
  rewrite leb_spec in H1, H2.
  rewrite Prim2SF_0 in H1. rewrite Prim2SF_100 in H2.
  destruct (leb_between (S754_zero false)
              (S754_finite false 7036874417766400 (-46)) v
              eq_refl eq_refl I I H1 H2) as [F B].
  rewrite ulps_100 in B. change (ulps (S754_zero false)) with 0 in B.
  split; [|exact B].
  apply nonneg_of_ulps; [apply Prim2SF_valid|exact F|lia].
Qed.

(** Bounds and monotonicity of the three roundings of the throttle map. *)
Lemma throttle_units_steps (X : Z) :
  0 <= X <= 100 * whole ->
  0 <= Rnd X 100 <= whole
  /\ 0 <= Rnd (1200 * Rnd X 100) 1 <= 1200 * whole
  /\ 900 * whole <= throttle_units X <= 2100 * whole.
Proof.
  intros HX. pose proof whole_pos as HW.
  assert (H1 : 0 <= Rnd X 100 <= whole).
  { split; [apply Rnd_nonneg; lia|].
    apply Z.le_trans with (Rnd (1 * whole) 1);
      [apply Rnd_mono; lia | rewrite Rnd_whole by lia; lia]. }
  assert (H2 : 0 <= Rnd (1200 * Rnd X 100) 1 <= 1200 * whole).
  { split; [apply Rnd_nonneg; lia|].
    apply Z.le_trans with (Rnd (1200 * whole) 1);
      [apply Rnd_mono; lia | rewrite Rnd_whole by lia; lia]. }
  split; [exact H1|]. split; [exact H2|].
  unfold throttle_units. split.
  - apply Z.le_trans with (Rnd (900 * whole) 1);
      [rewrite Rnd_whole by lia; lia | apply Rnd_mono; lia].
  - apply Z.le_trans with (Rnd (2100 * whole) 1);
      [apply Rnd_mono; lia | rewrite Rnd_whole by lia; lia].
Qed.

Lemma throttle_units_mono (X1 X2 : Z) :
  0 <= X1 <= X2 -> X2 <= 100 * whole ->
  throttle_units X1 <= throttle_units X2.
Proof.
  intros H12 H2. pose proof whole_pos as HW.
  pose proof (throttle_units_steps X1 ltac:(lia)) as [A1 [B1 _]].
  pose proof (throttle_units_steps X2 ltac:(lia)) as [A2 [B2 _]].
  assert (HA : Rnd X1 100 <= Rnd X2 100) by (apply Rnd_mono; lia).
  assert (HB : Rnd (1200 * Rnd X1 100) 1 <= Rnd (1200 * Rnd X2 100) 1)
    by (apply Rnd_mono; lia).
  unfold throttle_units. apply Rnd_mono; lia.
Qed.

Lemma digits_le_of_lt (N c : Z) :
  0 <= N -> N <= c * whole -> 0 <= c < 2 ^ 53 -> Zdigits2 N <= 1127.
Proof.
  intros HN H Hc. apply Zdigits2_lt_pow; [lia|lia|].
  change (2 ^ 1127) with (2 ^ 53 * whole). pose proof whole_pos. nia.
Qed.

Lemma throttle_usec_units (v : float) :
  ((0 <=? v) && (v <=? 100))%float = true ->
  valid_binary (Prim2SF (Binary64.throttle_usec v)) = true
  /\ fin_nonneg (Prim2SF (Binary64.throttle_usec v))
  /\ ulps (Prim2SF (Binary64.throttle_usec v))
     = throttle_units (ulps (Prim2SF v)).
Proof.
  intros Hin. unfold Binary64.throttle_usec. rewrite Hin.
  destruct (throttle_in_range_units v Hin) as [F B].
  pose proof (Prim2SF_valid v) as V.
  pose proof whole_pos as HW.
  destruct (throttle_units_steps _ B) as [B1 [B2 B3]].
  rewrite add_spec, mul_spec, div_spec.
  rewrite Prim2SF_100, Prim2SF_1200, Prim2SF_900.
  unfold SF64add, SF64mul, SF64div.
  set (x := Prim2SF v) in *.
  (* the division *)
  destruct (SFdiv_spec x (S754_finite false 7036874417766400 (-46)))
    as [Vq [Fq Uq]]; try assumption; try reflexivity; try exact I.
  { rewrite ulps_100. change (2 ^ 1022) with (2 ^ 1022 * 1).
    pose proof (pow2_pos 1022 ltac:(lia)). nia. }
  rewrite ulps_100 in Uq. fold whole in Uq.
  rewrite (Rnd_scale (ulps x) 100 whole ltac:(lia) HW) in Uq.
  set (q := SFdiv prec emax x _) in *.
  (* the multiplication *)
  destruct (SFmul_spec q (S754_finite false 5277655813324800 (-42)))
    as [Vp [Fp Up]]; try assumption; try reflexivity; try exact I.
  { rewrite ulps_1200, Uq.
    apply Z.le_lt_trans with (whole * (1200 * whole)); [nia|].
    vm_compute. reflexivity. }
  rewrite ulps_1200, Uq in Up. fold whole in Up.
  replace (Rnd (ulps x) 100 * (1200 * whole))
    with (1200 * Rnd (ulps x) 100 * whole) in Up by ring.
  rewrite <- (Z.mul_1_l whole) in Up at 2.
  rewrite (Rnd_scale _ 1 whole ltac:(lia) HW) in Up.
  set (p := SFmul prec emax q _) in *.
  (* the addition *)
  destruct (SFadd_spec p (S754_finite false 7916483719987200 (-43)))
    as [Vw [Fw Uw]]; try assumption; try reflexivity; try exact I.
  { apply fin_nonneg_finite_or_zero. exact Fp. }
  { rewrite ulps_900, Up. lia. }
  { rewrite ulps_900, Up.
    pose proof (digits_le_of_lt (Rnd (1200 * Rnd (ulps x) 100) 1 + 900 * whole)
                  2100 ltac:(lia) ltac:(lia) ltac:(lia)). lia. }
  rewrite ulps_900, Up in Uw.
  split; [exact Vw|]. split; [exact Fw|]. exact Uw.
Qed.


(** **** The conversion to [int] *)

Lemma truncate_units (x : spec_float) :
  valid_binary x = true -> fin_nonneg x ->
  Binary64.truncate x = Some (ulps x / whole).
Proof.
  intros V F. destruct x as [s|s| |[] m e]; try contradiction.
  - reflexivity.
  - rewrite ulps_eq. cbn [Binary64.truncate cond_Zopp]. f_equal.
    apply valid_finite in V as [He _]. unfold whole.
    destruct (Z.ltb_spec e 0) as [Hneg|Hpos].
    + replace 1074 with ((- e) + (e + 1074)) at 2 by lia.
      rewrite (pow2_split (- e) (e + 1074)) by lia.
      rewrite Z.div_mul_cancel_r; [reflexivity| |];
        apply Z.neq_sym, Z.lt_neq, pow2_pos; lia.
    + replace (e + 1074) with (e + 1074)%Z by reflexivity.
      rewrite (pow2_split e 1074) by lia. rewrite Z.mul_assoc.
      rewrite Z.div_mul; [reflexivity|]. apply Z.neq_sym, Z.lt_neq, pow2_pos; lia.
Qed.

Lemma to_int_units (w : float) (lo hi : Z) :
  fin_nonneg (Prim2SF w) ->
  lo * whole <= ulps (Prim2SF w) <= hi * whole ->
  0 <= lo -> hi <= Binary64.INT_MAX ->
  exists us : Z,
    Binary64.to_int w = Some us
    /\ us = ulps (Prim2SF w) / whole
    /\ lo <= us <= hi.
Proof.
  intros F B Hlo Hhi. pose proof whole_pos as HW.
  exists (ulps (Prim2SF w) / whole).
  assert (Hq : lo <= ulps (Prim2SF w) / whole <= hi).
  { split.
    - apply Z.div_le_lower_bound; lia.
    - apply Z.div_le_upper_bound; lia. }
  unfold Binary64.to_int.
  rewrite (truncate_units _ (Prim2SF_valid w) F).
  replace ((Binary64.INT_MIN <=? ulps (Prim2SF w) / whole)
           && (ulps (Prim2SF w) / whole <=? Binary64.INT_MAX)) with true.
  - repeat split; lia.
  - symmetry. apply andb_true_iff. split; apply Z.leb_le;
      unfold Binary64.INT_MIN, Binary64.INT_MAX in *; lia.
Qed.

(** **** Addition commutes *)

Lemma SFadd_comm (x y : spec_float) :
  SFadd prec emax x y = SFadd prec emax y x.
Proof.
  destruct x as [sx|sx| |sx mx ex], y as [sy|sy| |sy my ey];
    try reflexivity; try (destruct sx, sy; reflexivity).
  cbn [SFadd]. rewrite (Z.min_comm ey ex), Z.add_comm. reflexivity.
Qed.

Lemma add_comm (a b : float) : (a + b)%float = (b + a)%float.
Proof.
  apply Prim2SF_inj. rewrite !add_spec. apply SFadd_comm.
Qed.

(** **** The rudder: signs *)

Lemma rudder_offset_SF_opp (x : spec_float) :
  rudder_offset_SF (SFopp x) = SFopp (rudder_offset_SF x).
Proof.
  unfold rudder_offset_SF. rewrite SFdiv_opp_l, SFmul_opp_l. reflexivity.
Qed.

Lemma ulps_200 : ulps (S754_finite false 7036874417766400 (-45)) = 200 * whole.
Proof. vm_compute. reflexivity. Qed.

Lemma rudder_offset_steps (X : Z) :
  0 <= X <= 100 * whole ->
  0 <= Rnd X 200 <= whole
  /\ 0 <= rudder_offset X <= 600 * whole.
Proof.
  intros HX. pose proof whole_pos as HW.
  assert (H1 : 0 <= Rnd X 200 <= whole).
  { split; [apply Rnd_nonneg; lia|].
    apply Z.le_trans with (Rnd (1 * whole) 1);
      [apply Rnd_mono; lia | rewrite Rnd_whole by lia; lia]. }
  split; [exact H1|]. unfold rudder_offset.
  split; [apply Rnd_nonneg; lia|].
  (* X / 200 is at most one half *)
  assert (H2 : 2 * Rnd X 200 <= whole).
  { assert (Hh : Rnd X 200 <= Rnd (1 * 2 ^ 1073) 1).
    { apply Rnd_mono; try lia. change whole with (2 * (1 * 2 ^ 1073)) in HX. lia. }
    rewrite (Rnd_exact 1 1073) in Hh by (try lia; vm_compute; discriminate).
    change whole with (2 * (1 * 2 ^ 1073)). lia. }
  apply Z.le_trans with (Rnd (600 * whole) 1);
    [apply Rnd_mono; lia | rewrite Rnd_whole by lia; lia].
Qed.

Lemma rudder_offset_mono (X1 X2 : Z) :
  0 <= X1 <= X2 -> X2 <= 100 * whole ->
  rudder_offset X1 <= rudder_offset X2.
Proof.
  intros H12 H2.
  pose proof (rudder_offset_steps X1 ltac:(lia)) as [A1 _].
  assert (HA : Rnd X1 200 <= Rnd X2 200) by (apply Rnd_mono; lia).
  unfold rudder_offset. apply Rnd_mono; lia.
Qed.

Lemma rudder_offset_SF_nonneg (x : spec_float) :
  valid_binary x = true -> fin_nonneg x -> ulps x <= 100 * whole ->
  valid_binary (rudder_offset_SF x) = true
  /\ fin_nonneg (rudder_offset_SF x)
  /\ ulps (rudder_offset_SF x) = rudder_offset (ulps x).
Proof.
  intros V F B. pose proof whole_pos as HW.
  pose proof (fin_nonneg_ulps x F) as H0.
  destruct (rudder_offset_steps (ulps x) ltac:(lia)) as [B1 B2].
  unfold rudder_offset_SF.
  destruct (SFdiv_spec x (S754_finite false 7036874417766400 (-45)))
    as [Vq [Fq Uq]]; try assumption; try reflexivity; try exact I.
  { rewrite ulps_200. change (2 ^ 1022) with (2 ^ 1022 * 1).
    pose proof (pow2_pos 1022 ltac:(lia)). nia. }
  rewrite ulps_200 in Uq. fold whole in Uq.
  rewrite (Rnd_scale (ulps x) 200 whole ltac:(lia) HW) in Uq.
  set (q := SFdiv prec emax x _) in *.
  destruct (SFmul_spec q (S754_finite false 5277655813324800 (-42)))
    as [Vp [Fp Up]]; try assumption; try reflexivity; try exact I.
  { rewrite ulps_1200, Uq.
    apply Z.le_lt_trans with (whole * (1200 * whole)); [nia|].
    vm_compute. reflexivity. }
  rewrite ulps_1200, Uq in Up. fold whole in Up.
  replace (Rnd (ulps x) 200 * (1200 * whole))
    with (1200 * Rnd (ulps x) 200 * whole) in Up by ring.
  rewrite <- (Z.mul_1_l whole) in Up at 2.
  rewrite (Rnd_scale _ 1 whole ltac:(lia) HW) in Up.
  split; [exact Vp|]. split; [exact Fp|]. exact Up.
Qed.

Lemma rudder_offset_SF_signed (x : spec_float) :
  valid_binary x = true -> finite_or_zero x ->
  Z.abs (ulps x) <= 100 * whole ->
  valid_binary (rudder_offset_SF x) = true
  /\ finite_or_zero (rudder_offset_SF x)
  /\ ulps (rudder_offset_SF x) = Z.sgn (ulps x) * rudder_offset (Z.abs (ulps x))
  /\ Z.abs (ulps (rudder_offset_SF x)) <= 600 * whole.
Proof.
  intros V F B.
  assert (Hnn : forall y, valid_binary y = true -> fin_nonneg y ->
                  ulps y <= 100 * whole ->
                  valid_binary (rudder_offset_SF y) = true
                  /\ finite_or_zero (rudder_offset_SF y)
                  /\ ulps (rudder_offset_SF y)
                     = Z.sgn (ulps y) * rudder_offset (Z.abs (ulps y))
                  /\ Z.abs (ulps (rudder_offset_SF y)) <= 600 * whole).
  { intros y Vy Fy By.
    pose proof (fin_nonneg_ulps y Fy) as H0.
    destruct (rudder_offset_SF_nonneg y Vy Fy By) as [Va [Fa Ua]].
    destruct (rudder_offset_steps (ulps y) ltac:(lia)) as [_ B2].
    split; [exact Va|]. split; [apply fin_nonneg_finite_or_zero; exact Fa|].
    rewrite Ua, (Z.abs_eq (ulps y)) by lia.
    split; [|rewrite Z.abs_eq; lia].
    destruct (Z.eq_dec (ulps y) 0) as [E|E].
    - rewrite E. cbn [Z.sgn]. unfold rudder_offset.
      rewrite (Rnd_0 200), Z.mul_0_r, (Rnd_0 1) by lia. lia.
    - rewrite Z.sgn_pos by lia. lia. }
  destruct x as [s|s| |[] m e]; try contradiction.
  - apply Hnn; [exact V|exact I|cbn; pose proof whole_pos; lia].
  - change (S754_finite true m e) with (SFopp (S754_finite false m e)) in *.
    rewrite rudder_offset_SF_opp, valid_opp, ulps_opp in *.
    rewrite Z.abs_opp in B.
    destruct (Hnn (S754_finite false m e) V I ltac:(lia)) as [Va [Fa [Ua Ba]]].
    split; [exact Va|]. split; [apply finite_or_zero_opp; exact Fa|].
    rewrite ulps_opp, Z.abs_opp, Z.sgn_opp. split; [rewrite Ua; ring|].
    rewrite Z.abs_opp. exact Ba.
  - apply Hnn; [exact V|exact I|lia].
Qed.

(** **** The rudder: the sum with the centre *)

Lemma Prim2SF_200 : Prim2SF 200 = S754_finite false 7036874417766400 (-45).
Proof. vm_compute. reflexivity. Qed.

Lemma Prim2SF_m100 : Prim2SF (-100) = S754_finite true 7036874417766400 (-46).
Proof. vm_compute. reflexivity. Qed.

Lemma Prim2SF_rudder_range :
  Prim2SF (Binary64.of_int RUDDER_RANGE_USEC)
  = S754_finite false 5277655813324800 (-42).
Proof. vm_compute. reflexivity. Qed.

Lemma Prim2SF_1500 :
  Prim2SF Binary64.RUDDER_CENTRE_PULSE_LENGTH_USEC
  = S754_finite false 6597069766656000 (-42).
Proof. vm_compute. reflexivity. Qed.

Lemma Prim2SF_3000 : Prim2SF 3000 = S754_finite false 6597069766656000 (-41).
Proof. vm_compute. reflexivity. Qed.

Lemma ulps_1500 : ulps (S754_finite false 6597069766656000 (-42)) = 1500 * whole.
Proof. vm_compute. reflexivity. Qed.

Lemma ulps_3000 : ulps (S754_finite false 6597069766656000 (-41)) = 3000 * whole.
Proof. vm_compute. reflexivity. Qed.

Lemma ulps_m100 : ulps (S754_finite true 7036874417766400 (-46)) = - (100 * whole).
Proof. vm_compute. reflexivity. Qed.

Lemma rudder_add (a : spec_float) :
  valid_binary a = true -> finite_or_zero a ->
  Z.abs (ulps a) <= 600 * whole ->
  valid_binary (SFadd prec emax a (S754_finite false 6597069766656000 (-42))) = true
  /\ fin_nonneg (SFadd prec emax a (S754_finite false 6597069766656000 (-42)))
  /\ ulps (SFadd prec emax a (S754_finite false 6597069766656000 (-42)))
     = Rnd (ulps a + 1500 * whole) 1
  /\ 900 * whole <= Rnd (ulps a + 1500 * whole) 1 <= 2100 * whole.
Proof.
  intros V F B. pose proof whole_pos as HW.
  destruct (SFadd_spec a (S754_finite false 6597069766656000 (-42)))
    as [Vw [Fw Uw]]; try assumption; try reflexivity; try exact I.
  { rewrite ulps_1500. lia. }
  { rewrite ulps_1500.
    pose proof (digits_le_of_lt (ulps a + 1500 * whole)
                  2100 ltac:(lia) ltac:(lia) ltac:(lia)). lia. }
  rewrite ulps_1500 in Uw.
  split; [exact Vw|]. split; [exact Fw|]. split; [exact Uw|].
  split.
  - apply Z.le_trans with (Rnd (900 * whole) 1);
      [rewrite Rnd_whole by lia; lia | apply Rnd_mono; lia].
  - apply Z.le_trans with (Rnd (2100 * whole) 1);
      [apply Rnd_mono; lia | rewrite Rnd_whole by lia; lia].
Qed.

Lemma rudder_in_range_units (v : float) :
  ((-100 <=? v) && (v <=? 100))%float = true
  <-> finite_or_zero (Prim2SF v) /\ Z.abs (ulps (Prim2SF v)) <= 100 * whole.
Proof.
  rewrite andb_true_iff, !leb_spec, Prim2SF_m100, Prim2SF_100.
  pose proof (Prim2SF_valid v) as V.
  split.
  - intros [H1 H2].
    destruct (leb_between (S754_finite true 7036874417766400 (-46))
                (S754_finite false 7036874417766400 (-46)) v
                eq_refl eq_refl I I H1 H2) as [F B].
    rewrite ulps_100, ulps_m100 in B. split; [exact F|lia].
  - intros [F B].
    rewrite (SFleb_ulps (S754_finite true 7036874417766400 (-46)) _
               eq_refl V I F).
    rewrite (SFleb_ulps _ (S754_finite false 7036874417766400 (-46))
               V eq_refl F I).
    rewrite ulps_100, ulps_m100. split; apply Z.leb_le; lia.
Qed.

Lemma rudder_usec_SF (v : float) :
  ((-100 <=? v) && (v <=? 100))%float = true ->
  Prim2SF (Binary64.rudder_usec v)
  = SFadd prec emax (rudder_offset_SF (Prim2SF v))
          (S754_finite false 6597069766656000 (-42)).
Proof.
  intros Hin. unfold Binary64.rudder_usec. rewrite Hin.
  rewrite add_spec, mul_spec, div_spec.
  rewrite Prim2SF_200, Prim2SF_rudder_range, Prim2SF_1500. reflexivity.
Qed.

Lemma rudder_usec_units (v : float) :
  ((-100 <=? v) && (v <=? 100))%float = true ->
  valid_binary (Prim2SF (Binary64.rudder_usec v)) = true
  /\ fin_nonneg (Prim2SF (Binary64.rudder_usec v))
  /\ ulps (Prim2SF (Binary64.rudder_usec v)) = rudder_units (ulps (Prim2SF v))
  /\ 900 * whole <= rudder_units (ulps (Prim2SF v)) <= 2100 * whole.
Proof.
  intros Hin. rewrite (rudder_usec_SF v Hin).
  apply rudder_in_range_units in Hin as [F B].
  destruct (rudder_offset_SF_signed _ (Prim2SF_valid v) F B)
    as [Va [Fa [Ua Ba]]].
  destruct (rudder_add _ Va Fa Ba) as [Vw [Fw [Uw Bw]]].
  unfold rudder_units. rewrite <- Ua.
  split; [exact Vw|]. split; [exact Fw|]. split; [exact Uw|exact Bw].
Qed.

(** A valid float of at least 2^(j+52) units is a multiple of 2^j
    units. *)
Lemma ulps_multiple (a : spec_float) (j : Z) :
  valid_binary a = true -> fin_nonneg a -> 0 <= j ->
  2 ^ (j + 52) <= ulps a ->
  exists c : Z, 0 <= c /\ ulps a = c * 2 ^ j.
Proof.
  intros V F Hj H.
  destruct a as [s|s| |[] m e]; try contradiction.
  - cbn [ulps] in H. pose proof (pow2_pos (j + 52) ltac:(lia)). lia.
  - rewrite ulps_eq in *. cbn [cond_Zopp] in *.
    pose proof (ulps_finite_digits false m e V) as Hd.
    apply valid_finite in V as [He [Hd53 _]].
    pose proof (Zdigits2_ge_pow (Z.pos m * 2 ^ (e + 1074)) (j + 52)
                  ltac:(lia) H) as Hlt.
    exists (Z.pos m * 2 ^ (e + 1074 - j)).
    split.
    + pose proof (pow2_pos (e + 1074 - j) ltac:(lia)). nia.
    + rewrite <- Z.mul_assoc, <- pow2_split by lia. do 2 f_equal. lia.
Qed.

Lemma whole_K : whole = 8796093022208 * 2 ^ 1031.
Proof. reflexivity. Qed.

Lemma pow_1032 : 2 ^ 1032 = 2 * 2 ^ 1031.
Proof. reflexivity. Qed.

Lemma pow_1033 : 2 ^ 1033 = 4 * 2 ^ 1031.
Proof. reflexivity. Qed.

Lemma pow_1083 : 2 ^ (1031 + 52) = 4503599627370496 * 2 ^ 1031.
Proof. reflexivity. Qed.

Lemma pow_1084 : 2 ^ 1084 = 9007199254740992 * 2 ^ 1031.
Proof. reflexivity. Qed.

Lemma pow_1085 : 2 ^ (53 + 1032) = 18014398509481984 * 2 ^ 1031.
Proof. reflexivity. Qed.

Lemma pow_1086 : 2 ^ (53 + 1033) = 36028797018963968 * 2 ^ 1031.
Proof. reflexivity. Qed.

(** The two widths for a and for -a add up to twice the centre within
    half a unit of the sum's last place. *)
Lemma centre_sum_nonneg (a : spec_float) :
  valid_binary a = true -> fin_nonneg a -> ulps a <= 600 * whole ->
  2 * Z.abs (Rnd (ulps a + 1500 * whole) 1 + Rnd (- ulps a + 1500 * whole) 1
             - 3000 * whole) <= 2 ^ 1033.
Proof.
  intros V F B.
  pose proof (fin_nonneg_ulps a F) as H0.
  pose proof whole_pos as HW.
  pose proof (pow2_pos 1031 ltac:(lia)) as HK.
  destruct (Z_lt_le_dec (ulps a + 1500 * whole) (2 ^ (53 + 1032))) as [Hlo|Hhi].
  - pose proof (Rnd_error (ulps a + 1500 * whole) 1032
                  ltac:(lia) ltac:(lia) Hlo) as E1.
    pose proof (Rnd_error (- ulps a + 1500 * whole) 1032
                  ltac:(lia) ltac:(lia)) as E2.
    rewrite pow_1085, pow_1032, ?pow_1033, whole_K in *.
    set (K := 2 ^ 1031) in *. clearbody K.
    specialize (E2 ltac:(lia)). lia.
  - destruct (ulps_multiple a 1031 V F ltac:(lia)) as [c [Hc Ec]].
    { rewrite pow_1083. rewrite pow_1085, whole_K in *.
      set (K := 2 ^ 1031) in *. clearbody K. lia. }
    pose proof (Rnd_error (ulps a + 1500 * whole) 1033
                  ltac:(lia) ltac:(lia)) as E1.
    assert (E2 : Rnd (- ulps a + 1500 * whole) 1 = - ulps a + 1500 * whole).
    { rewrite Ec.
      replace (- (c * 2 ^ 1031) + 1500 * whole)
        with ((13194139533312000 - c) * 2 ^ 1031)
        by (rewrite whole_K; ring).
      set (c' := 13194139533312000 - c).
      assert (Hc' : 0 <= c' /\ c' * 2 ^ 1031 < 2 ^ 1084).
      { unfold c'. rewrite pow_1084. rewrite pow_1085, whole_K in *.
        set (K := 2 ^ 1031) in *. clearbody K. nia. }
      destruct Hc' as [Hc0 Hclt].
      assert (Hnn : 0 <= c' * 2 ^ 1031) by (apply Z.mul_nonneg_nonneg; lia).
      apply Rnd_exact; [lia|lia|].
      pose proof (Zdigits2_lt_pow (c' * 2 ^ 1031) 1084 Hnn ltac:(lia) Hclt).
      lia. }
    rewrite E2.
    rewrite pow_1086, pow_1033, ?pow_1085, whole_K in *.
    set (K := 2 ^ 1031) in *. clearbody K.
    specialize (E1 ltac:(lia)). lia.
Qed.

Lemma centre_sum_units (a : spec_float) :
  valid_binary a = true -> finite_or_zero a ->
  Z.abs (ulps a) <= 600 * whole ->
  2 * Z.abs (Rnd (ulps a + 1500 * whole) 1 + Rnd (- ulps a + 1500 * whole) 1
             - 3000 * whole) <= 2 ^ 1033.
Proof.
  intros V F B.
  destruct a as [s|s| |[] m e]; try contradiction.
  - apply centre_sum_nonneg; [exact V|exact I|cbn [ulps] in *; lia].
  - change (S754_finite true m e) with (SFopp (S754_finite false m e)) in *.
    rewrite ulps_opp, ?valid_opp in *. rewrite Z.abs_opp in B.
    rewrite Z.opp_involutive.
    rewrite (Z.add_comm (Rnd (- _ + _) 1)).
    apply centre_sum_nonneg; [exact V|exact I|lia].
  - apply centre_sum_nonneg; [exact V|exact I|lia].
Qed.

Lemma Rnd_near_3000 (S : Z) :
  2 * Z.abs (S - 3000 * whole) <= 2 ^ 1033 -> Rnd S 1 = 3000 * whole.
Proof.
  intros H. unfold Rnd. rewrite Z.div_1_r, Z.mul_1_l.
  assert (Hd : Zdigits2 S = 1086).
  { apply Zdigits2_unique; [lia|].
    change (1086 - 1) with (53 + 1032). change (2 ^ 1086) with (2 ^ (53 + 1033)).
    rewrite pow_1085, pow_1086. rewrite pow_1033, whole_K in H.
    pose proof (pow2_pos 1031 ltac:(lia)) as HK.
    set (K := 2 ^ 1031) in *. clearbody K. lia. }
  rewrite Hd. change (Z.max (1086 - prec) 0) with 1033.
  replace S with ((S - 3000 * whole) + 6597069766656000 * 2 ^ 1033)
    by (change whole with (2199023255552 * 2 ^ 1033); ring).
  rewrite rne_add_even by (try apply pow2_pos; try reflexivity; lia).
  rewrite rne_small by (try apply pow2_pos; lia).
  change whole with (2199023255552 * 2 ^ 1033). ring.
Qed.

(** The whole parts of the two widths add up to twice the centre, or to
    one less. *)
Lemma centre_sum_pulses (a : spec_float) :
  valid_binary a = true -> finite_or_zero a ->
  Z.abs (ulps a) <= 600 * whole ->
  let q1 := Rnd (ulps a + 1500 * whole) 1 / whole in
  let q2 := Rnd (- ulps a + 1500 * whole) 1 / whole in
  q1 + q2 = 3000 \/ q1 + q2 = 2999.
Proof.
  intros V F B q1 q2. pose proof whole_pos as HW.
  pose proof (centre_sum_units a V F B) as Hsum.
  set (A := ulps a) in *.
  set (P1 := Rnd (A + 1500 * whole) 1) in *.
  set (P2 := Rnd (- A + 1500 * whole) 1) in *.
  (* from below: each width is at least the whole part of its argument *)
  set (n := A / whole).
  pose proof (Z.div_mod A whole ltac:(lia)) as En. fold n in En.
  pose proof (Z.mod_pos_bound A whole HW) as Bn.
  assert (Hn : -601 <= n <= 600).
  { unfold n. split.
    - apply Z.div_le_lower_bound; lia.
    - apply Z.div_le_upper_bound; lia. }
  assert (H1 : (n + 1500) * whole <= P1).
  { rewrite <- (Rnd_whole (n + 1500)) by lia. apply Rnd_mono; nia. }
  assert (H2 : (1499 - n) * whole <= P2).
  { rewrite <- (Rnd_whole (1499 - n)) by lia. apply Rnd_mono; nia. }
  assert (Hq1 : n + 1500 <= q1) by (apply Z.div_le_lower_bound; lia).
  assert (Hq2 : 1499 - n <= q2) by (apply Z.div_le_lower_bound; lia).
  (* from above: the sum of the widths *)
  pose proof (Z.mul_div_le P1 whole HW) as L1. fold q1 in L1.
  pose proof (Z.mul_div_le P2 whole HW) as L2. fold q2 in L2.
  assert (Hlt : 2 ^ 1033 < whole) by reflexivity.
  set (T := 2 ^ 1033) in *. clearbody T.
  assert (Hup : whole * (q1 + q2) < whole * 3001) by lia.
  apply Z.mul_lt_mono_pos_l in Hup; [|exact HW]. lia.
Qed.

(** **** The pulses *)

Lemma throttle_pulse_in_range (v : float) :
  Binary64.throttle_in_range v = true ->
  exists us : Z,
    Binary64.throttle_pulse v = Some us
    /\ us = throttle_units (ulps (Prim2SF v)) / whole
    /\ THROTTLE_MIN_PULSE_LENGTH_USEC <= us <= THROTTLE_MAX_PULSE_LENGTH_USEC.
Proof.
  intros Hin.
  destruct (throttle_usec_units v Hin) as [V [F U]].
  destruct (throttle_in_range_units v Hin) as [_ B].
  destruct (throttle_units_steps _ B) as [_ [_ B3]].
  rewrite <- U in B3.
  destruct (to_int_units _ 900 2100 F B3 ltac:(lia) ltac:(discriminate))
    as [us [E [Eu Bu]]].
  exists us. rewrite <- U. split; [exact E|]. split; [exact Eu|exact Bu].
Qed.

Lemma throttle_pulse_out_of_range (v : float) :
  Binary64.throttle_in_range v = false ->
  Binary64.throttle_pulse v = Some THROTTLE_MIN_PULSE_LENGTH_USEC.
Proof.
  intros H. unfold Binary64.throttle_pulse, Binary64.throttle_usec.
  unfold Binary64.throttle_in_range in H. rewrite H.
  vm_compute. reflexivity.
Qed.

Lemma rudder_pulse_in_range (v : float) :
  Binary64.rudder_in_range v = true ->
  exists us : Z,
    Binary64.rudder_pulse v = Some us
    /\ us = rudder_units (ulps (Prim2SF v)) / whole
    /\ RUDDER_MIN_PULSE_LENGTH_USEC <= us <= RUDDER_MAX_PULSE_LENGTH_USEC.
Proof.
  intros Hin.
  destruct (rudder_usec_units v Hin) as [V [F [U B]]].
  rewrite <- U in B.
  destruct (to_int_units _ 900 2100 F B ltac:(lia) ltac:(discriminate))
    as [us [E [Eu Bu]]].
  exists us. rewrite <- U. split; [exact E|]. split; [exact Eu|exact Bu].
Qed.

Lemma rudder_pulse_out_of_range (v : float) :
  Binary64.rudder_in_range v = false ->
  Binary64.rudder_pulse v = Some 1500.
Proof.
  intros H. unfold Binary64.rudder_pulse, Binary64.rudder_usec.
  unfold Binary64.rudder_in_range in H. rewrite H.
  vm_compute. reflexivity.
Qed.

Lemma throttle_pulse_defined (v : float) :
  exists us : Z,
    Binary64.throttle_pulse v = Some us
    /\ THROTTLE_MIN_PULSE_LENGTH_USEC <= us <= THROTTLE_MAX_PULSE_LENGTH_USEC.
Proof.
  destruct (Binary64.throttle_in_range v) eqn:Hin.
  - destruct (throttle_pulse_in_range v Hin) as [us [E [_ B]]].
    exists us. split; assumption.
  - exists THROTTLE_MIN_PULSE_LENGTH_USEC.
    split; [apply throttle_pulse_out_of_range; exact Hin|].
    unfold THROTTLE_MIN_PULSE_LENGTH_USEC, THROTTLE_MAX_PULSE_LENGTH_USEC. lia.
Qed.

Lemma rudder_pulse_defined (v : float) :
  exists us : Z,
    Binary64.rudder_pulse v = Some us
    /\ RUDDER_MIN_PULSE_LENGTH_USEC <= us <= RUDDER_MAX_PULSE_LENGTH_USEC.
Proof.
  destruct (Binary64.rudder_in_range v) eqn:Hin.
  - destruct (rudder_pulse_in_range v Hin) as [us [E [_ B]]].
    exists us. split; assumption.
  - exists 1500.
    split; [apply rudder_pulse_out_of_range; exact Hin|].
    unfold RUDDER_MIN_PULSE_LENGTH_USEC, RUDDER_MAX_PULSE_LENGTH_USEC. lia.
Qed.

Lemma leb_units (v1 v2 : float) :
  finite_or_zero (Prim2SF v1) -> finite_or_zero (Prim2SF v2) ->
  (v1 <=? v2)%float = true -> ulps (Prim2SF v1) <= ulps (Prim2SF v2).
Proof.
  intros F1 F2 H. rewrite leb_spec in H.
  rewrite (SFleb_ulps _ _ (Prim2SF_valid v1) (Prim2SF_valid v2) F1 F2) in H.
  apply Z.leb_le. exact H.
Qed.

Lemma throttle_pulse_mono (v1 v2 : float) (u1 u2 : Z) :
  Binary64.throttle_in_range v1 = true ->
  Binary64.throttle_in_range v2 = true ->
  (v1 <=? v2)%float = true ->
  Binary64.throttle_pulse v1 = Some u1 ->
  Binary64.throttle_pulse v2 = Some u2 ->
  u1 <= u2.
Proof.
  intros H1 H2 Hle E1 E2.
  destruct (throttle_pulse_in_range v1 H1) as [w1 [E1' [U1 _]]].
  destruct (throttle_pulse_in_range v2 H2) as [w2 [E2' [U2 _]]].
  rewrite E1 in E1'. rewrite E2 in E2'.
  injection E1' as <-. injection E2' as <-. subst u1 u2.
  destruct (throttle_in_range_units v1 H1) as [F1 B1].
  destruct (throttle_in_range_units v2 H2) as [F2 B2].
  pose proof (leb_units v1 v2 (fin_nonneg_finite_or_zero _ F1)
                (fin_nonneg_finite_or_zero _ F2) Hle) as HU.
  apply Z.div_le_mono; [exact whole_pos|].
  apply throttle_units_mono; lia.
Qed.

Lemma rudder_signed_offset_mono (X1 X2 : Z) :
  X1 <= X2 -> Z.abs X1 <= 100 * whole -> Z.abs X2 <= 100 * whole ->
  Z.sgn X1 * rudder_offset (Z.abs X1) <= Z.sgn X2 * rudder_offset (Z.abs X2).
Proof.
  intros H12 B1 B2.
  pose proof (rudder_offset_steps (Z.abs X1) ltac:(lia)) as [_ O1].
  pose proof (rudder_offset_steps (Z.abs X2) ltac:(lia)) as [_ O2].
  destruct (Z.sgn_spec X1) as [[S1 ->]|[[S1 ->]|[S1 ->]]];
    destruct (Z.sgn_spec X2) as [[S2 ->]|[[S2 ->]|[S2 ->]]]; try lia.
  - pose proof (rudder_offset_mono (Z.abs X1) (Z.abs X2) ltac:(lia) ltac:(lia)).
    lia.
  - pose proof (rudder_offset_mono (Z.abs X2) (Z.abs X1) ltac:(lia) ltac:(lia)).
    lia.
Qed.

Lemma rudder_units_mono (X1 X2 : Z) :
  X1 <= X2 -> Z.abs X1 <= 100 * whole -> Z.abs X2 <= 100 * whole ->
  rudder_units X1 <= rudder_units X2.
Proof.
  intros H12 B1 B2. pose proof whole_pos as HW.
  pose proof (rudder_signed_offset_mono X1 X2 H12 B1 B2) as Hm.
  pose proof (rudder_offset_steps (Z.abs X1) ltac:(lia)) as [_ O1].
  assert (H0 : 0 <= Z.sgn X1 * rudder_offset (Z.abs X1) + 1500 * whole).
  { destruct (Z.sgn_spec X1) as [[S1 E]|[[S1 E]|[S1 E]]]; rewrite E; lia. }
  unfold rudder_units. apply Rnd_mono; lia.
Qed.

Lemma rudder_pulse_mono (v1 v2 : float) (u1 u2 : Z) :
  Binary64.rudder_in_range v1 = true ->
  Binary64.rudder_in_range v2 = true ->
  (v1 <=? v2)%float = true ->
  Binary64.rudder_pulse v1 = Some u1 ->
  Binary64.rudder_pulse v2 = Some u2 ->
  u1 <= u2.
Proof.
  intros H1 H2 Hle E1 E2.
  destruct (rudder_pulse_in_range v1 H1) as [w1 [E1' [U1 _]]].
  destruct (rudder_pulse_in_range v2 H2) as [w2 [E2' [U2 _]]].
  rewrite E1 in E1'. rewrite E2 in E2'.
  injection E1' as <-. injection E2' as <-. subst u1 u2.
  apply rudder_in_range_units in H1 as [F1 B1].
  apply rudder_in_range_units in H2 as [F2 B2].
  pose proof (leb_units v1 v2 F1 F2 Hle) as HU.
  apply Z.div_le_mono; [exact whole_pos|].
  apply rudder_units_mono; assumption.
Qed.

(** **** The two formulas as the specification writes them *)

Lemma throttle_usec_as_specified (v : float) :
  Binary64.throttle_in_range v = true ->
  Binary64.throttle_usec v
  = (Binary64.of_int THROTTLE_MIN_PULSE_LENGTH_USEC
     + v / 100 * (Binary64.of_int THROTTLE_MAX_PULSE_LENGTH_USEC
                  - Binary64.of_int THROTTLE_MIN_PULSE_LENGTH_USEC))%float.
Proof.
  intros H. unfold Binary64.throttle_usec.
  unfold Binary64.throttle_in_range in H. rewrite H.
  rewrite add_comm. reflexivity.
Qed.

Lemma rudder_usec_as_specified (v : float) :
  Binary64.rudder_in_range v = true ->
  Binary64.rudder_usec v
  = (Binary64.RUDDER_CENTRE_PULSE_LENGTH_USEC
     + v / 200 * (Binary64.of_int RUDDER_MAX_PULSE_LENGTH_USEC
                  - Binary64.of_int RUDDER_MIN_PULSE_LENGTH_USEC))%float.
Proof.
  intros H. unfold Binary64.rudder_usec.
  unfold Binary64.rudder_in_range in H. rewrite H.
  rewrite add_comm. reflexivity.
Qed.

(** **** The symmetry of the rudder map *)

Lemma opp_in_range (v : float) :
  Binary64.rudder_in_range v = true -> Binary64.rudder_in_range (- v) = true.
Proof.
  intros H. unfold Binary64.rudder_in_range in *.
  apply rudder_in_range_units in H as [F B].
  apply rudder_in_range_units. rewrite opp_spec, ulps_opp, Z.abs_opp.
  split; [apply finite_or_zero_opp; exact F|exact B].
Qed.

Lemma rudder_widths_sum (v : float) :
  Binary64.rudder_in_range v = true ->
  (Binary64.rudder_usec v + Binary64.rudder_usec (- v))%float = 3000%float.
Proof.
  intros Hin. pose proof (opp_in_range v Hin) as Hin'.
  apply Prim2SF_inj. rewrite add_spec, Prim2SF_3000.
  rewrite (rudder_usec_SF v Hin), (rudder_usec_SF (- v) Hin').
  rewrite opp_spec, rudder_offset_SF_opp.
  apply rudder_in_range_units in Hin as [F B].
  destruct (rudder_offset_SF_signed _ (Prim2SF_valid v) F B)
    as [Va [Fa [_ Ba]]].
  set (a := rudder_offset_SF (Prim2SF v)) in *.
  destruct (rudder_add a Va Fa Ba) as [V1 [F1 [U1 B1]]].
  destruct (rudder_add (SFopp a)) as [V2 [F2 [U2 B2]]].
  { rewrite valid_opp. exact Va. }
  { apply finite_or_zero_opp. exact Fa. }
  { rewrite ulps_opp, Z.abs_opp. exact Ba. }
  rewrite ulps_opp in U2, B2.
  pose proof (centre_sum_units a Va Fa Ba) as Hsum.
  set (c := S754_finite false 6597069766656000 (-42)) in *.
  set (w1 := SFadd prec emax a c) in *.
  set (w2 := SFadd prec emax (SFopp a) c) in *.
  pose proof whole_pos as HW.
  destruct (SFadd_spec w1 w2 V1 V2 (fin_nonneg_finite_or_zero _ F1)
              (fin_nonneg_finite_or_zero _ F2)) as [Vs [Fs Us]].
  { rewrite U1, U2. lia. }
  { rewrite U1, U2.
    pose proof (digits_le_of_lt (Rnd (ulps a + 1500 * whole) 1
                                 + Rnd (- ulps a + 1500 * whole) 1)
                  4200 ltac:(lia) ltac:(lia) ltac:(lia)). lia. }
  rewrite U1, U2, (Rnd_near_3000 _ Hsum) in Us.
  unfold SF64add.
  destruct (SFadd prec emax w1 w2) as [s|s| |[] m e]; try contradiction.
  - cbn [ulps] in Us. lia.
  - apply ulps_inj; [exact Vs|reflexivity|]. rewrite Us, ulps_3000. reflexivity.
Qed.

Lemma rudder_pulse_symmetric (v : float) :
  Binary64.rudder_in_range v = true ->
  exists p q : Z,
    Binary64.rudder_pulse v = Some p
    /\ Binary64.rudder_pulse (- v) = Some q
    /\ (p + q = 3000 \/ p + q = 2999).
Proof.
  intros Hin. pose proof (opp_in_range v Hin) as Hin'.
  destruct (rudder_pulse_in_range v Hin) as [p [Ep [Up _]]].
  destruct (rudder_pulse_in_range (- v) Hin') as [q [Eq [Uq _]]].
  exists p, q. split; [exact Ep|]. split; [exact Eq|].
  apply rudder_in_range_units in Hin as [F B].
  destruct (rudder_offset_SF_signed _ (Prim2SF_valid v) F B)
    as [Va [Fa [Ua Ba]]].
  pose proof (centre_sum_pulses _ Va Fa Ba) as Hp. cbv zeta in Hp.
  rewrite Ua in Hp.
  unfold rudder_units in Up, Uq.
  rewrite opp_spec, ulps_opp, Z.sgn_opp, Z.abs_opp in Uq.
  rewrite Z.mul_opp_l in Uq.
  rewrite Up, Uq. exact Hp.
Qed.

(** **** Comparisons that fail *)

Lemma SFcompare_swap (x y : spec_float) :
  SFcompare x y = Some Lt -> SFcompare y x = Some Gt.
Proof.
  destruct x as [sx|sx| |sx mx ex], y as [sy|sy| |sy my ey];
    try destruct sx; try destruct sy; cbn; try congruence.
  - rewrite (Z.compare_antisym ex ey).
    change (Pos.compare_cont Eq my mx)
      with (Pos.compare_cont (CompOpp Eq) my mx).
    rewrite <- (Pos.compare_cont_antisym mx my Eq).
    destruct (ex ?= ey)%Z, (Pos.compare_cont Eq mx my); cbn; congruence.
  - rewrite (Z.compare_antisym ex ey).
    change (Pos.compare_cont Eq my mx)
      with (Pos.compare_cont (CompOpp Eq) my mx).
    rewrite <- (Pos.compare_cont_antisym mx my Eq).
    destruct (ex ?= ey)%Z, (Pos.compare_cont Eq mx my); cbn; congruence.
Qed.

Lemma ltb_not_leb (x y : float) : (x <? y)%float = true -> (y <=? x)%float = false.
Proof.
  rewrite ltb_spec, leb_spec. unfold SFltb, SFleb.
  destruct (SFcompare (Prim2SF x) (Prim2SF y)) as [[]|] eqn:H;
    try discriminate.
  intros _. rewrite (SFcompare_swap _ _ H). reflexivity.
Qed.

(** **** The pass of the control loop *)

Lemma binary64_pulses_on_app (ch : Z) (tr1 tr2 : list Binary64.event) :
  Binary64.pulses_on ch (tr1 ++ tr2)
  = Binary64.pulses_on ch tr1 ++ Binary64.pulses_on ch tr2.
Proof.
  induction tr1 as [|ev tr1 IH]; [reflexivity|].
  destruct ev; cbn [app Binary64.pulses_on]; try exact IH.
  destruct (Z.eqb ch0 ch); cbn [app]; rewrite IH; reflexivity.
Qed.

Lemma control_cycle_defined (d : Binary64.demand) :
  exists t_us r_us : Z,
    Binary64.throttle_pulse (Binary64.throttle d) = Some t_us
    /\ Binary64.rudder_pulse (Binary64.rudder d) = Some r_us
    /\ THROTTLE_MIN_PULSE_LENGTH_USEC <= t_us <= THROTTLE_MAX_PULSE_LENGTH_USEC
    /\ RUDDER_MIN_PULSE_LENGTH_USEC <= r_us <= RUDDER_MAX_PULSE_LENGTH_USEC
    /\ exists tr : list Binary64.event,
         Binary64.control_cycle d = Some tr
         /\ Binary64.pulses_on THROTTLE_SERVO tr = [t_us]
         /\ Binary64.pulses_on RUDDER_SERVO tr = [r_us]
         /\ Forall Binary64.pulse_within tr.
Proof.
  destruct (throttle_pulse_defined (Binary64.throttle d)) as [t [Et Bt]].
  destruct (rudder_pulse_defined (Binary64.rudder d)) as [r [Er Br]].
  exists t, r. split; [exact Et|]. split; [exact Er|].
  split; [exact Bt|]. split; [exact Br|].
  unfold Binary64.control_cycle. rewrite Et, Er.
  eexists. split; [reflexivity|].
  unfold THROTTLE_MIN_PULSE_LENGTH_USEC, THROTTLE_MAX_PULSE_LENGTH_USEC,
    RUDDER_MIN_PULSE_LENGTH_USEC, RUDDER_MAX_PULSE_LENGTH_USEC in Bt, Br.
  destruct (Binary64.throttle_in_range (Binary64.throttle d)),
    (Binary64.rudder_in_range (Binary64.rudder d));
    (split; [reflexivity|]); (split; [reflexivity|]);
    repeat (apply Forall_cons; [cbn [Binary64.pulse_within]|]);
    try exact I; try apply Forall_nil;
    unfold THROTTLE_MIN_PULSE_LENGTH_USEC, THROTTLE_MAX_PULSE_LENGTH_USEC; lia.
Qed.

Lemma control_loop_defined (snapshots : list Binary64.demand) :
  exists tr : list Binary64.event,
    Binary64.control_loop snapshots = Some tr
    /\ Forall Binary64.pulse_within tr.
Proof.
  induction snapshots as [|d rest [tr' [E' F']]].
  - exists []. split; [reflexivity|constructor].
  - destruct (control_cycle_defined d) as [t [r [_ [_ [_ [_ [tr [E [_ [_ F]]]]]]]]]].
    exists (tr ++ tr'). cbn [Binary64.control_loop]. rewrite E, E'.
    split; [reflexivity|]. apply Forall_app. split; assumption.
Qed.

(** ** C5 *)

(** A counterexample to C5 as stated: at a throttle demand of 0.125 the
    formula gives 901.5 microseconds, and the pulse the control loop sends
    is 901. *)
Lemma throttle_pulse_drops_fraction :
  Binary64.throttle_in_range 0.125 = true
  /\ Binary64.throttle_usec 0.125 = 901.5%float
  /\ Binary64.control_cycle (Binary64.Demand 0.125 0)
     = Some [Binary64.SendPulse THROTTLE_SERVO 901;
             Binary64.SendPulse RUDDER_SERVO 1500;
             Binary64.Usleep 20000]
  /\ (Binary64.of_int 901 =? Binary64.throttle_usec 0.125)%float = false.
Proof.
  split; [reflexivity|]. split; [reflexivity|].
  split; [vm_compute; reflexivity|]. reflexivity.
Qed.

(** C5, as amended.  In binary64 arithmetic, for every throttle demand
    [v] with [0 <= v <= 100] the control loop computes
    [min_usec + (v/100.0) * (max_usec - min_usec)], one rounding per
    operation, and passes it to [rc_servo_send_pulse_us] as an [int]: the
    pulse sent is the whole part of that value, and it lies between
    [min_usec] and [max_usec].  The pulse is [min_usec] at 0 and
    [max_usec] at 100, and it never falls when the demand grows within
    [0,100].  For every [v < 0] or [v > 100] the pulse sent is [min_usec],
    and the loop goes on through all further snapshots. *)
Theorem throttle_mapping :
  (forall d : Binary64.demand,
      Binary64.throttle_in_range (Binary64.throttle d) = true ->
      exists us : Z,
        Binary64.to_int
          (Binary64.of_int THROTTLE_MIN_PULSE_LENGTH_USEC
           + Binary64.throttle d / 100
             * (Binary64.of_int THROTTLE_MAX_PULSE_LENGTH_USEC
                - Binary64.of_int THROTTLE_MIN_PULSE_LENGTH_USEC))%float
        = Some us
        /\ THROTTLE_MIN_PULSE_LENGTH_USEC <= us <= THROTTLE_MAX_PULSE_LENGTH_USEC
        /\ exists tr : list Binary64.event,
             Binary64.control_cycle d = Some tr
             /\ Binary64.pulses_on THROTTLE_SERVO tr = [us])
  /\ Binary64.throttle_pulse 0 = Some THROTTLE_MIN_PULSE_LENGTH_USEC
  /\ Binary64.throttle_pulse 100 = Some THROTTLE_MAX_PULSE_LENGTH_USEC
  /\ (forall v w : float,
        Binary64.throttle_in_range v = true ->
        Binary64.throttle_in_range w = true ->
        (v <=? w)%float = true ->
        exists p q : Z,
          Binary64.throttle_pulse v = Some p
          /\ Binary64.throttle_pulse w = Some q
          /\ p <= q)
  /\ (forall (d : Binary64.demand) (snapshots : list Binary64.demand),
        (Binary64.throttle d <? 0)%float = true
        \/ (100 <? Binary64.throttle d)%float = true ->
        exists tr rest : list Binary64.event,
          Binary64.control_cycle d = Some tr
          /\ Binary64.pulses_on THROTTLE_SERVO tr
             = [THROTTLE_MIN_PULSE_LENGTH_USEC]
          /\ Binary64.control_loop snapshots = Some rest
          /\ Binary64.control_loop (d :: snapshots) = Some (tr ++ rest)).
Proof.
  split; [|split; [|split; [|split]]].
  - intros d Hin.
    destruct (control_cycle_defined d) as [t [r [Et [_ [Bt [_ [tr [E [Pt _]]]]]]]]].
    exists t. rewrite <- (throttle_usec_as_specified _ Hin).
    split; [exact Et|]. split; [exact Bt|].
    exists tr. split; assumption.
  - vm_compute. reflexivity.
  - vm_compute. reflexivity.
  - intros v w Hv Hw Hle.
    destruct (throttle_pulse_defined v) as [p [Ep _]].
    destruct (throttle_pulse_defined w) as [q [Eq _]].
    exists p, q. split; [exact Ep|]. split; [exact Eq|].
    exact (throttle_pulse_mono v w p q Hv Hw Hle Ep Eq).
  - intros d snapshots Hout.
    assert (Hr : Binary64.throttle_in_range (Binary64.throttle d) = false).
    { unfold Binary64.throttle_in_range. apply andb_false_iff.
      destruct Hout as [H|H]; [left|right]; apply ltb_not_leb; exact H. }
    destruct (control_cycle_defined d) as [t [r [Et [_ [_ [_ [tr [E [Pt _]]]]]]]]].
    destruct (control_loop_defined snapshots) as [rest [El _]].
    exists tr, rest.
    rewrite (throttle_pulse_out_of_range _ Hr) in Et. injection Et as <-.
    split; [exact E|]. split; [exact Pt|]. split; [exact El|].
    cbn [Binary64.control_loop]. rewrite E, El. reflexivity.
Qed.

(** The amended C5 at half throttle, at a quarter and three quarters, and
    at a demand of 150 followed by one of 50. *)
Lemma throttle_mapping_witness :
  (exists tr : list Binary64.event,
      Binary64.control_cycle (Binary64.Demand 50 0) = Some tr
      /\ Binary64.pulses_on THROTTLE_SERVO tr = [1500])
  /\ (exists p q : Z,
        Binary64.throttle_pulse 25 = Some p
        /\ Binary64.throttle_pulse 75 = Some q /\ p <= q)
  /\ (exists tr rest : list Binary64.event,
        Binary64.control_cycle (Binary64.Demand 150 0) = Some tr
        /\ Binary64.pulses_on THROTTLE_SERVO tr = [900]
        /\ Binary64.control_loop [Binary64.Demand 50 0] = Some rest
        /\ Binary64.control_loop [Binary64.Demand 150 0; Binary64.Demand 50 0]
           = Some (tr ++ rest)).
Proof.
  destruct throttle_mapping as [Hf [_ [_ [Hm Hout]]]].
  split; [|split].
  - destruct (Hf (Binary64.Demand 50 0) eq_refl) as [us [Eu [_ [tr [E P]]]]].
    exists tr. split; [exact E|].
    vm_compute in Eu. injection Eu as <-. exact P.
  - apply (Hm 25%float 75%float); reflexivity.
  - apply (Hout (Binary64.Demand 150 0) [Binary64.Demand 50 0]).
    right. reflexivity.
Defined.

(** ** C6 *)

(** A counterexample to C6 as stated: the pulses sent for a quarter to
    starboard and a quarter to port are 1501 and 1498, which add up to
    2999, one short of twice the centre pulse. *)
Lemma rudder_pulses_not_symmetric :
  Binary64.rudder_in_range 0.25 = true
  /\ Binary64.control_cycle (Binary64.Demand 0 0.25)
     = Some [Binary64.SendPulse THROTTLE_SERVO 900;
             Binary64.SendPulse RUDDER_SERVO 1501;
             Binary64.Usleep 20000]
  /\ Binary64.control_cycle (Binary64.Demand 0 (-0.25))
     = Some [Binary64.SendPulse THROTTLE_SERVO 900;
             Binary64.SendPulse RUDDER_SERVO 1498;
             Binary64.Usleep 20000]
  /\ Binary64.to_int Binary64.RUDDER_CENTRE_PULSE_LENGTH_USEC = Some 1500
  /\ 1501 + 1498 <> 2 * 1500.
Proof.
  split; [reflexivity|].
  split; [vm_compute; reflexivity|].
  split; [vm_compute; reflexivity|].
  split; [vm_compute; reflexivity|]. discriminate.
Qed.

(** C6, as amended.  The centre pulse is
    [min_usec + (max_usec - min_usec)/2], which is 1500.  In binary64
    arithmetic, for every rudder demand [v] with [-100 <= v <= 100] the
    control loop computes [centre_usec + (v/200.0) * (max_usec - min_usec)],
    one rounding per operation, and sends its whole part, which lies
    between [min_usec] and [max_usec].  The widths computed for [v] and
    for [-v] add up to [2 * centre_usec] exactly; the pulses sent for [v]
    and for [-v] add up to [2 * centre_usec] or to one less.  At 0 the
    pulse is [centre_usec], and for every [v < -100] or [v > 100] it is
    [centre_usec]. *)
Theorem rudder_mapping :
  Binary64.RUDDER_CENTRE_PULSE_LENGTH_USEC
  = (Binary64.of_int RUDDER_MIN_PULSE_LENGTH_USEC
     + (Binary64.of_int RUDDER_MAX_PULSE_LENGTH_USEC
        - Binary64.of_int RUDDER_MIN_PULSE_LENGTH_USEC) / 2)%float
  /\ Binary64.to_int Binary64.RUDDER_CENTRE_PULSE_LENGTH_USEC = Some 1500
  /\ (forall d : Binary64.demand,
        Binary64.rudder_in_range (Binary64.rudder d) = true ->
        exists us : Z,
          Binary64.to_int
            (Binary64.RUDDER_CENTRE_PULSE_LENGTH_USEC
             + Binary64.rudder d / 200
               * (Binary64.of_int RUDDER_MAX_PULSE_LENGTH_USEC
                  - Binary64.of_int RUDDER_MIN_PULSE_LENGTH_USEC))%float
          = Some us
          /\ RUDDER_MIN_PULSE_LENGTH_USEC <= us <= RUDDER_MAX_PULSE_LENGTH_USEC
          /\ exists tr : list Binary64.event,
               Binary64.control_cycle d = Some tr
               /\ Binary64.pulses_on RUDDER_SERVO tr = [us])
  /\ (forall v : float,
        Binary64.rudder_in_range v = true ->
        (Binary64.rudder_usec v + Binary64.rudder_usec (- v)
         = 2 * Binary64.RUDDER_CENTRE_PULSE_LENGTH_USEC)%float
        /\ exists p q : Z,
             Binary64.rudder_pulse v = Some p
             /\ Binary64.rudder_pulse (- v) = Some q
             /\ (p + q = 2 * 1500 \/ p + q = 2 * 1500 - 1))
  /\ Binary64.rudder_pulse 0 = Some 1500
  /\ (forall d : Binary64.demand,
        (Binary64.rudder d <? -100)%float = true
        \/ (100 <? Binary64.rudder d)%float = true ->
        exists tr : list Binary64.event,
          Binary64.control_cycle d = Some tr
          /\ Binary64.pulses_on RUDDER_SERVO tr = [1500]).
Proof.
  split; [vm_compute; reflexivity|].
  split; [vm_compute; reflexivity|].
  split; [|split; [|split]].
  - intros d Hin.
    destruct (control_cycle_defined d) as [t [r [_ [Er [_ [Br [tr [E [_ [Pr _]]]]]]]]]].
    exists r. rewrite <- (rudder_usec_as_specified _ Hin).
    split; [exact Er|]. split; [exact Br|].
    exists tr. split; assumption.
  - intros v Hin. split.
    + rewrite (rudder_widths_sum v Hin). vm_compute. reflexivity.
    + exact (rudder_pulse_symmetric v Hin).
  - vm_compute. reflexivity.
  - intros d Hout.
    assert (Hr : Binary64.rudder_in_range (Binary64.rudder d) = false).
    { unfold Binary64.rudder_in_range. apply andb_false_iff.
      destruct Hout as [H|H]; [left|right]; apply ltb_not_leb; exact H. }
    destruct (control_cycle_defined d) as [t [r [_ [Er [_ [_ [tr [E [_ [Pr _]]]]]]]]]].
    exists tr.
    rewrite (rudder_pulse_out_of_range _ Hr) in Er. injection Er as <-.
    split; [exact E|exact Pr].
Qed.

(** The amended C6 at 40 to starboard and 40 to port, at a quarter, and
    at 250. *)
Lemma rudder_mapping_witness :
  (exists tr : list Binary64.event,
      Binary64.control_cycle (Binary64.Demand 0 40) = Some tr
      /\ Binary64.pulses_on RUDDER_SERVO tr = [1740])
  /\ (Binary64.rudder_usec 0.25 + Binary64.rudder_usec (- 0.25) = 3000)%float
  /\ (exists tr : list Binary64.event,
        Binary64.control_cycle (Binary64.Demand 0 250) = Some tr
        /\ Binary64.pulses_on RUDDER_SERVO tr = [1500]).
Proof.
  destruct rudder_mapping as [_ [_ [Hf [Hs [_ Hout]]]]].
  split; [|split].
  - destruct (Hf (Binary64.Demand 0 40) eq_refl) as [us [Eu [_ [tr [E P]]]]].
    exists tr. split; [exact E|].
    vm_compute in Eu. injection Eu as <-. exact P.
  - exact (proj1 (Hs 0.25%float eq_refl)).
  - apply (Hout (Binary64.Demand 0 250)). right. reflexivity.
Defined.

End Binary64Maps.

(** ** C7 *)

Lemma throttle_in_range_compat (v w : double) :
  v == w -> throttle_in_range v = throttle_in_range w.
Proof.
  intros E. unfold throttle_in_range. rewrite E. reflexivity.
Qed.

Lemma rudder_in_range_compat (v w : double) :
  v == w -> rudder_in_range v = rudder_in_range w.
Proof.
  intros E. unfold rudder_in_range. rewrite E. reflexivity.
Qed.

Lemma throttle_usec_compat (v w : double) :
  v == w -> throttle_usec v == throttle_usec w.
Proof.
  intros E. unfold throttle_usec.
  rewrite (throttle_in_range_compat v w E).
  destruct (throttle_in_range w); [rewrite E|]; reflexivity.
Qed.

Lemma rudder_usec_compat (v w : double) :
  v == w -> rudder_usec v == rudder_usec w.
Proof.
  intros E. unfold rudder_usec.
  rewrite (rudder_in_range_compat v w E).
  destruct (rudder_in_range w); [rewrite E|]; reflexivity.
Qed.

(** C7.  In one pass of the control loop the pulse sent on the rudder
    channel is fixed by the rudder demand alone, and the pulse sent on the
    throttle channel by the throttle demand alone: two snapshots with the
    same rudder give the same rudder pulse whatever their throttles are,
    in range or not, and the other way round. *)
Theorem axes_are_independent (d1 d2 : demand) :
  (rudder d1 == rudder d2 ->
   Forall2 Qeq (pulses_on RUDDER_SERVO (control_cycle d1))
               (pulses_on RUDDER_SERVO (control_cycle d2)))
  /\ (throttle d1 == throttle d2 ->
      Forall2 Qeq (pulses_on THROTTLE_SERVO (control_cycle d1))
                  (pulses_on THROTTLE_SERVO (control_cycle d2))).
Proof.
  split; intros E.
  - rewrite (proj2 (control_cycle_pulses d1)), (proj2 (control_cycle_pulses d2)).
    constructor; [apply rudder_usec_compat; exact E | constructor].
  - rewrite (proj1 (control_cycle_pulses d1)), (proj1 (control_cycle_pulses d2)).
    constructor; [apply throttle_usec_compat; exact E | constructor].
Qed.

(** C7 at a rudder demand of 40 with a throttle of 50 and with one of
    250, which is out of range: the rudder pulse is 1740 in both. *)
Lemma axes_are_independent_witness :
  Forall2 Qeq (pulses_on RUDDER_SERVO (control_cycle (Demand 50 40)))
              (pulses_on RUDDER_SERVO (control_cycle (Demand 250 40)))
  /\ pulses_on RUDDER_SERVO (control_cycle (Demand 250 40)) = [rudder_usec 40].
Proof.
  split.
  - apply (proj1 (axes_are_independent (Demand 50 40) (Demand 250 40))).
    reflexivity.
  - reflexivity.
Defined.

(** ** C8 *)

Lemma control_cycle_keeps_power (d : demand) :
  existsb power_off (control_cycle d) = false.
Proof.
  unfold control_cycle.
  destruct (throttle_in_range (throttle d)), (rudder_in_range (rudder d));
    reflexivity.
Qed.

Lemma run_threads_keeps_power (listening : bool) (sched : list turn) :
  forall shared : demand,
    existsb power_off (fst (run_threads listening sched shared)) = false.
Proof.
  induction sched as [|[r|] sched IH]; intros shared.
  - reflexivity.
  - cbn [run_threads]. destruct listening; [|apply IH].
    destruct (commsThread_iteration r) as [published|f]; [apply IH | reflexivity].
  - cbn [run_threads]. specialize (IH shared).
    destruct (run_threads listening sched shared) as [tr res].
    cbn [fst] in IH |- *.
    rewrite existsb_app, control_cycle_keeps_power, IH. reflexivity.
Qed.

Lemma wait_battery_keeps_power (reads : list double) :
  existsb power_off (fst (wait_battery reads)) = false.
Proof.
  induction reads as [|v reads IH]; [reflexivity|].
  cbn [wait_battery]. destruct (Qle_bool 6 v); [reflexivity|].
  destruct (wait_battery reads) as [tr ok]. exact IH.
Qed.

Lemma commsThread_setup_keeps_power (e : env) :
  existsb power_off (snd (commsThread_setup e)) = false.
Proof.
  unfold commsThread_setup.
  destruct (socket_rc e <? 0)%Z; [reflexivity|].
  destruct (sockopt_reuse_rc e <? 0)%Z; [reflexivity|].
  destruct (sockopt_timeo_rc e <? 0)%Z; [reflexivity|].
  destruct (bind_rc e <? 0)%Z; reflexivity.
Qed.

(** The runs that come back from [main] with status 0 are those that got
    past the start-up and were not killed in the loop. *)
Lemma main_exits_zero_iff (e : env) :
  snd (main e) = Exited 0
  <-> adc_init_rc e = 0%Z
      /\ snd (wait_battery (batt_reads e)) = true
      /\ servo_init_rc e = 0%Z
      /\ exists shared : demand,
           snd (run_threads (fst (commsThread_setup e)) (schedule e)
                            zero_demand) = Ok shared.
Proof.
  unfold main.
  destruct (Z.eqb_spec (adc_init_rc e) 0) as [Hadc|Hadc]; cbn [negb].
  2:{ split; [discriminate | intros [H _]; contradiction]. }
  destruct (wait_battery (batt_reads e)) as [waits charged]. cbn [snd].
  destruct charged; cbn [negb].
  2:{ split; [discriminate | intros [_ [H _]]; discriminate]. }
  destruct (Z.eqb_spec (servo_init_rc e) 0) as [Hservo|Hservo]; cbn [negb].
  2:{ split; [discriminate | intros [_ [_ [H _]]]; contradiction]. }
  destruct (commsThread_setup e) as [listening setup]. cbn [fst].
  destruct (run_threads listening (schedule e) zero_demand) as [tr [shared|f]];
    cbn [snd].
  - split; [intros _; repeat split; try assumption; now exists shared
           | reflexivity].
  - split; [discriminate | intros [_ [_ [_ [shared H]]]]; discriminate].
Qed.

(** C8.  Every run that has entered the two loops and leaves them on the
    interrupt, with the thread listening or returned early, ends with the
    throttle pulse [min_usec], the rudder pulse [centre_usec], a sleep, and
    only then the power rail switched off; nothing before these switches
    the rail off, and the rail was switched on. *)
Theorem shutdown_neutral_before_power_off (e : env) :
  adc_init_rc e = 0%Z ->
  snd (wait_battery (batt_reads e)) = true ->
  servo_init_rc e = 0%Z ->
  (exists shared : demand,
      snd (run_threads (fst (commsThread_setup e)) (schedule e) zero_demand)
      = Ok shared) ->
  exists before : list event,
    main e
    = (before
         ++ [SendPulse THROTTLE_SERVO (of_int THROTTLE_MIN_PULSE_LENGTH_USEC);
             SendPulse RUDDER_SERVO RUDDER_CENTRE_PULSE_LENGTH_USEC;
             Usleep 50000; PowerRail 0; ServoCleanup],
       Exited 0)
    /\ existsb power_off before = false
    /\ In (PowerRail 1) before.
Proof.
  intros Hadc Hbatt Hservo [shared Hrun]. unfold main.
  rewrite Hadc, Hservo. cbn [Z.eqb negb].
  pose proof (wait_battery_keeps_power (batt_reads e)) as Hw.
  destruct (wait_battery (batt_reads e)) as [waits charged].
  cbn [snd] in Hbatt. cbn [fst] in Hw. subst charged. cbn [negb].
  pose proof (commsThread_setup_keeps_power e) as Hs.
  destruct (commsThread_setup e) as [listening setup].
  cbn [fst] in Hrun. cbn [snd] in Hs.
  pose proof (run_threads_keeps_power listening (schedule e) zero_demand) as Hr.
  destruct (run_threads listening (schedule e) zero_demand) as [tr res].
  cbn [snd] in Hrun. cbn [fst] in Hr. subst res.
  exists ((waits ++ [AdcCleanup] ++ power_up ++ setup) ++ tr
          ++ (if listening then [SocketClose] else []) ++ [ThreadJoin]).
  split; [|split].
  - unfold shut_down, zero_outputs. f_equal.
    rewrite <- !app_assoc. reflexivity.
  - rewrite !existsb_app, Hw, Hs, Hr. destruct listening; reflexivity.
  - apply in_or_app. left. apply in_or_app. right.
    right. right. left. reflexivity.
Qed.

(** C8 at a run with a datagram, a timeout and three passes of the control
    loop. *)
Lemma shutdown_neutral_before_power_off_witness :
  exists before : list event,
    main (Env 0 [8.1] 0 3 0 0 0
              [MainTurn; CommsTurn (datagram "60,-10"); MainTurn;
               CommsTurn RecvNone; MainTurn])
    = (before
         ++ [SendPulse THROTTLE_SERVO (of_int THROTTLE_MIN_PULSE_LENGTH_USEC);
             SendPulse RUDDER_SERVO RUDDER_CENTRE_PULSE_LENGTH_USEC;
             Usleep 50000; PowerRail 0; ServoCleanup],
       Exited 0)
    /\ existsb power_off before = false
    /\ In (PowerRail 1) before.
Proof.
  apply shutdown_neutral_before_power_off.
  - reflexivity.
  - reflexivity.
  - reflexivity.
  - exists zero_demand. reflexivity.
Defined.

(** ** C10 *)

Lemma consistent_grows (ct cr : Sync.cell) (pubs : list demand) (d : demand) :
  Sync.consistent ct cr pubs -> Sync.consistent ct cr (pubs ++ [d]).
Proof.
  intros [Hw Hn]. split; [exact Hw|].
  rewrite nth_error_app1; [exact Hn|].
  apply nth_error_Some. rewrite Hn. discriminate.
Qed.

Lemma consistent_new (d : demand) (pubs : list demand) :
  Sync.consistent (Sync.Cell (throttle d) (length pubs))
                  (Sync.Cell (rudder d) (length pubs)) (pubs ++ [d]).
Proof.
  split; [reflexivity|]. cbn [Sync.writer Sync.value].
  rewrite nth_error_app2, Nat.sub_diag by lia. destruct d; reflexivity.
Qed.

Lemma sync_init_inv : Sync.inv Sync.init.
Proof.
  unfold Sync.inv, Sync.init. cbn.
  repeat split; discriminate.
Qed.

Lemma sync_exec_inv (a : Sync.action) (s s' : Sync.state) :
  Sync.inv s -> Sync.exec a s = Some s' -> Sync.inv s'.
Proof.
  destruct s as [mu gt gr cpc mpc tt tr pubs].
  unfold Sync.inv, Sync.exec. cbn [Sync.mutex Sync.g_throttle Sync.g_rudder
    Sync.comms_at Sync.main_at Sync.tmpThrottle Sync.tmpRudder Sync.published].
  intros [Hc Hm] Hexec.
  destruct a, cpc, mpc, mu as [[]|];
    try discriminate Hexec;
    try (destruct (commsThread_iteration r); [|discriminate Hexec]);
    injection Hexec as <-;
    cbn [Sync.mutex Sync.g_throttle Sync.g_rudder Sync.comms_at Sync.main_at
         Sync.tmpThrottle Sync.tmpRudder Sync.published] in *;
    repeat match goal with
           | H : _ /\ _ |- _ => destruct H
           | H : Some _ = Some _ |- _ => discriminate H
           | H : None = Some _ |- _ => discriminate H
           | H : ?x <> ?x |- _ => contradiction H; reflexivity
           end;
    subst;
    repeat match goal with
           | |- _ /\ _ => split
           | |- _ <> _ => discriminate
           | |- _ = _ => reflexivity
           | |- _ => assumption
           | |- Sync.consistent _ _ (_ ++ [_]) =>
               first [apply consistent_new | apply consistent_grows]
           end.
Qed.

Lemma sync_run_inv (acts : list Sync.action) :
  forall s s' : Sync.state,
    Sync.inv s -> Sync.run acts s = Some s' -> Sync.inv s'.
Proof.
  induction acts as [|a acts IH]; intros s s' Hinv Hrun.
  - injection Hrun as <-. exact Hinv.
  - cbn [Sync.run] in Hrun.
    destruct (Sync.exec a s) as [s1|] eqn:Hexec; [|discriminate Hrun].
    apply (IH s1 s'); [|exact Hrun].
    apply (sync_exec_inv a s s1); assumption.
Qed.

(** The two critical sections never overlap. *)
Lemma sync_mutual_exclusion (acts : list Sync.action) (s : Sync.state) :
  Sync.run acts Sync.init = Some s ->
  match Sync.comms_at s, Sync.main_at s with
  | (Sync.CStoreThrottle _ | Sync.CStoreRudder _ | Sync.CUnlock _),
    (Sync.MLoadThrottle | Sync.MLoadRudder | Sync.MUnlock) => False
  | _, _ => True
  end.
Proof.
  intros Hrun.
  pose proof (sync_run_inv acts _ _ sync_init_inv Hrun) as [Hc Hm].
  destruct (Sync.comms_at s), (Sync.main_at s); try exact I;
    repeat match goal with H : _ /\ _ |- _ => destruct H end;
    congruence.
Qed.

(** While [commsThread] is between its two stores, [main] cannot enter its
    critical section. *)
Example main_waits_for_the_mutex :
  Sync.run [Sync.CommsReceive (datagram "10,20"); Sync.CommsLock;
            Sync.CommsStoreThrottle; Sync.MainLock] Sync.init = None.
Proof. reflexivity. Qed.

(** C10.  In every interleaving of the two threads, the pair [main] holds
    when it leaves its critical section was stored by one and the same
    publication (or is the initial pair), and it is the pair of that
    publication. *)
Theorem snapshot_is_one_publication
  (acts : list Sync.action) (s : Sync.state) :
  Sync.run acts Sync.init = Some s ->
  Sync.main_at s = Sync.MCompute ->
  Sync.writer (Sync.tmpThrottle s) = Sync.writer (Sync.tmpRudder s)
  /\ nth_error (Sync.published s) (Sync.writer (Sync.tmpThrottle s))
     = Some (Sync.snapshot s).
Proof.
  intros Hrun Hat.
  pose proof (sync_run_inv acts _ _ sync_init_inv Hrun) as [_ Hm].
  rewrite Hat in Hm. destruct Hm as [_ Hm]. exact Hm.
Qed.

(** C10 at [overlapping_publication]. *)
Lemma snapshot_is_one_publication_witness :
  Sync.writer (Sync.tmpThrottle after_overlapping_publication)
  = Sync.writer (Sync.tmpRudder after_overlapping_publication)
  /\ nth_error (Sync.published after_overlapping_publication)
               (Sync.writer (Sync.tmpThrottle after_overlapping_publication))
     = Some (Sync.snapshot after_overlapping_publication).
Proof.
  apply (snapshot_is_one_publication overlapping_publication).
  - reflexivity.
  - reflexivity.
Defined.

(** * Further properties *)

(** ** Parsing: [strtok] against the fields of the payload *)

Lemma close_field_app (cur tok : list ascii) :
  tok <> [] -> close_field (cur ++ tok) = [cur ++ tok].
Proof.
  intros Htok. destruct cur as [|c cur]; [|reflexivity].
  destruct tok; [contradiction | reflexivity].
Qed.

(** Reading a field up to its end is one [scan_token]. *)
Lemma fields_from_scan_token (s : list ascii) :
  forall cur : list ascii,
    fields_from cur s
    = close_field (cur ++ fst (scan_token [","%char] s))
        ++ fields_from [] (snd (scan_token [","%char] s)).
Proof.
  induction s as [|c s IH]; intros cur.
  - cbn. rewrite !app_nil_r. reflexivity.
  - cbn [fields_from scan_token is_delim existsb].
    destruct (Ascii.eqb c NUL) eqn:Hnul.
    + cbn [fst snd fields_from]. rewrite Hnul, !app_nil_r. reflexivity.
    + rewrite orb_false_r. destruct (Ascii.eqb c ",") eqn:Hcomma.
      * cbn [fst snd]. rewrite app_nil_r. reflexivity.
      * rewrite (IH (cur ++ [c])).
        destruct (scan_token [","%char] s) as [tok olds].
        cbn [fst snd]. rewrite <- app_assoc. reflexivity.
Qed.

Lemma fields_from_skip_delims (s : list ascii) :
  fields_from [] (skip_delims [","%char] s) = fields_from [] s.
Proof.
  induction s as [|c s IH]; [reflexivity|].
  cbn [skip_delims is_delim existsb]. rewrite orb_false_r.
  destruct (Ascii.eqb c ",") eqn:Hcomma; [|reflexivity].
  rewrite IH. cbn [fields_from]. rewrite Hcomma.
  destruct (Ascii.eqb c NUL) eqn:Hnul; [|reflexivity].
  apply Ascii.eqb_eq in Hnul, Hcomma. rewrite Hcomma in Hnul.
  discriminate Hnul.
Qed.

Lemma scan_token_nonempty (c : ascii) (s : list ascii) :
  Ascii.eqb c NUL = false ->
  is_delim [","%char] c = false ->
  fst (scan_token [","%char] (c :: s)) <> [].
Proof.
  intros Hnul Hdelim. cbn [scan_token]. rewrite Hnul, Hdelim.
  destruct (scan_token [","%char] s). discriminate.
Qed.

(** One call of [strtok] takes the first field off, and a null pointer
    comes back exactly when there is no field left. *)
Lemma strtok_takes_first_field (s : list ascii) :
  match fields_from [] s with
  | [] => fst (strtok s [","%char]) = None
  | tok :: rest =>
      fst (strtok s [","%char]) = Some tok
      /\ fields_from [] (snd (strtok s [","%char])) = rest
  end.
Proof.
  rewrite <- (fields_from_skip_delims s). unfold strtok.
  assert (Hhead : match skip_delims [","%char] s with
                  | [] => True
                  | c :: _ => is_delim [","%char] c = false
                  end).
  { induction s as [|c s IH]; [exact I|].
    cbn [skip_delims]. destruct (is_delim [","%char] c) eqn:Hc; [exact IH|].
    exact Hc. }
  destruct (skip_delims [","%char] s) as [|c s1]; [reflexivity|].
  cbn [cstring]. destruct (Ascii.eqb c NUL) eqn:Hnul.
  - cbn [fields_from]. rewrite Hnul. reflexivity.
  - rewrite (fields_from_scan_token (c :: s1) []).
    pose proof (scan_token_nonempty c s1 Hnul Hhead) as Hne.
    destruct (scan_token [","%char] (c :: s1)) as [tok olds].
    cbn [fst snd app] in Hne |- *.
    destruct tok as [|t tok]; [contradiction|].
    cbn [close_field app]. split; reflexivity.
Qed.

(** In the buffer the payload is followed by the terminator; the fields
    are those of the payload. *)
Lemma fields_from_terminated (payload rest : list ascii) :
  forall cur : list ascii,
    fields_from cur (payload ++ NUL :: rest) = fields_from cur payload.
Proof.
  induction payload as [|c payload IH]; intros cur.
  - reflexivity.
  - cbn [app fields_from].
    destruct (Ascii.eqb c NUL); [reflexivity|].
    destruct (Ascii.eqb c ","); rewrite IH; reflexivity.
Qed.

Lemma commsThread_iteration_fields (payload : list ascii) :
  (0 < length payload)%nat ->
  (length payload < BUFFER_SIZE)%nat ->
  commsThread_iteration (RecvDatagram payload)
  = demand_of_fields (comma_fields payload).
Proof.
  intros Hpos Hlen. unfold commsThread_iteration.
  rewrite (recvfrom_short _ Hlen).
  destruct (store_after_payload _ Hlen) as [rest Hstore].
  replace (0 <? Z.of_nat (length payload))%Z with true
    by (symmetry; apply Z.ltb_lt; lia).
  rewrite Hstore. cbn [bind].
  unfold comma_fields.
  rewrite <- (fields_from_terminated payload rest []).
  pose proof (strtok_takes_first_field (payload ++ NUL :: rest)) as H1.
  destruct (strtok (payload ++ NUL :: rest) [","%char]) as [ptr1 olds1].
  cbn [fst snd] in H1.
  destruct (fields_from [] (payload ++ NUL :: rest)) as [|tok1 fs].
  - subst ptr1. reflexivity.
  - destruct H1 as [-> Hfs]. cbn [strtod bind].
    pose proof (strtok_takes_first_field olds1) as H2.
    destruct (strtok olds1 [","%char]) as [ptr2 olds2].
    cbn [fst snd] in H2. rewrite Hfs in H2.
    destruct fs as [|tok2 fs].
    + subst ptr2. reflexivity.
    + destruct H2 as [-> _]. reflexivity.
Qed.

(** X1.  On every datagram of 1 to 19 bytes the pass publishes what
    [strtod] makes of the first two non-empty comma-separated pieces of
    the payload, and it publishes a pair exactly when there are two such
    pieces; with fewer, [strtod] is called on a null pointer. *)
Theorem commsThread_iteration_by_fields (payload : list ascii) :
  (0 < length payload)%nat ->
  (length payload < BUFFER_SIZE)%nat ->
  commsThread_iteration (RecvDatagram payload)
  = demand_of_fields (comma_fields payload)
  /\ ((exists d : demand, commsThread_iteration (RecvDatagram payload) = Ok d)
      <-> (2 <= length (comma_fields payload))%nat)
  /\ ((length (comma_fields payload) < 2)%nat ->
      commsThread_iteration (RecvDatagram payload) = Fault NullPointer).
Proof.
  intros Hpos Hlen.
  rewrite (commsThread_iteration_fields payload Hpos Hlen).
  split; [reflexivity|].
  destruct (comma_fields payload) as [|tok1 [|tok2 fs]]; cbn [demand_of_fields length].
  - split; [split; [intros [d H]; discriminate H | lia] | reflexivity].
  - split; [split; [intros [d H]; discriminate H | lia] | reflexivity].
  - split; [split; [lia | intros _; eexists; reflexivity] | lia].
Qed.

(** X1 at [,5,,6,7]: the empty pieces are skipped and the third field is
    ignored. *)
Lemma commsThread_iteration_by_fields_witness :
  commsThread_iteration (datagram ",5,,6,7") = Ok (Demand 5 6).
Proof.
  unfold datagram.
  rewrite (proj1 (commsThread_iteration_by_fields
                    (list_ascii_of_string ",5,,6,7")
                    ltac:(apply Nat.ltb_lt; reflexivity)
                    ltac:(apply Nat.ltb_lt; reflexivity))).
  reflexivity.
Defined.

Lemma fields_from_are_fields (s : list ascii) :
  forall (cur tok : list ascii),
    forallb field_char cur = true ->
    In tok (fields_from cur s) -> is_field tok = true.
Proof.
  assert (Hclose : forall cur tok,
             forallb field_char cur = true ->
             In tok (close_field cur) -> is_field tok = true).
  { intros [|c cur] tok Hcur Hin; [contradiction|].
    destruct Hin as [<-|[]]. exact Hcur. }
  induction s as [|c s IH]; intros cur tok Hcur Hin.
  - exact (Hclose cur tok Hcur Hin).
  - cbn [fields_from] in Hin.
    destruct (Ascii.eqb c NUL) eqn:Hnul; [exact (Hclose cur tok Hcur Hin)|].
    destruct (Ascii.eqb c ",") eqn:Hcomma.
    + apply in_app_or in Hin as [Hin|Hin].
      * exact (Hclose cur tok Hcur Hin).
      * exact (IH [] tok eq_refl Hin).
    + apply (IH (cur ++ [c]) tok); [|exact Hin].
      rewrite forallb_app, Hcur. cbn [forallb]. unfold field_char.
      rewrite Hnul, Hcomma. reflexivity.
Qed.

(** Whatever the payload, every piece that can reach [strtod] is a
    field: it is not empty and holds neither a comma nor a NUL. *)
Lemma comma_fields_are_fields (payload tok : list ascii) :
  In tok (comma_fields payload) ->
  is_field tok = true
  /\ tok <> []
  /\ ~ In ","%char tok
  /\ ~ In NUL tok.
Proof.
  intros Hin.
  pose proof (fields_from_are_fields payload [] tok eq_refl Hin) as Hf.
  split; [exact Hf|].
  destruct tok as [|c tok]; [discriminate Hf|].
  split; [discriminate|].
  cbn [is_field] in Hf. rewrite forallb_forall in Hf.
  split; intros Hbad; specialize (Hf _ Hbad); unfold field_char in Hf.
  - rewrite Ascii.eqb_refl in Hf. discriminate Hf.
  - rewrite Ascii.eqb_refl, andb_false_r in Hf. discriminate Hf.
Qed.

Lemma fields_from_without_comma (s : list ascii) :
  forall cur : list ascii,
    forallb (fun c => negb (Ascii.eqb c ",")) s = true ->
    (length (fields_from cur s) <= 1)%nat.
Proof.
  assert (Hclose : forall cur, (length (close_field cur) <= 1)%nat)
    by (intros [|c cur]; cbn; lia).
  induction s as [|c s IH]; intros cur Hs; [apply Hclose|].
  cbn [forallb] in Hs. apply andb_true_iff in Hs as [Hc Hs].
  apply negb_true_iff in Hc. cbn [fields_from]. rewrite Hc.
  destruct (Ascii.eqb c NUL); [apply Hclose | apply IH; exact Hs].
Qed.

(** X2.  A datagram of 1 to 19 bytes without a comma never yields a
    demand: whatever its bytes are, the second [strtok] (or already the
    first) returns a null pointer and [strtod] is called on it. *)
Theorem datagram_without_comma_faults (payload : list ascii) :
  (0 < length payload)%nat ->
  (length payload < BUFFER_SIZE)%nat ->
  forallb (fun c => negb (Ascii.eqb c ",")) payload = true ->
  commsThread_iteration (RecvDatagram payload) = Fault NullPointer.
Proof.
  intros Hpos Hlen Hcomma.
  rewrite (commsThread_iteration_fields payload Hpos Hlen).
  pose proof (fields_from_without_comma payload [] Hcomma) as Hone.
  unfold comma_fields.
  destruct (fields_from [] payload) as [|tok1 [|tok2 fs]];
    [reflexivity | reflexivity | cbn [length] in Hone; lia].
Qed.

(** X2 at [75.5]. *)
Lemma datagram_without_comma_faults_witness :
  commsThread_iteration (datagram "75.5") = Fault NullPointer.
Proof.
  apply (datagram_without_comma_faults (list_ascii_of_string "75.5")).
  - apply Nat.ltb_lt. reflexivity.
  - apply Nat.ltb_lt. reflexivity.
  - reflexivity.
Defined.

(** ** The receive loop as a whole *)

Lemma commsThread_loop_app (rs1 rs2 : list recv_result) :
  forall shared : demand,
    commsThread_loop (rs1 ++ rs2) shared
    = (d <- commsThread_loop rs1 shared ;; commsThread_loop rs2 d).
Proof.
  induction rs1 as [|r rs1 IH]; intros shared; [reflexivity|].
  cbn [app commsThread_loop].
  destruct (commsThread_iteration r) as [d|f]; cbn [bind]; [apply IH | reflexivity].
Qed.

(** X3.  No history is kept: after any passes that went through, the pair
    in the globals after one more pass is the pair of that pass alone. *)
Theorem commsThread_loop_last_wins
  (rs : list recv_result) (r : recv_result) (shared d : demand) :
  commsThread_loop rs shared = Ok d ->
  commsThread_loop (rs ++ [r]) shared = commsThread_iteration r.
Proof.
  intros Hrs. rewrite commsThread_loop_app, Hrs. cbn [bind commsThread_loop].
  destruct (commsThread_iteration r); reflexivity.
Qed.

(** X3 at a demand followed by a timeout. *)
Lemma commsThread_loop_last_wins_witness :
  commsThread_loop [datagram "80,-30"; RecvNone] (Demand 1 2) = Ok zero_demand.
Proof.
  apply (commsThread_loop_last_wins [datagram "80,-30"] RecvNone
           (Demand 1 2) (Demand 80 (-30))).
  reflexivity.
Defined.

(** ** More on the two maps *)

Section Binary64Further.
Import PrimFloat.
Local Open Scope Z_scope.

(** X4.  Whatever pairs of doubles the snapshots hold, NaN and the
    infinities included, the control loop goes through all of them, every
    conversion to [int] at [rc_servo_send_pulse_us] is defined, and every
    width it sends is a whole number of microseconds between 900 and
    2100. *)
Theorem control_loop_pulses_within (snapshots : list Binary64.demand) :
  exists tr : list Binary64.event,
    Binary64.control_loop snapshots = Some tr
    /\ Forall Binary64.pulse_within tr
    /\ length (Binary64.pulses_on THROTTLE_SERVO tr) = length snapshots
    /\ length (Binary64.pulses_on RUDDER_SERVO tr) = length snapshots.
Proof.
  induction snapshots as [|d rest [tr' [E' [F' [Lt Lr]]]]].
  - exists []. repeat split; constructor.
  - destruct (control_cycle_defined d)
      as [t [r [_ [_ [_ [_ [tr [E [Pt [Pr F]]]]]]]]]].
    exists (tr ++ tr'). cbn [Binary64.control_loop]. rewrite E, E'.
    split; [reflexivity|]. split; [apply Forall_app; split; assumption|].
    rewrite !binary64_pulses_on_app, !length_app, Pt, Pr, Lt, Lr.
    split; reflexivity.
Qed.

(** X4 at snapshots that hold NaN, an infinity and a demand far out of
    range. *)
Example control_loop_pulses_within_sample :
  Binary64.control_loop
    [Binary64.Demand nan infinity; Binary64.Demand 1e22 (-1e22)]
  = Some [Binary64.Stdout "Throttle demand out of range";
          Binary64.Stdout "Rudder demand out of range";
          Binary64.SendPulse THROTTLE_SERVO 900;
          Binary64.SendPulse RUDDER_SERVO 1500;
          Binary64.Usleep 20000;
          Binary64.Stdout "Throttle demand out of range";
          Binary64.Stdout "Rudder demand out of range";
          Binary64.SendPulse THROTTLE_SERVO 900;
          Binary64.SendPulse RUDDER_SERVO 1500;
          Binary64.Usleep 20000].
Proof. vm_compute. reflexivity. Qed.

(** X5.  On [-100,100] the rudder pulse never falls when the demand
    grows, from [min_usec] at full port to [max_usec] at full starboard;
    it does not grow strictly: the demands 0 and 0.125 both give 1500. *)
Theorem rudder_mapping_nondecreasing :
  Binary64.rudder_pulse (-100) = Some RUDDER_MIN_PULSE_LENGTH_USEC
  /\ Binary64.rudder_pulse 100 = Some RUDDER_MAX_PULSE_LENGTH_USEC
  /\ (forall v w : float,
        Binary64.rudder_in_range v = true ->
        Binary64.rudder_in_range w = true ->
        (v <=? w)%float = true ->
        exists p q : Z,
          Binary64.rudder_pulse v = Some p
          /\ Binary64.rudder_pulse w = Some q
          /\ p <= q)
  /\ Binary64.rudder_pulse 0 = Binary64.rudder_pulse 0.125.
Proof.
  split; [vm_compute; reflexivity|]. split; [vm_compute; reflexivity|].
  split; [|vm_compute; reflexivity].
  intros v w Hv Hw Hle.
  destruct (rudder_pulse_defined v) as [p [Ep _]].
  destruct (rudder_pulse_defined w) as [q [Eq _]].
  exists p, q. split; [exact Ep|]. split; [exact Eq|].
  exact (rudder_pulse_mono v w p q Hv Hw Hle Ep Eq).
Qed.

(** X5 at 10 to port against 10 to starboard. *)
Lemma rudder_mapping_nondecreasing_witness :
  exists p q : Z,
    Binary64.rudder_pulse (-10) = Some p
    /\ Binary64.rudder_pulse 10 = Some q
    /\ p <= q.
Proof.
  apply (proj1 (proj2 (proj2 rudder_mapping_nondecreasing))
           (-10)%float 10%float); reflexivity.
Defined.

End Binary64Further.

(** ** Start-up of [main] *)

Lemma wait_battery_rounds (reads : list double) :
  fst (wait_battery reads)
  = concat (repeat battery_round (low_readings reads)).
Proof.
  induction reads as [|v reads IH]; [reflexivity|].
  cbn [wait_battery low_readings]. destruct (Qle_bool 6 v); [reflexivity|].
  destruct (wait_battery reads) as [tr ok]. cbn [fst] in IH |- *.
  cbn [repeat concat]. rewrite <- IH. reflexivity.
Qed.

Lemma wait_battery_charged_iff (reads : list double) :
  snd (wait_battery reads) = true
  <-> exists v : double, In v reads /\ 6 <= v.
Proof.
  induction reads as [|v reads IH].
  - split; [discriminate | intros [v [[] _]]].
  - cbn [wait_battery]. destruct (Qle_bool 6 v) eqn:Hv.
    + split; [intros _|reflexivity].
      exists v. split; [left; reflexivity | apply Qle_bool_iff; exact Hv].
    + destruct (wait_battery reads) as [tr ok]. cbn [snd] in IH |- *.
      rewrite IH. split; intros [w [Hin Hw]].
      * exists w. split; [right; exact Hin | exact Hw].
      * destruct Hin as [<-|Hin]; [|exists w; split; assumption].
        apply Qle_bool_iff in Hw. rewrite Hw in Hv. discriminate Hv.
Qed.

(** X7.  The battery loop ends exactly when a reading of at least 6.0 V
    arrives; until then it does nothing but print its message and sleep
    five seconds, once for every reading below 6.0 V. *)
Theorem battery_wait_until_charged (reads : list double) :
  (snd (wait_battery reads) = true
   <-> exists v : double, In v reads /\ 6 <= v)
  /\ fst (wait_battery reads)
     = concat (repeat battery_round (low_readings reads))
  /\ existsb actuates (fst (wait_battery reads)) = false.
Proof.
  split; [apply wait_battery_charged_iff|].
  split; [apply wait_battery_rounds|].
  rewrite wait_battery_rounds.
  induction (low_readings reads) as [|n IH]; [reflexivity | exact IH].
Qed.

Lemma wait_battery_no_actuation (reads : list double) :
  existsb actuates (fst (wait_battery reads)) = false.
Proof.
  rewrite wait_battery_rounds.
  induction (low_readings reads) as [|n IH]; [reflexivity | exact IH].
Qed.

(** X8.  When the ADC and the servo driver initialise and the battery is
    charged, [main] first waits for the battery, then switches the rail
    on, sends the neutral pulses ([min_usec] throttle, [centre_usec]
    rudder), sleeps two seconds and only then creates the thread; nothing
    acts on the servos before the rail is on. *)
Theorem main_startup_sequence (e : env) :
  adc_init_rc e = 0%Z ->
  snd (wait_battery (batt_reads e)) = true ->
  servo_init_rc e = 0%Z ->
  exists rest : list event,
    fst (main e)
    = concat (repeat battery_round (low_readings (batt_reads e)))
        ++ [AdcCleanup;
            Stdout "Turning On 6V Servo Power Rail";
            PowerRail 1;
            Stdout "Zero output";
            SendPulse THROTTLE_SERVO (of_int THROTTLE_MIN_PULSE_LENGTH_USEC);
            SendPulse RUDDER_SERVO RUDDER_CENTRE_PULSE_LENGTH_USEC;
            Usleep 2000000;
            ThreadCreate]
        ++ rest
    /\ existsb actuates
         (concat (repeat battery_round (low_readings (batt_reads e))))
       = false.
Proof.
  intros Hadc Hbatt Hservo. unfold main.
  rewrite Hadc, Hservo. cbn [Z.eqb negb].
  pose proof (wait_battery_rounds (batt_reads e)) as Hw.
  pose proof (wait_battery_no_actuation (batt_reads e)) as Hn.
  destruct (wait_battery (batt_reads e)) as [waits charged].
  cbn [snd] in Hbatt. cbn [fst] in Hw, Hn. subst charged. cbn [negb].
  rewrite <- Hw.
  destruct (commsThread_setup e) as [listening setup].
  destruct (run_threads listening (schedule e) zero_demand) as [tr [d|f]];
    cbn [fst]; eexists; (split; [|exact Hn]);
    unfold power_up, zero_outputs; cbn [app];
    rewrite <- ?app_assoc; cbn [app]; reflexivity.
Qed.

(** X8 at two low readings before a sufficient one. *)
Lemma main_startup_sequence_witness :
  exists rest : list event,
    fst (main (Env 0 [5.2; 5.9; 6.3] 0 3 0 0 0 [MainTurn]))
    = battery_round ++ battery_round
        ++ [AdcCleanup;
            Stdout "Turning On 6V Servo Power Rail";
            PowerRail 1;
            Stdout "Zero output";
            SendPulse THROTTLE_SERVO (of_int THROTTLE_MIN_PULSE_LENGTH_USEC);
            SendPulse RUDDER_SERVO RUDDER_CENTRE_PULSE_LENGTH_USEC;
            Usleep 2000000;
            ThreadCreate]
        ++ rest.
Proof.
  destruct (main_startup_sequence (Env 0 [5.2; 5.9; 6.3] 0 3 0 0 0 [MainTurn]))
    as [rest [Hrest _]]; try reflexivity.
  exists rest. exact Hrest.
Defined.

(** X9.  Nothing acts on the servos and no thread is created unless the
    ADC initialised, a battery reading of at least 6.0 V was seen and the
    servo driver initialised; and when one of the two initialisations
    fails [main] returns -1. *)
Theorem no_actuation_before_checks (e : env) :
  (existsb actuates (fst (main e)) = true ->
   adc_init_rc e = 0%Z
   /\ (exists v : double, In v (batt_reads e) /\ 6 <= v)
   /\ servo_init_rc e = 0%Z)
  /\ (adc_init_rc e <> 0%Z -> snd (main e) = Exited (-1))
  /\ (adc_init_rc e = 0%Z ->
      snd (wait_battery (batt_reads e)) = true ->
      servo_init_rc e <> 0%Z ->
      snd (main e) = Exited (-1)).
Proof.
  unfold main.
  destruct (Z.eqb_spec (adc_init_rc e) 0) as [Hadc|Hadc]; cbn [negb].
  2:{ split; [discriminate|]. split; [reflexivity | contradiction]. }
  pose proof (wait_battery_no_actuation (batt_reads e)) as Hn.
  pose proof (wait_battery_charged_iff (batt_reads e)) as Hc.
  destruct (wait_battery (batt_reads e)) as [waits charged].
  cbn [fst] in Hn. cbn [snd] in Hc |- *.
  destruct charged; cbn [negb].
  2:{ cbn [fst snd]. rewrite Hn.
      split; [discriminate|]. split; [contradiction | discriminate]. }
  destruct (Z.eqb_spec (servo_init_rc e) 0) as [Hservo|Hservo]; cbn [negb].
  2:{ cbn [fst snd]. rewrite existsb_app, Hn.
      split; [discriminate|]. split; [contradiction | reflexivity]. }
  split; [|split; [contradiction | intros _ _ H; contradiction]].
  intros _. split; [exact Hadc|]. split; [apply Hc; reflexivity | exact Hservo].
Qed.

(** X9 at a run whose servo driver fails to initialise. *)
Lemma no_actuation_before_checks_witness :
  snd (main (Env 0 [7.0] (-1) 3 0 0 0 [MainTurn])) = Exited (-1)
  /\ existsb actuates (fst (main (Env 0 [7.0] (-1) 3 0 0 0 [MainTurn])))
     = false.
Proof.
  split.
  - apply (proj2 (proj2 (no_actuation_before_checks
                           (Env 0 [7.0] (-1) 3 0 0 0 [MainTurn])))).
    + reflexivity.
    + reflexivity.
    + discriminate.
  - reflexivity.
Defined.

(** ** The control loop as a whole *)

Lemma control_loop_pulses (snapshots : list demand) :
  pulses_on THROTTLE_SERVO (control_loop snapshots)
  = map (fun d => throttle_usec (throttle d)) snapshots
  /\ pulses_on RUDDER_SERVO (control_loop snapshots)
     = map (fun d => rudder_usec (rudder d)) snapshots.
Proof.
  induction snapshots as [|d snapshots [IHt IHr]]; [split; reflexivity|].
  unfold control_loop in *. cbn [flat_map map].
  rewrite !pulses_on_app, IHt, IHr.
  rewrite (proj1 (control_cycle_pulses d)), (proj2 (control_cycle_pulses d)).
  split; reflexivity.
Qed.

Lemma run_threads_pulse_count (listening : bool) (sched : list turn) :
  forall (shared d : demand) (tr : list event),
    run_threads listening sched shared = (tr, Ok d) ->
    length (pulses_on THROTTLE_SERVO tr) = main_turns sched
    /\ length (pulses_on RUDDER_SERVO tr) = main_turns sched.
Proof.
  induction sched as [|[r|] sched IH]; intros shared d tr Hrun.
  - injection Hrun as <- _. split; reflexivity.
  - cbn [run_threads main_turns] in Hrun |- *. destruct listening.
    + destruct (commsThread_iteration r) as [published|f];
        [exact (IH _ _ _ Hrun) | discriminate Hrun].
    + exact (IH _ _ _ Hrun).
  - cbn [run_threads main_turns] in Hrun |- *.
    destruct (run_threads listening sched shared) as [tr' res] eqn:Hrest.
    injection Hrun as <- ->.
    destruct (IH _ _ _ Hrest) as [IHt IHr].
    rewrite !pulses_on_app, !length_app, IHt, IHr.
    rewrite (proj1 (control_cycle_pulses shared)),
            (proj2 (control_cycle_pulses shared)).
    split; reflexivity.
Qed.

(** X10.  Every pass of the control loop sends exactly one pulse on each
    channel, computed from the snapshot of that pass, whether or not the
    demand has changed since the pass before: over any run of the two
    loops that is not cut short by a fault there are as many pulses on
    each channel as passes of the control loop. *)
Theorem one_pulse_per_channel_per_pass :
  (forall snapshots : list demand,
      pulses_on THROTTLE_SERVO (control_loop snapshots)
      = map (fun d => throttle_usec (throttle d)) snapshots
      /\ pulses_on RUDDER_SERVO (control_loop snapshots)
         = map (fun d => rudder_usec (rudder d)) snapshots)
  /\ (forall (listening : bool) (sched : list turn) (shared d : demand)
             (tr : list event),
        run_threads listening sched shared = (tr, Ok d) ->
        length (pulses_on THROTTLE_SERVO tr) = main_turns sched
        /\ length (pulses_on RUDDER_SERVO tr) = main_turns sched).
Proof.
  split; [exact control_loop_pulses|].
  intros listening sched. exact (run_threads_pulse_count listening sched).
Qed.

(** X10 at three passes with one datagram in between. *)
Lemma one_pulse_per_channel_per_pass_witness :
  length (pulses_on THROTTLE_SERVO
            (fst (run_threads true
                    [MainTurn; CommsTurn (datagram "20,0"); MainTurn; MainTurn]
                    zero_demand))) = 3%nat.
Proof.
  apply (proj2 one_pulse_per_channel_per_pass true
           [MainTurn; CommsTurn (datagram "20,0"); MainTurn; MainTurn]
           zero_demand (Demand 20 0)).
  reflexivity.
Defined.

(** X7 at two low readings before a sufficient one. *)
Lemma battery_wait_until_charged_witness :
  snd (wait_battery [5.2; 5.9; 6.3]) = true
  /\ fst (wait_battery [5.2; 5.9; 6.3]) = battery_round ++ battery_round.
Proof.
  destruct (battery_wait_until_charged [5.2; 5.9; 6.3]) as [Hiff [Hrounds _]].
  split.
  - apply Hiff. exists 6.3. split; [right; right; left; reflexivity | lra].
  - rewrite Hrounds. reflexivity.
Defined.

(** ** More on the shared pair *)

Lemma newest_new (d : demand) (pubs : list demand) :
  newest (Sync.Cell (throttle d) (length pubs))
         (Sync.Cell (rudder d) (length pubs)) (pubs ++ [d]).
Proof.
  split; [|apply consistent_new].
  cbn [Sync.writer]. rewrite length_app. cbn [length]. lia.
Qed.

Lemma sync_init_fresh : fresh Sync.init.
Proof. repeat split. Qed.

Lemma sync_exec_fresh (a : Sync.action) (s s' : Sync.state) :
  Sync.inv s -> fresh s -> Sync.exec a s = Some s' -> fresh s'.
Proof.
  destruct s as [mu gt gr cpc mpc tt tr pubs].
  unfold Sync.inv, fresh, Sync.exec.
  cbn [Sync.mutex Sync.g_throttle Sync.g_rudder
       Sync.comms_at Sync.main_at Sync.tmpThrottle Sync.tmpRudder
       Sync.published].
  intros [Hc Hm] [Fc Fm] Hexec.
  destruct a, cpc, mpc, mu as [[]|];
    try discriminate Hexec;
    try (destruct (commsThread_iteration r); [|discriminate Hexec]);
    injection Hexec as <-;
    cbn [Sync.mutex Sync.g_throttle Sync.g_rudder Sync.comms_at Sync.main_at
         Sync.tmpThrottle Sync.tmpRudder Sync.published] in *;
    repeat match goal with
           | H : _ /\ _ |- _ => destruct H
           | H : Some _ = Some _ |- _ => discriminate H
           | H : None = Some _ |- _ => discriminate H
           | H : ?x <> ?x |- _ => contradiction H; reflexivity
           end;
    subst;
    repeat match goal with
           | |- _ /\ _ => split
           | |- True => exact I
           | |- _ = _ => reflexivity
           | |- _ => assumption
           | |- newest _ _ (_ ++ [_]) => apply newest_new
           end.
Qed.

Lemma sync_run_inv_fresh (acts : list Sync.action) :
  forall s s' : Sync.state,
    Sync.inv s -> fresh s -> Sync.run acts s = Some s' ->
    Sync.inv s' /\ fresh s'.
Proof.
  induction acts as [|a acts IH]; intros s s' Hinv Hfresh Hrun.
  - injection Hrun as <-. split; assumption.
  - cbn [Sync.run] in Hrun.
    destruct (Sync.exec a s) as [s1|] eqn:Hexec; [|discriminate Hrun].
    apply (IH s1 s'); [| |exact Hrun].
    + apply (sync_exec_inv a s s1); assumption.
    + apply (sync_exec_fresh a s s1); assumption.
Qed.

(** X11.  In every interleaving the mutex is held by [commsThread]
    exactly while it is between its lock and its unlock, by [main] exactly
    while it is between its own, and so the two are never inside their
    critical sections at the same time. *)
Theorem mutex_holder_is_in_section
  (acts : list Sync.action) (s : Sync.state) :
  Sync.run acts Sync.init = Some s ->
  (Sync.mutex s = Some Sync.Comms <-> comms_in_section s = true)
  /\ (Sync.mutex s = Some Sync.Main <-> main_in_section s = true)
  /\ comms_in_section s && main_in_section s = false.
Proof.
  intros Hrun.
  pose proof (sync_run_inv acts _ _ sync_init_inv Hrun) as [Hc Hm].
  unfold comms_in_section, main_in_section.
  destruct (Sync.comms_at s), (Sync.main_at s);
    repeat match goal with H : _ /\ _ |- _ => destruct H end;
    repeat split; intros; try reflexivity; try congruence.
Qed.

(** X11 at [overlapping_publication]: [commsThread] is inside, [main] is
    not. *)
Lemma mutex_holder_is_in_section_witness :
  comms_in_section after_overlapping_publication = true
  /\ main_in_section after_overlapping_publication = false.
Proof.
  destruct (mutex_holder_is_in_section overlapping_publication
              after_overlapping_publication eq_refl) as [Hc [_ Hx]].
  split; [apply Hc; reflexivity|].
  rewrite (proj1 Hc eq_refl) in Hx. exact Hx.
Defined.

(** X12.  When [main] has loaded both globals and still holds the mutex,
    the pair it holds is the newest publication: no publication is
    skipped over or read late. *)
Theorem snapshot_is_newest_publication
  (acts : list Sync.action) (s : Sync.state) :
  Sync.run acts Sync.init = Some s ->
  Sync.main_at s = Sync.MUnlock ->
  nth_error (Sync.published s) (length (Sync.published s) - 1)
  = Some (Sync.snapshot s).
Proof.
  intros Hrun Hat.
  destruct (sync_run_inv_fresh acts _ _ sync_init_inv sync_init_fresh Hrun)
    as [[Hc Hm] [Fc Fm]].
  rewrite Hat in Hm, Fm. destruct Hm as [Hmu _]. destruct Fm as [Ht Hr].
  unfold Sync.snapshot. rewrite Ht, Hr.
  destruct (Sync.comms_at s);
    try (destruct Hc as [Hc _]; congruence);
    destruct Fc as [Hlen [_ Hnth]];
    (replace (length (Sync.published s) - 1)%nat
       with (Sync.writer (Sync.g_throttle s)) by lia);
    exact Hnth.
Qed.

(** X12 at [late_lock]. *)
Lemma snapshot_is_newest_publication_witness :
  nth_error (Sync.published after_late_lock) 2
  = Some (Sync.snapshot after_late_lock)
  /\ Sync.snapshot after_late_lock = Demand 30 40.
Proof.
  split; [|reflexivity].
  apply (snapshot_is_newest_publication late_lock after_late_lock).
  - reflexivity.
  - reflexivity.
Defined.

(** X13.  The two threads never block each other for good: in every
    state they can reach, at least one of them can take its next step, and
    a thread waiting for the mutex waits for one that is inside its
    critical section and can go on. *)
Theorem threads_never_deadlock (acts : list Sync.action) (s : Sync.state) :
  Sync.run acts Sync.init = Some s ->
  (exists (a : Sync.action) (s' : Sync.state), Sync.exec a s = Some s')
  /\ (Sync.main_at s = Sync.MLock -> Sync.mutex s <> None ->
      exists (a : Sync.action) (s' : Sync.state),
        comms_in_section s = true /\ Sync.exec a s = Some s'
        /\ Sync.main_at s' = Sync.MLock)
  /\ (forall tmp : demand,
        Sync.comms_at s = Sync.CLock tmp -> Sync.mutex s <> None ->
        exists (a : Sync.action) (s' : Sync.state),
          main_in_section s = true /\ Sync.exec a s = Some s'
          /\ Sync.comms_at s' = Sync.CLock tmp).
Proof.
  intros Hrun.
  pose proof (sync_run_inv acts _ _ sync_init_inv Hrun) as Hinv.
  destruct s as [mu gt gr cpc mpc tt tr pubs].
  unfold Sync.inv, comms_in_section, main_in_section in *.
  cbn [Sync.mutex Sync.g_throttle Sync.g_rudder Sync.comms_at Sync.main_at
       Sync.tmpThrottle Sync.tmpRudder Sync.published] in *.
  destruct Hinv as [Hc Hm].
  split; [|split].
  - destruct mpc.
    + destruct cpc.
      * exists (Sync.CommsReceive RecvNone). eexists. reflexivity.
      * destruct mu as [[]|].
        -- destruct Hc as [Hc _]. contradiction Hc; reflexivity.
        -- contradiction Hm; reflexivity.
        -- exists Sync.CommsLock. eexists. reflexivity.
      * exists Sync.CommsStoreThrottle. eexists. reflexivity.
      * exists Sync.CommsStoreRudder. eexists. reflexivity.
      * exists Sync.CommsUnlock. eexists. reflexivity.
    + exists Sync.MainLoadThrottle. eexists. destruct cpc; reflexivity.
    + exists Sync.MainLoadRudder. eexists. destruct cpc; reflexivity.
    + exists Sync.MainUnlock. eexists. destruct cpc; reflexivity.
    + exists Sync.MainSend. eexists. destruct cpc; reflexivity.
  - intros -> Hheld. destruct mu as [[]|].
    + destruct cpc as [|tmp|tmp|tmp|tmp].
      * destruct Hc as [Hc _]. contradiction Hc; reflexivity.
      * destruct Hc as [Hc _]. contradiction Hc; reflexivity.
      * exists Sync.CommsStoreThrottle. eexists. repeat split.
      * exists Sync.CommsStoreRudder. eexists. repeat split.
      * exists Sync.CommsUnlock. eexists. repeat split.
    + contradiction Hm; reflexivity.
    + contradiction Hheld; reflexivity.
  - intros tmp -> Hheld. destruct mu as [[]|].
    + destruct Hc as [Hc _]. contradiction Hc; reflexivity.
    + destruct mpc.
      * contradiction Hm; reflexivity.
      * exists Sync.MainLoadThrottle. eexists. repeat split.
      * exists Sync.MainLoadRudder. eexists. repeat split.
      * exists Sync.MainUnlock. eexists. repeat split.
      * destruct Hm as [Hm _]. contradiction Hm; reflexivity.
    + contradiction Hheld; reflexivity.
Qed.

(** X13 at [overlapping_publication]: [commsThread] can store the
    rudder. *)
Lemma threads_never_deadlock_witness :
  exists (a : Sync.action) (s' : Sync.state),
    Sync.exec a after_overlapping_publication = Some s'.
Proof.
  exact (proj1 (threads_never_deadlock overlapping_publication
                  after_overlapping_publication eq_refl)).
Defined.

(** ** The [running] flag *)

Lemma run_flagged_cleared (occs : list occurrence) :
  forall (comms main_ : place) (shared : demand),
    comms <> InPass -> main_ <> InPass ->
    run_flagged occs false comms main_ shared = ([], Ok shared).
Proof.
  induction occs as [|[[|]|[r|]|] occs IH]; intros comms main_ shared Hc Hm;
    cbn [run_flagged __signal_handler].
  - reflexivity.
  - apply IH; [destruct comms; cbn; congruence | exact Hm].
  - apply IH; [exact Hc | destruct main_; cbn; congruence].
  - destruct comms; try congruence; apply IH; assumption.
  - destruct main_; try congruence; apply IH; assumption.
  - apply IH; assumption.
Qed.

Lemma run_flagged_in_flight (occs : list occurrence) :
  forall (comms main_ : place) (shared : demand),
  exists ts : list turn,
    run_flagged occs false comms main_ shared = run_threads true ts shared
    /\ (length (turns_of CommsLoop ts) <= in_pass comms)%nat
    /\ (length (turns_of MainLoop ts) <= in_pass main_)%nat.
Proof.
  induction occs as [|[[|]|[r|]|] occs IH]; intros comms main_ shared;
    cbn [run_flagged __signal_handler].
  - exists []. split; [reflexivity|]. split; apply Nat.le_0_l.
  - destruct (IH (test false comms) main_ shared) as [ts [E [Hc Hm]]].
    exists ts. split; [exact E|]. split; [|exact Hm].
    destruct comms; exact Hc.
  - destruct (IH comms (test false main_) shared) as [ts [E [Hc Hm]]].
    exists ts. split; [exact E|]. split; [exact Hc|].
    destruct main_; exact Hm.
  - destruct comms; try apply IH.
    destruct (commsThread_iteration r) as [published|f] eqn:Er.
    + destruct (IH AtTop main_ published) as [ts [E [Hc Hm]]].
      exists (CommsTurn r :: ts). cbn [run_threads]. rewrite Er.
      split; [exact E|].
      unfold turns_of in *. cbn [filter loop_of length in_pass] in *.
      split; [lia|exact Hm].
    + exists [CommsTurn r]. cbn [run_threads]. rewrite Er.
      split; [reflexivity|].
      unfold turns_of. cbn [filter loop_of length in_pass]. split; lia.
  - destruct main_; try apply IH.
    destruct (IH comms AtTop shared) as [ts [E [Hc Hm]]].
    exists (MainTurn :: ts). cbn [run_threads]. rewrite E.
    split; [reflexivity|].
    unfold turns_of in *. cbn [filter loop_of length in_pass] in *.
    split; [exact Hc|lia].
  - apply IH.
Qed.

Lemma run_flagged_rounds (sched : list turn) :
  forall shared : demand,
    run_flagged (rounds sched) true AtTop AtTop shared
    = run_threads true sched shared.
Proof.
  induction sched as [|[r|] sched IH]; intros shared.
  - reflexivity.
  - cbn [rounds flat_map app loop_of run_flagged test run_threads].
    destruct (commsThread_iteration r) as [published|f]; [apply IH|reflexivity].
  - cbn [rounds flat_map app loop_of run_flagged test run_threads].
    fold (rounds sched). rewrite IH. reflexivity.
Qed.

(** X14.  Each loop reads [running] only at the top of its pass.  While
    the flag is set, passes that each begin with their test are the
    passes of the schedule.  A pass that is in flight when SIGINT clears
    the flag is finished: a datagram that arrives while [commsThread] is
    blocked in [recvfrom] is still parsed and published.  After the
    SIGINT no loop begins another pass: what still happens is at most
    the one pass each loop was in, and nothing at all when neither was
    in one. *)
Theorem no_pass_after_sigint :
  (forall (sched : list turn) (shared : demand),
      run_flagged (rounds sched) true AtTop AtTop shared
      = run_threads true sched shared)
  /\ (forall (r : recv_result) (published : demand) (occs : list occurrence)
             (main_ : place) (shared : demand),
        commsThread_iteration r = Ok published ->
        run_flagged (SigInt :: Pass (CommsTurn r) :: occs)
                    true InPass main_ shared
        = run_flagged occs false AtTop main_ published)
  /\ (forall (occs : list occurrence) (comms main_ : place) (shared : demand),
        exists ts : list turn,
          run_flagged occs false comms main_ shared
          = run_threads true ts shared
          /\ (length (turns_of CommsLoop ts) <= in_pass comms)%nat
          /\ (length (turns_of MainLoop ts) <= in_pass main_)%nat)
  /\ (forall (occs : list occurrence) (comms main_ : place) (shared : demand),
        comms <> InPass -> main_ <> InPass ->
        run_flagged occs false comms main_ shared = ([], Ok shared)).
Proof.
  split; [exact run_flagged_rounds|].
  split.
  - intros r published occs main_ shared Hr.
    cbn [run_flagged __signal_handler]. rewrite Hr. reflexivity.
  - split.
    + intros occs. apply run_flagged_in_flight.
    + intros occs. apply run_flagged_cleared.
Qed.

(** ** The earlier version *)

(** X15.  In the earlier version a failure of [socket], of either
    [setsockopt] or of [bind] ends [main] right after its diagnostic with
    the return value -1, before any datagram is received. *)
Theorem earlier_setup_failure_exits (e : Earlier.env) (msg : string) :
  Earlier.adc_init_rc e = 0%Z ->
  Earlier.servo_init_rc e = 0%Z ->
  Earlier.socket_setup e = Some msg ->
  exists started : list Earlier.event,
    Earlier.main e = (started ++ [Earlier.Stderr msg], Exited (-1))
    /\ ~ In (Earlier.Stdout "Waiting for packet...") started.
Proof.
  intros Hadc Hservo Hsetup. unfold Earlier.main.
  rewrite Hadc, Hservo, Hsetup. cbn [Z.eqb negb].
  eexists. split; [reflexivity|].
  destruct (Qle_bool 6 (Earlier.batt e)); cbn; intuition discriminate.
Qed.

(** X15 at a run whose [bind] fails. *)
Lemma earlier_setup_failure_exits_witness :
  snd (Earlier.main (Earlier.Env 0 7.4 0 3 0 0 (-1) [datagram "10,10"]))
  = Exited (-1).
Proof.
  destruct (earlier_setup_failure_exits
              (Earlier.Env 0 7.4 0 3 0 0 (-1) [datagram "10,10"])
              "bind socket failed" eq_refl eq_refl eq_refl)
    as [started [Hmain _]].
  rewrite Hmain. reflexivity.
Defined.

Lemma recvfrom_count_positive (payload : list ascii) :
  payload <> [] ->
  (0 < fst (recvfrom (RecvDatagram payload) buffer_init
                     (length buffer_init)))%Z.
Proof.
  intros Hne. cbn [recvfrom fst].
  rewrite length_firstn, buffer_init_length.
  destruct payload; [contradiction|]. cbn [length]. unfold BUFFER_SIZE. lia.
Qed.

(** X16.  The two versions parse alike: on a timeout neither parses, and
    on every datagram that is not empty the earlier version prints the
    pair the current one publishes, and faults where it faults.  They
    part on the zero-length datagram, which the earlier version parses
    (its test is [nbytes < 0]), calling [strtod] on a null pointer, and
    for which the current version (test [nbytes > 0]) publishes the zero
    demand. *)
Theorem earlier_parse_agrees :
  Earlier.parse RecvNone = Ok None
  /\ (forall payload : list ascii,
        payload <> [] ->
        Earlier.parse (RecvDatagram payload)
        = (d <- commsThread_iteration (RecvDatagram payload) ;; Ok (Some d)))
  /\ Earlier.parse (RecvDatagram []) = Fault NullPointer
  /\ commsThread_iteration (RecvDatagram []) = Ok zero_demand.
Proof.
  split; [reflexivity|]. split; [|split; reflexivity].
  intros payload Hne.
  pose proof (recvfrom_count_positive payload Hne) as Hpos.
  unfold Earlier.parse, commsThread_iteration.
  destruct (recvfrom (RecvDatagram payload) buffer_init (length buffer_init))
    as [nbytes buffer].
  cbn [fst] in Hpos.
  replace (nbytes <? 0)%Z with false by (symmetry; apply Z.ltb_ge; lia).
  replace (0 <? nbytes)%Z with true by (symmetry; apply Z.ltb_lt; lia).
  destruct (store buffer nbytes NUL) as [buffer'|f]; [|reflexivity].
  cbn [bind].
  destruct (strtok buffer' [","%char]) as [ptr1 olds1].
  destruct (strtod ptr1) as [t|f]; [|reflexivity]. cbn [bind].
  destruct (strtok olds1 [","%char]) as [ptr2 olds2].
  destruct (strtod ptr2) as [r|f]; reflexivity.
Qed.

(** X16 at [75,-20]. *)
Lemma earlier_parse_agrees_witness :
  Earlier.parse (datagram "75,-20") = Ok (Some (Demand 75 (-20))).
Proof.
  unfold datagram.
  rewrite (proj1 (proj2 earlier_parse_agrees)
             (list_ascii_of_string "75,-20")); [reflexivity | discriminate].
Defined.

(** ** The socket *)

Lemma control_cycle_keeps_socket (d : demand) :
  existsb closes_socket (control_cycle d) = false.
Proof.
  unfold control_cycle.
  destruct (throttle_in_range (throttle d)), (rudder_in_range (rudder d));
    reflexivity.
Qed.

Lemma run_threads_keeps_socket (listening : bool) (sched : list turn) :
  forall shared : demand,
    existsb closes_socket (fst (run_threads listening sched shared)) = false.
Proof.
  induction sched as [|[r|] sched IH]; intros shared.
  - reflexivity.
  - cbn [run_threads]. destruct listening; [|apply IH].
    destruct (commsThread_iteration r) as [published|f]; [apply IH | reflexivity].
  - cbn [run_threads]. specialize (IH shared).
    destruct (run_threads listening sched shared) as [tr res].
    cbn [fst] in IH |- *.
    rewrite existsb_app, control_cycle_keeps_socket, IH. reflexivity.
Qed.

Lemma wait_battery_keeps_socket (reads : list double) :
  existsb closes_socket (fst (wait_battery reads)) = false.
Proof.
  rewrite wait_battery_rounds.
  induction (low_readings reads) as [|n IH]; [reflexivity | exact IH].
Qed.

Lemma commsThread_setup_keeps_socket (e : env) :
  existsb closes_socket (snd (commsThread_setup e)) = false.
Proof.
  unfold commsThread_setup.
  destruct (socket_rc e <? 0)%Z; [reflexivity|].
  destruct (sockopt_reuse_rc e <? 0)%Z; [reflexivity|].
  destruct (sockopt_timeo_rc e <? 0)%Z; [reflexivity|].
  destruct (bind_rc e <? 0)%Z; reflexivity.
Qed.

(** X17.  [commsThread] enters its loop exactly when [socket], both
    [setsockopt] calls and [bind] all succeed, and then the receive
    timeout has been set before the port is bound; otherwise it stops at
    the first call that fails, with one diagnostic as its last action, and
    [bind] is asked for only when the three calls before it went through.
    [close] is reached only through the loop: in a run that returns 0 the
    socket is closed exactly when the loop was entered, so an early return
    after a successful [socket] leaves it open. *)
Theorem socket_setup_outcomes (e : env) :
  (fst (commsThread_setup e) = true
   <-> (0 <= socket_rc e /\ 0 <= sockopt_reuse_rc e
        /\ 0 <= sockopt_timeo_rc e /\ 0 <= bind_rc e)%Z)
  /\ (fst (commsThread_setup e) = true ->
      snd (commsThread_setup e)
      = [SetReceiveTimeout COMMS_TIMEOUT_SEC 0; Bind UDP_PORT])
  /\ (fst (commsThread_setup e) = false ->
      exists (before : list event) (msg : string),
        snd (commsThread_setup e) = before ++ [Stderr msg]
        /\ (In (Bind UDP_PORT) before ->
            (0 <= socket_rc e /\ 0 <= sockopt_reuse_rc e
             /\ 0 <= sockopt_timeo_rc e /\ bind_rc e < 0)%Z))
  /\ (snd (main e) = Exited 0 ->
      existsb closes_socket (fst (main e)) = fst (commsThread_setup e)).
Proof.
  split; [|split; [|split]].
  - unfold commsThread_setup.
    destruct (Z.ltb_spec (socket_rc e) 0);
      [split; [discriminate | lia]|].
    destruct (Z.ltb_spec (sockopt_reuse_rc e) 0);
      [split; [discriminate | lia]|].
    destruct (Z.ltb_spec (sockopt_timeo_rc e) 0);
      [split; [discriminate | lia]|].
    destruct (Z.ltb_spec (bind_rc e) 0);
      [split; [discriminate | lia]|].
    split; [lia | reflexivity].
  - unfold commsThread_setup.
    destruct (socket_rc e <? 0)%Z; [discriminate|].
    destruct (sockopt_reuse_rc e <? 0)%Z; [discriminate|].
    destruct (sockopt_timeo_rc e <? 0)%Z; [discriminate|].
    destruct (bind_rc e <? 0)%Z; [discriminate | reflexivity].
  - unfold commsThread_setup.
    destruct (Z.ltb_spec (socket_rc e) 0).
    { intros _. exists [], "create socket failed"%string.
      split; [reflexivity | intros []]. }
    destruct (Z.ltb_spec (sockopt_reuse_rc e) 0).
    { intros _. exists [], "configure socket failed 1"%string.
      split; [reflexivity | intros []]. }
    destruct (Z.ltb_spec (sockopt_timeo_rc e) 0).
    { intros _. exists [SetReceiveTimeout COMMS_TIMEOUT_SEC 0],
        "configure socket failed 2"%string.
      split; [reflexivity | intros [H'|[]]; discriminate H']. }
    destruct (Z.ltb_spec (bind_rc e) 0); [|discriminate].
    intros _. exists [SetReceiveTimeout COMMS_TIMEOUT_SEC 0; Bind UDP_PORT],
      "bind socket failed"%string.
    split; [reflexivity | intros _; lia].
  - unfold main.
    destruct (negb (adc_init_rc e =? 0)%Z); [discriminate|].
    pose proof (wait_battery_keeps_socket (batt_reads e)) as Hw.
    destruct (wait_battery (batt_reads e)) as [waits charged].
    cbn [fst] in Hw.
    destruct charged; cbn [negb]; [|discriminate].
    destruct (negb (servo_init_rc e =? 0)%Z); [discriminate|].
    pose proof (commsThread_setup_keeps_socket e) as Hs.
    destruct (commsThread_setup e) as [listening setup].
    cbn [fst snd] in Hs |- *.
    pose proof (run_threads_keeps_socket listening (schedule e) zero_demand)
      as Hr.
    destruct (run_threads listening (schedule e) zero_demand) as [tr [d|f]];
      cbn [snd fst] in Hr |- *; [intros _ | discriminate].
    rewrite !existsb_app, Hw, Hs, Hr. destruct listening; reflexivity.
Qed.

(** X17 at [env_bind_fails]: the run returns 0 and the socket, which
    [socket] had delivered, is never closed. *)
Lemma socket_setup_outcomes_witness :
  existsb closes_socket (fst (main env_bind_fails)) = false.
Proof.
  rewrite (proj2 (proj2 (proj2 (socket_setup_outcomes env_bind_fails)))
             eq_refl).
  reflexivity.
Defined.

(** ** Holding a demand *)

(** X19.  A demand stays in force until it is replaced: after a pass of
    [commsThread] that publishes a pair, every pass of the control loop
    works on that pair for as long as [commsThread] takes no further
    turn. *)
Theorem demand_held_until_replaced
  (r : recv_result) (d shared : demand) (k : nat) :
  commsThread_iteration r = Ok d ->
  run_threads true (CommsTurn r :: repeat MainTurn k) shared
  = (control_loop (repeat d k), Ok d).
Proof.
  intros Hr. cbn [run_threads]. rewrite Hr.
  induction k as [|k IH]; [reflexivity|].
  cbn [repeat run_threads]. rewrite IH. reflexivity.
Qed.

(** X19 at a demand of 60, -10 followed by three control passes. *)
Lemma demand_held_until_replaced_witness :
  pulses_on THROTTLE_SERVO
    (fst (run_threads true
            [CommsTurn (datagram "60,-10"); MainTurn; MainTurn; MainTurn]
            zero_demand))
  = [throttle_usec 60; throttle_usec 60; throttle_usec 60].
Proof.
  pose proof (demand_held_until_replaced (datagram "60,-10")
                (Demand 60 (-(10))) zero_demand 3 eq_refl) as H.
  cbn [repeat] in H. rewrite H. reflexivity.
Defined.

(** X14 at a SIGINT that arrives while [commsThread] waits in
    [recvfrom] and [main] is at the top of its loop: the datagram that
    comes next is still published, and nothing is sent or received after
    it. *)
Lemma no_pass_after_sigint_witness :
  run_flagged
    [SigInt; Pass (CommsTurn (datagram "90,90"));
     Test CommsLoop; Test MainLoop;
     Pass (CommsTurn (datagram "10,10")); Pass MainTurn]
    true InPass AtTop zero_demand
  = ([], Ok (Demand 90 90)).
Proof.
  destruct no_pass_after_sigint as [_ [Hflight [_ Hcleared]]].
  rewrite (Hflight (datagram "90,90") (Demand 90 90) _ AtTop zero_demand
             eq_refl).
  apply Hcleared; discriminate.
Defined.

(** ** The defaults in binary64 *)

Section Binary64Defaults.
Import PrimFloat SpecFloat FloatOps FloatAxioms.
Local Open Scope float_scope.

Lemma nan_not_leb (x y : float) :
  is_nan x = true -> (x <=? y) = false /\ (y <=? x) = false.
Proof.
  unfold is_nan. rewrite eqb_spec, !leb_spec. unfold SFeqb, SFleb.
  destruct (Prim2SF x) as [s|s| |s m e]; try destruct s; cbn;
    try discriminate.
  - intros _. destruct (Prim2SF y); split; reflexivity.
  - rewrite Z.compare_refl, Pos.compare_cont_refl. discriminate.
  - rewrite Z.compare_refl, Pos.compare_cont_refl. discriminate.
Qed.

(** X18.  In binary64 arithmetic every throttle demand below 0, above 100
    or not a number gives the pulse 900 exactly, and every rudder demand
    below -100, above 100 or not a number gives 1500 exactly. *)
Theorem binary64_defaults (v : float) :
  ((v <? 0) = true \/ (100 <? v) = true \/ is_nan v = true ->
   Binary64.throttle_usec v = 900)
  /\ ((v <? -100) = true \/ (100 <? v) = true \/ is_nan v = true ->
      Binary64.rudder_usec v = 1500).
Proof.
  split; intros H.
  - unfold Binary64.throttle_usec.
    replace ((0 <=? v) && (v <=? 100))%bool with false; [reflexivity|].
    symmetry. apply andb_false_iff.
    destruct H as [H|[H|H]].
    + left. apply ltb_not_leb. exact H.
    + right. apply ltb_not_leb. exact H.
    + left. apply (nan_not_leb v 0 H).
  - unfold Binary64.rudder_usec.
    replace ((-100 <=? v) && (v <=? 100))%bool with false; [reflexivity|].
    symmetry. apply andb_false_iff.
    destruct H as [H|[H|H]].
    + left. apply ltb_not_leb. exact H.
    + right. apply ltb_not_leb. exact H.
    + left. apply (nan_not_leb v (-100) H).
Qed.

(** X18 at a throttle demand of minus a quarter and at a rudder demand
    that is not a number. *)
Lemma binary64_defaults_witness :
  Binary64.throttle_usec (-0.25) = 900 /\ Binary64.rudder_usec nan = 1500.
Proof.
  split.
  - apply (proj1 (binary64_defaults (-0.25))). left. reflexivity.
  - apply (proj2 (binary64_defaults nan)). right. right. reflexivity.
Defined.

End Binary64Defaults.

(** ** How [main] ends *)

(** X20.  How [main] ends follows from the two initialisations, the
    battery and the passes of [commsThread], case by case: it returns -1
    when the ADC fails to initialise; with a working ADC and no reading
    of at least 6.0 V it never gets past the battery loop, whatever the
    servo driver would do; it returns -1 when the battery is charged and
    the servo driver fails; and it returns 0 when both initialisations
    succeed, the battery is charged and every pass of [commsThread] is
    defined. *)
Theorem main_endings (e : env) :
  (adc_init_rc e <> 0%Z -> snd (main e) = Exited (-1))
  /\ (adc_init_rc e = 0%Z ->
      snd (wait_battery (batt_reads e)) = false ->
      snd (main e) = WaitingForBattery)
  /\ (adc_init_rc e = 0%Z ->
      snd (wait_battery (batt_reads e)) = true ->
      servo_init_rc e <> 0%Z ->
      snd (main e) = Exited (-1))
  /\ (adc_init_rc e = 0%Z ->
      snd (wait_battery (batt_reads e)) = true ->
      servo_init_rc e = 0%Z ->
      forall shared : demand,
        snd (run_threads (fst (commsThread_setup e)) (schedule e)
                         zero_demand) = Ok shared ->
        snd (main e) = Exited 0).
Proof.
  unfold main.
  destruct (Z.eqb_spec (adc_init_rc e) 0) as [Hadc|Hadc]; cbn [negb].
  2:{ repeat split; intros; try contradiction; reflexivity. }
  destruct (wait_battery (batt_reads e)) as [waits charged]. cbn [snd].
  destruct charged; cbn [negb].
  2:{ repeat split; intros; try contradiction; try discriminate; reflexivity. }
  destruct (Z.eqb_spec (servo_init_rc e) 0) as [Hservo|Hservo]; cbn [negb].
  2:{ repeat split; intros; try contradiction; try discriminate; reflexivity. }
  destruct (commsThread_setup e) as [listening setup]. cbn [fst].
  destruct (run_threads listening (schedule e) zero_demand) as [tr [d|f]];
    cbn [snd]; repeat split; intros; try contradiction; try discriminate;
    reflexivity.
Qed.

(** X20 at a run without faults and at a run whose battery stays low. *)
Lemma main_endings_witness :
  snd (main (Env 0 [6.5] 0 3 0 0 0 [MainTurn; CommsTurn RecvNone])) = Exited 0
  /\ snd (main (Env 0 [5.0; 5.5] 0 3 0 0 0 [MainTurn])) = WaitingForBattery.
Proof.
  split.
  - apply (proj2 (proj2 (proj2 (main_endings
                    (Env 0 [6.5] 0 3 0 0 0 [MainTurn; CommsTurn RecvNone]))))
             eq_refl eq_refl eq_refl zero_demand).
    reflexivity.
  - apply (proj1 (proj2 (main_endings
                    (Env 0 [5.0; 5.5] 0 3 0 0 0 [MainTurn])))
             eq_refl eq_refl).
Defined.
